(** * Figma-to-React MCP server: orchestration core

    A shallow embedding of the TypeScript sources of the design-to-code
    server: the response cache and the design-token extraction of the
    Figma adapter, the Figma URL helper, the git-data commit sequence of
    the GitHub adapter, the browser context pool, the screenshot
    comparison and the visual test of the Playwright adapter, the two
    workflows of the workflow service, the file, frame, token and
    component queries of the Figma adapter, and the input parsing and
    the analysis handler of the server.

    Remote services (the git data API, the browser engine, the file
    system, the clock) are modelled as explicit state that is threaded
    through the calls, together with the outcome the service gives to
    each call. JavaScript numbers are binary64 floats where the code
    computes with fractions, and integers ([Z]) where it counts. *)

From Stdlib Require Import ZArith Ascii String Floats Uint63 Permutation.
From stdpp Require Import gmap strings list pretty.

Open Scope Z_scope.

Set Warnings "-inexact-float".

(** ** Tool results

    [ToolResult] of [types/index.ts]: a success flag with optional data and
    an optional error message. *)

Record ToolResult (D : Type) := mkToolResult {
  success : bool;
  data : option D;
  error : option string;
}.
Arguments mkToolResult {D} _ _ _.
Arguments success {D} _.
Arguments data {D} _.
Arguments error {D} _.

Definition ok {D} (d : D) : ToolResult D := mkToolResult true (Some d) None.
Definition failed {D} (msg : string) : ToolResult D :=
  mkToolResult false None (Some msg).

(** Changing the payload type of a result that a function hands on
    unchanged ([return fileResult], [return commitResult]). *)
Definition recast {D E} (f : D → option E) (r : ToolResult D) : ToolResult E :=
  mkToolResult (success r) (data r ≫= f) (error r).

(** A promise as [Promise.allSettled] reports it. *)
Inductive Settled (A : Type) :=
  | Fulfilled (value : A)
  | RejectedWith (reason : string).
Arguments Fulfilled {A} _.
Arguments RejectedWith {A} _.

(** ** JavaScript strings *)

Module JsString.

Open Scope string_scope.

Fixpoint strip_prefix (p s : string) : option string :=
  match p, s with
  | "", _ => Some s
  | String a p', String b s' => if Ascii.eqb a b then strip_prefix p' s' else None
  | String _ _, "" => None
  end.

(** [s.replace(pattern, replacement)] with a string pattern: the first
    occurrence only. *)
Fixpoint replace_first (pattern replacement s : string) : string :=
  match strip_prefix pattern s with
  | Some rest => replacement ++ rest
  | None =>
      match s with
      | "" => ""
      | String c s' => String c (replace_first pattern replacement s')
      end
  end.

(** [parts.join(separator)] *)
Fixpoint join_with (separator : string) (parts : list string) : string :=
  match parts with
  | [] => ""
  | [x] => x
  | x :: parts' => x ++ separator ++ join_with separator parts'
  end.

Definition nonempty (s : string) : bool :=
  match s with "" => false | _ => true end.

(** The line feed of a template literal. *)
Definition nl : string := String "010" "".

End JsString.

(** ** Response cache ([integrations/figma.ts]) *)

Module Cache.

Section cache.
Context {T : Type}.

(** [interface CacheEntry<T>]. *)
Record CacheEntry := mkEntry {
  entry_data : T;
  timestamp : Z;
  ttl : Z;
}.

(** [private readonly cacheTTL = 5 * 60 * 1000]. *)
Definition cacheTTL : Z := 5 * 60 * 1000.

(** [setCache(key, data, ttl)]; [now] is the value [Date.now()] returns
    during the call. *)
Definition setCache (now : Z) (key : string) (d : T) (ttl_ms : Z)
    (cache : gmap string CacheEntry) : gmap string CacheEntry :=
  <[key := mkEntry d now ttl_ms]> cache.

(** [getCache(key)]: the value returned ([None] is [null]) and the cache
    after the call, which drops an expired entry. *)
Definition getCache (now : Z) (key : string)
    (cache : gmap string CacheEntry) : option T * gmap string CacheEntry :=
  match cache !! key with
  | None => (None, cache)
  | Some entry =>
      if ttl entry <? now - timestamp entry
      then (None, delete key cache)
      else (Some (entry_data entry), cache)
  end.

(** [clearCache()], as far as the response cache goes. *)
Definition clearCache (cache : gmap string CacheEntry) : gmap string CacheEntry := ∅.

End cache.
Arguments CacheEntry : clear implicits.

End Cache.

(** ** Figma URL helper ([utils/figma-parser.ts])

    Strings are the UTF-8 bytes of the JavaScript text. *)

Module FigmaUrlParser.
Import JsString.

Open Scope string_scope.

Definition code (c : ascii) : N := N_of_ascii c.

Definition in_range (lo hi : N) (c : ascii) : bool :=
  ((lo <=? code c) && (code c <=? hi))%N.

(** [\d] and [[a-zA-Z0-9]]. *)
Definition is_digit (c : ascii) : bool := in_range 48 57 c.
Definition is_alnum (c : ascii) : bool :=
  is_digit c || in_range 65 90 c || in_range 97 122 c.

Fixpoint all_digits (s : string) : bool :=
  match s with
  | "" => true
  | String c s' => is_digit c && all_digits s'
  end.

Fixpoint skip_digits (s : string) : string :=
  match s with
  | "" => ""
  | String c s' => if is_digit c then skip_digits s' else s
  end.

(** [/^\d+[-:]\d+$/.test(input)] *)
Definition looks_like_node_id (input : string) : bool :=
  match input with
  | "" => false
  | String c _ =>
      is_digit c &&
      match skip_digits input with
      | String sep rest =>
          (Ascii.eqb sep "-" || Ascii.eqb sep ":") && nonempty rest && all_digits rest
      | "" => false
      end
  end.

(** [/^\d+:\d+$/.test(nodeId)] *)
Definition isValidNodeId (nodeId : string) : bool :=
  match nodeId with
  | "" => false
  | String c _ =>
      is_digit c &&
      match skip_digits nodeId with
      | String sep rest => Ascii.eqb sep ":" && nonempty rest && all_digits rest
      | "" => false
      end
  end.

(** [decoded.replace(/%3A/g, ":")] *)
Fixpoint replace_all_3A (s : string) : string :=
  match s with
  | "" => ""
  | String c s' =>
      match s' with
      | String c1 (String c2 s'') =>
          if Ascii.eqb c "%" && Ascii.eqb c1 "3" && Ascii.eqb c2 "A"
          then String ":" (replace_all_3A s'')
          else String c (replace_all_3A s')
      | _ => String c (replace_all_3A s')
      end
  end.

(** [fileName.replace(/-/g, " ")] *)
Fixpoint replace_all_dash (s : string) : string :=
  match s with
  | "" => ""
  | String c s' => String (if Ascii.eqb c "-" then " "%char else c) (replace_all_dash s')
  end.

(** The longest prefix matched by [[^&]*]. *)
Fixpoint take_until_amp (s : string) : string :=
  match s with
  | "" => ""
  | String c s' => if Ascii.eqb c "&" then "" else String c (take_until_amp s')
  end.

(** [node-id=([^&]+)] matched at the start of [s]: the capture group. *)
Definition node_param_here (s : string) : option string :=
  match strip_prefix "node-id=" s with
  | Some rest =>
      match take_until_amp rest with
      | "" => None
      | cap => Some cap
      end
  | None => None
  end.

(** [input.match(FIGMA_NODE_REGEX)]: the leftmost match of
    [/node-id=([^&]+)/], as its capture group. *)
Fixpoint node_regex_match (s : string) : option string :=
  match node_param_here s with
  | Some cap => Some cap
  | None =>
      match s with
      | "" => None
      | String _ s' => node_regex_match s'
      end
  end.

(** *** [decodeURIComponent] and [encodeURIComponent] *)

Definition hex_value (c : ascii) : option N :=
  if is_digit c then Some (code c - 48)%N
  else if in_range 65 70 c then Some (code c - 55)%N
  else if in_range 97 102 c then Some (code c - 87)%N
  else None.

Definition hex_digit (n : N) : ascii :=
  ascii_of_N (if (n <? 10)%N then n + 48 else n + 55)%N.

(** State of the UTF-8 check that [decodeURIComponent] makes on a run of
    escapes: outside a sequence, or inside one, where the next octet must
    lie in [lo..hi] and [more] octets follow it. *)
Inductive utf8_state :=
  | Outside
  | Inside (lo hi : N) (more : nat).

Definition utf8_step (st : utf8_state) (b : N) : option utf8_state :=
  match st with
  | Outside =>
      if (b <? 128)%N then Some Outside
      else if ((194 <=? b) && (b <=? 223))%N then Some (Inside 128 191 0)
      else if (b =? 224)%N then Some (Inside 160 191 1)
      else if (b =? 237)%N then Some (Inside 128 159 1)
      else if ((225 <=? b) && (b <=? 239))%N then Some (Inside 128 191 1)
      else if (b =? 240)%N then Some (Inside 144 191 2)
      else if ((241 <=? b) && (b <=? 243))%N then Some (Inside 128 191 2)
      else if (b =? 244)%N then Some (Inside 128 143 2)
      else None
  | Inside lo hi more =>
      if ((lo <=? b) && (b <=? hi))%N
      then Some (match more with O => Outside | S m => Inside 128 191 m end)
      else None
  end.

(** [decodeURIComponent(s)]; [None] is the [URIError] it throws on an
    escape that is cut short, is not hexadecimal, or does not decode to
    UTF-8. *)
Fixpoint decode_from (st : utf8_state) (s : string) : option string :=
  match s with
  | "" => match st with Outside => Some "" | Inside _ _ _ => None end
  | String c s' =>
      if Ascii.eqb c "%" then
        match s' with
        | String h1 (String h2 s'') =>
            match hex_value h1, hex_value h2 with
            | Some a, Some b =>
                let octet := (16 * a + b)%N in
                match utf8_step st octet with
                | Some st' => String (ascii_of_N octet) <$> decode_from st' s''
                | None => None
                end
            | _, _ => None
            end
        | _ => None
        end
      else
        match st with
        | Outside => String c <$> decode_from Outside s'
        | Inside _ _ _ => None
        end
  end.

Definition decodeURIComponent (s : string) : option string := decode_from Outside s.

(** The characters [encodeURIComponent] leaves alone: [A-Z a-z 0-9] and
    [- _ . ! ~ * ' ( )]. *)
Definition unreserved (c : ascii) : bool :=
  is_alnum c ||
  existsb (Ascii.eqb c) ["-"; "_"; "."; "!"; "~"; "*"; "'"; "("; ")"]%char.

Fixpoint encodeURIComponent (s : string) : string :=
  match s with
  | "" => ""
  | String c s' =>
      if unreserved c then String c (encodeURIComponent s')
      else String "%" (String (hex_digit (code c / 16)) (String (hex_digit (code c mod 16))
             (encodeURIComponent s')))
  end.

(** [decodeNodeId]: the [catch] returns the input as it is. *)
Definition decodeNodeId (encodedNodeId : string) : string :=
  match decodeURIComponent encodedNodeId with
  | Some decoded => replace_all_3A decoded
  | None => encodedNodeId
  end.

(** [extractNodeId(input)]; [None] is [null]. *)
Definition extractNodeId (input : string) : option string :=
  if looks_like_node_id input then Some (replace_first "-" ":" input)
  else
    match node_regex_match input with
    | Some cap => Some (decodeNodeId cap)
    | None => None
    end.

(** [createFigmaUrl(fileId, nodeId?, fileName?)]; an absent argument is
    [None], and an empty string is as falsy as an absent one. *)
Definition createFigmaUrl (fileId : string) (nodeId fileName : option string) : string :=
  let baseUrl :=
    "https://www.figma.com/file/" ++ fileId ++ "/" ++
    match fileName with
    | Some (String c n) => String c n
    | _ => "design"
    end in
  match nodeId with
  | Some (String c n) => baseUrl ++ "?node-id=" ++ encodeURIComponent (String c n)
  | _ => baseUrl
  end.

(** *** [parseFigmaUrl] *)

(** [interface FigmaUrlInfo] *)
Record FigmaUrlInfo := mkUrlInfo {
  fileId : string;
  nodeId : option string;
  fileName : option string;
}.

Fixpoint take_while (p : ascii → bool) (s : string) : string :=
  match s with
  | "" => ""
  | String c s' => if p c then String c (take_while p s') else ""
  end.

Fixpoint drop_while (p : ascii → bool) (s : string) : string :=
  match s with
  | "" => ""
  | String c s' => if p c then drop_while p s' else s
  end.

(** A line terminator, which [.] does not match: LF, CR, and the UTF-8
    bytes of U+2028 and U+2029. *)
Definition line_terminator_here (s : string) : bool :=
  match s with
  | String c s' =>
      Ascii.eqb c "010" || Ascii.eqb c "013" ||
      match s' with
      | String c1 (String c2 _) =>
          Ascii.eqb c "226" && Ascii.eqb c1 "128" &&
          (Ascii.eqb c2 "168" || Ascii.eqb c2 "169")
      | _ => false
      end
  | "" => false
  end.

(** [.*node-id=([^&]+)] matched at the start of [s]: the greedy [.*] gives
    the last place, within the line, where the parameter matches. *)
Fixpoint last_node_param (s : string) : option string :=
  match s with
  | "" => node_param_here s
  | String _ s' =>
      if line_terminator_here s then node_param_here s
      else
        match last_node_param s' with
        | Some cap => Some cap
        | None => node_param_here s
        end
  end.

(** FIGMA_URL_REGEX matched at the start of [s]: the three groups. *)
Definition figma_url_here (s : string) : option (string * string * option string) :=
  r1 ← strip_prefix "https://" s;
  let r2 := default r1 (strip_prefix "www." r1) in
  r3 ← strip_prefix "figma.com/" r2;
  r4 ← match strip_prefix "file" r3 with
        | Some r => Some r
        | None => strip_prefix "design" r3
        end;
  r5 ← strip_prefix "/" r4;
  let id := take_while is_alnum r5 in
  r6 ← strip_prefix "/" (drop_while is_alnum r5);
  let not_sep c := negb (Ascii.eqb c "/" || Ascii.eqb c "?") in
  let name := take_while not_sep r6 in
  if nonempty id && nonempty name then
    Some (id, name,
          match drop_while not_sep r6 with
          | String c r7 => if Ascii.eqb c "?" then last_node_param r7 else None
          | "" => None
          end)
  else None.

(** [url.match(FIGMA_URL_REGEX)]: the leftmost match. *)
Fixpoint figma_url_match (s : string) : option (string * string * option string) :=
  match figma_url_here s with
  | Some m => Some m
  | None =>
      match s with
      | "" => None
      | String _ s' => figma_url_match s'
      end
  end.

(** [parseFigmaUrl(url)]; a [URIError] from decoding the file name is
    caught and gives [null]. *)
Definition parseFigmaUrl (url : string) : option FigmaUrlInfo :=
  match figma_url_match url with
  | None => None
  | Some (id, name, node) =>
      name' ← decodeURIComponent (replace_all_dash name);
      Some (mkUrlInfo id (decodeNodeId <$> node) (Some name'))
  end.

(** [extractFileId(input)]; [None] is the error it throws. *)
Definition extractFileId (input : string) : option string :=
  if forallb is_alnum (list_ascii_of_string input) && nonempty input
     && (10 <? String.length input)%nat
  then Some input
  else fileId <$> parseFigmaUrl input.

End FigmaUrlParser.

(** ** JavaScript numbers *)

Module JsNumber.

(** An integer below 2^63 as a number. *)
Definition of_Z (z : Z) : float :=
  if z <? 0 then (- PrimFloat.of_uint63 (Uint63.of_Z (- z)))%float
  else PrimFloat.of_uint63 (Uint63.of_Z z).

(** [Math.round(x)]: the integer nearest to [x], a tie going up. A finite
    [x] is [±m·2^e]; with [e < 0] the result is the floor of
    [(2·(±m) + 2^-e) / 2^(1-e)]. *)
Definition Math_round (x : float) : float :=
  match Prim2SF x with
  | S754_finite sign m e =>
      if 0 <=? e then x
      else
        let den := 2 ^ (- e) in
        let num := if sign then Z.neg m else Z.pos m in
        let n := (2 * num + den) `div` (2 * den) in
        if (n =? 0) && sign then (-0)%float else of_Z n
  | _ => x
  end.

(** The comparator [(a, b) => a - b] of [Array.prototype.sort], which is
    stable: [x] stays ahead of [y] unless [x - y] is positive. The
    comparator orders the numbers other than NaN; where NaN is among the
    values the standard leaves the order to the engine, and only the
    values of the result are meant here. *)
Fixpoint sort_insert (x : float) (l : list float) : list float :=
  match l with
  | [] => [x]
  | y :: l' => if (0 <? x - y)%float then y :: sort_insert x l' else x :: l
  end.

Definition sort_numbers (l : list float) : list float :=
  foldr sort_insert [] l.

End JsNumber.

(** ** An insertion-ordered [Map<string, V>] *)

Module JsMap.

Section jsmap.
Context {V : Type}.

(** [map.set(key, value)]: a key that is present keeps its place. *)
Fixpoint set (key : string) (value : V) (m : list (string * V)) : list (string * V) :=
  match m with
  | [] => [(key, value)]
  | (k, v) :: m' =>
      if String.eqb k key then (k, value) :: m' else (k, v) :: set key value m'
  end.

(** [Array.from(map.values())] *)
Definition values (m : list (string * V)) : list V := m.*2.

Definition keys (m : list (string * V)) : list string := m.*1.
End jsmap.

End JsMap.

(** ** Design tokens ([integrations/figma.ts]) *)

Module FigmaTokens.
Import JsNumber.

Open Scope string_scope.

(** The part of a document node that the token extraction reads. A node
    without [children] is a node with none. *)
Record Color := mkColor { r : float; g : float; b : float; a : option float }.
Record Fill := mkFill { fill_type : string; color : option Color }.
Record BoundingBox := mkBox { width : float; height : float }.

#[warnings="-register-all"]
Inductive Node := mkNode {
  fills : option (list Fill);
  fontFamily : option string;
  absoluteBoundingBox : option BoundingBox;
  cornerRadius : option float;
  children : list Node;
}.

(** [interface DesignTokenCache] *)
Record DesignTokenCache := mkTokenCache {
  tc_colors : list (string * string);
  tc_fonts : list (string * string);
  tc_spacing : list (string * float);
  tc_borderRadius : list (string * float);
}.

(** The aggregate that [extractDesignTokensOptimized] returns. *)
Record DesignTokens := mkTokens {
  colors : list string;
  fonts : list string;
  spacing : list float;
  borderRadius : list float;
}.

Section tokens.
(** The text a template literal gives a number ([Number::toString]). *)
Variable number_to_string : float → string.
Notation "# x" := (number_to_string x) (at level 9, format "# x").

Definition process_fill (fill : Fill) (tc : DesignTokenCache) : DesignTokenCache :=
  match color fill with
  | Some c =>
      if String.eqb (fill_type fill) "SOLID" then
        let alpha := default 1%float (a c) in
        let colorKey := #(r c) ++ "-" ++ #(g c) ++ "-" ++ #(b c) ++ "-" ++ #alpha in
        let colorValue :=
          "rgba(" ++ #(Math_round (r c * 255)) ++ ", " ++ #(Math_round (g c * 255))
          ++ ", " ++ #(Math_round (b c * 255)) ++ ", " ++ #alpha ++ ")" in
        mkTokenCache (JsMap.set colorKey colorValue (tc_colors tc))
          (tc_fonts tc) (tc_spacing tc) (tc_borderRadius tc)
      else tc
  | None => tc
  end.

Definition process_fills (node : Node) (tc : DesignTokenCache) : DesignTokenCache :=
  match fills node with
  | Some fs => foldl (λ acc fill, process_fill fill acc) tc fs
  | None => tc
  end.

Definition process_font (node : Node) (tc : DesignTokenCache) : DesignTokenCache :=
  match fontFamily node with
  | Some (String c f) =>
      mkTokenCache (tc_colors tc) (JsMap.set (String c f) (String c f) (tc_fonts tc))
        (tc_spacing tc) (tc_borderRadius tc)
  | _ => tc
  end.

Definition set_spacing (key : string) (value : float) (tc : DesignTokenCache)
    : DesignTokenCache :=
  mkTokenCache (tc_colors tc) (tc_fonts tc)
    (JsMap.set key value (tc_spacing tc)) (tc_borderRadius tc).

Definition process_box (node : Node) (tc : DesignTokenCache) : DesignTokenCache :=
  match absoluteBoundingBox node with
  | Some box =>
      let w := Math_round (width box) in
      let h := Math_round (height box) in
      let tc1 := if (0 <? w)%float then set_spacing ("w-" ++ #w) w tc else tc in
      if (0 <? h)%float then set_spacing ("h-" ++ #h) h tc1 else tc1
  | None => tc
  end.

Definition process_radius (node : Node) (tc : DesignTokenCache) : DesignTokenCache :=
  match cornerRadius node with
  | Some cr =>
      mkTokenCache (tc_colors tc) (tc_fonts tc) (tc_spacing tc)
        (JsMap.set ("br-" ++ #cr) cr (tc_borderRadius tc))
  | None => tc
  end.

(** [processNodeForTokens(node)], on the token cache of the object. *)
Definition processNodeForTokens (node : Node) (tc : DesignTokenCache) : DesignTokenCache :=
  process_radius node (process_box node (process_font node (process_fills node tc))).

(** The [while (nodesToProcess.length > 0)] loop. The head of [stack] is
    the last element of the array, the one [pop()] takes; [push(...children)]
    leaves the last child on top. [None]: out of fuel. *)
Fixpoint process_loop (fuel : nat) (stack : list Node) (tc : DesignTokenCache)
    : option DesignTokenCache :=
  match stack with
  | [] => Some tc
  | node :: rest =>
      match fuel with
      | O => None
      | S fuel' =>
          process_loop fuel' (rev (children node) ++ rest) (processNodeForTokens node tc)
      end
  end.

Fixpoint node_count (node : Node) : nat :=
  S (list_sum (map node_count (children node))).

Definition empty_cache : DesignTokenCache := mkTokenCache [] [] [] [].

(** [extractDesignTokensOptimized(document)] *)
Definition extractDesignTokensOptimized (document : Node) : option DesignTokens :=
  tc ← process_loop (node_count document) [document] empty_cache;
  Some (mkTokens (JsMap.values (tc_colors tc)) (JsMap.values (tc_fonts tc))
          (sort_numbers (JsMap.values (tc_spacing tc)))
          (sort_numbers (JsMap.values (tc_borderRadius tc)))).
End tokens.

End FigmaTokens.

(** ** The source-hosting adapter ([integrations/github.ts]) *)

Module GitHub.

Open Scope string_scope.

(** *** The git data service

    The repository the REST calls act on. An object is named by its place
    in the object store; a tree is the flat map from the path of a file to
    its blob. [moves] records every update of a reference, [served] counts
    the requests received. *)
Inductive GitObject :=
  | Blob (content : string)
  | Tree (entries : gmap string nat)
  | Commit (tree : nat) (parents : list nat) (message : string).

Record Repo := mkRepo {
  objects : list GitObject;
  refs : gmap string nat;
  moves : list (string * nat);
  served : nat;
}.

(** A call on the service: the rejection message of the promise, or its
    value, and the repository afterwards. *)
Definition Api (A : Type) : Type := Repo → (string + A) * Repo.

Definition api_ret {A} (x : A) : Api A := λ repo, (inr x, repo).
Definition api_throw {A} (msg : string) : Api A := λ repo, (inl msg, repo).
Definition api_bind {A B} (m : Api A) (k : A → Api B) : Api B :=
  λ repo, match m repo with
          | (inl msg, repo') => (inl msg, repo')
          | (inr x, repo') => k x repo'
          end.

#[global] Instance api_mret : MRet Api := @api_ret.
#[global] Instance api_mbind : MBind Api := λ A B k m, api_bind m k.

Record FileEntry := mkFile { path : string; file_content : string }.

Section service.
(** [fault n]: the error with which the service, or the network, fails
    request number [n], if it does. *)
Variable fault : nat → option string.

(** One request: it is counted, and fails without any effect when the
    environment says so. *)
Definition request {A} (body : Api A) : Api A :=
  λ repo,
    let repo' := mkRepo (objects repo) (refs repo) (moves repo) (S (served repo)) in
    match fault (served repo) with
    | Some msg => (inl msg, repo')
    | None => body repo'
    end.

Definition store (o : GitObject) : Api nat :=
  λ repo, (inr (length (objects repo)),
           mkRepo (objects repo ++ [o]) (refs repo) (moves repo) (served repo)).

(** [git.getRef({ref})], where [ref] is [heads/<branch>]. *)
Definition getRef (ref : string) : Api nat :=
  request (λ repo,
    match refs repo !! ("refs/" ++ ref) with
    | Some sha => (inr sha, repo)
    | None => (inl "Not Found", repo)
    end).

(** [git.getCommit({commit_sha})]: the tree of the commit. *)
Definition getCommit (sha : nat) : Api nat :=
  request (λ repo,
    match objects repo !! sha with
    | Some (Commit t _ _) => (inr t, repo)
    | _ => (inl "Not Found", repo)
    end).

(** [git.createBlob({content})] *)
Definition createBlob (content : string) : Api nat :=
  request (store (Blob content)).

(** [git.createTree({base_tree, tree})]: the entries of the base tree,
    with the given ones added or replaced. *)
Definition createTree (base_tree : nat) (entries : list (string * nat)) : Api nat :=
  request (λ repo,
    match objects repo !! base_tree with
    | Some (Tree base) =>
        store (Tree (foldl (λ t e, <[e.1 := e.2]> t) base entries)) repo
    | _ => (inl "Not Found", repo)
    end).

(** [git.createCommit({message, tree, parents})] *)
Definition createCommitObject (message : string) (tree : nat) (parents : list nat)
    : Api nat :=
  request (store (Commit tree parents message)).

(** [git.updateRef({ref, sha})], where [ref] is [heads/<branch>]. *)
Definition updateRef (ref : string) (sha : nat) : Api unit :=
  request (λ repo,
    match refs repo !! ("refs/" ++ ref) with
    | Some _ =>
        (inr (), mkRepo (objects repo) (<["refs/" ++ ref := sha]> (refs repo))
                   (moves repo ++ [("refs/" ++ ref, sha)]) (served repo))
    | None => (inl "Reference does not exist", repo)
    end).

(** [git.createRef({ref, sha})], where [ref] is [refs/heads/<branch>]. *)
Definition createRef (ref : string) (sha : nat) : Api unit :=
  request (λ repo,
    match refs repo !! ref with
    | Some _ => (inl "Reference already exists", repo)
    | None =>
        (inr (), mkRepo (objects repo) (<[ref := sha]> (refs repo))
                   (moves repo) (served repo))
    end).

(** *** The adapter *)

(** [Promise.all(files.map(async (file) => ...))]: every blob request is
    sent; the promise rejects when one of them does, the others having
    been served all the same. *)
Fixpoint createBlobs (files : list FileEntry) : Api (list (string * nat)) :=
  match files with
  | [] => api_ret []
  | file :: files' =>
      λ repo,
        match createBlob (file_content file) repo with
        | (inl msg, repo1) => (inl msg, (createBlobs files' repo1).2)
        | (inr sha, repo1) =>
            match createBlobs files' repo1 with
            | (inl msg, repo2) => (inl msg, repo2)
            | (inr blobs, repo2) => (inr ((path file, sha) :: blobs), repo2)
            end
        end
  end.

(** The body of the [try] of [createCommit]. *)
Definition createCommit_try (branchName : string) (files : list FileEntry)
    (message : string) : Api nat :=
  ref ← getRef ("heads/" ++ branchName) ;
  commit_tree ← getCommit ref ;
  blobs ← createBlobs files ;
  tree ← createTree commit_tree blobs ;
  newCommit ← createCommitObject message tree [ref] ;
  _ ← updateRef ("heads/" ++ branchName) newCommit ;
  api_ret newCommit.

Record CommitData := mkCommitData { commitSha : nat; commit_message : string }.

(** [createCommit(branchName, files, message)] *)
Definition createCommit (branchName : string) (files : list FileEntry)
    (message : string) (repo : Repo) : ToolResult CommitData * Repo :=
  match createCommit_try branchName files message repo with
  | (inr sha, repo') => (ok (mkCommitData sha message), repo')
  | (inl msg, repo') => (failed msg, repo')
  end.

Record BranchData := mkBranchData { branchName : string; sha : nat }.

(** [createBranch(branchName, baseBranch = "main")] *)
Definition createBranch (branch baseBranch : string) (repo : Repo)
    : ToolResult BranchData * Repo :=
  match (baseRef ← getRef ("heads/" ++ baseBranch) ;
         _ ← createRef ("refs/heads/" ++ branch) baseRef ;
         api_ret baseRef) repo with
  | (inr base, repo') => (ok (mkBranchData branch base), repo')
  | (inl msg, repo') => (failed msg, repo')
  end.
End service.

(** The tree at the head of a branch. *)
Definition head_tree (repo : Repo) (branch : string) : option (gmap string nat) :=
  head ← refs repo !! ("refs/heads/" ++ branch);
  match objects repo !! head with
  | Some (Commit t _ _) =>
      match objects repo !! t with
      | Some (Tree entries) => Some entries
      | _ => None
      end
  | _ => None
  end.

(** The content of the file at [path] at the head of a branch. *)
Definition head_file (repo : Repo) (branch path : string) : option string :=
  entries ← head_tree repo branch;
  blob ← entries !! path;
  match objects repo !! blob with
  | Some (Blob content) => Some content
  | _ => None
  end.

End GitHub.

(** ** The browser context pool ([integrations/playwright.ts]) *)

Module Pool.

(** [interface BrowserPool]: the engine (named by the number of its
    launch), the idle contexts (the last one is the one [pop()] takes)
    and the counter of leased ones. *)
Record BrowserPool := mkPool {
  browser : nat;
  contexts : list nat;
  activeContexts : Z;
}.

Inductive PromiseState :=
  | Pending
  | Resolved
  | Rejected (reason : string).

(** The fields of [PlaywrightIntegration] and what the browser engine
    knows: the state of every launch requested so far, and the contexts
    that are open. *)
Record Playwright := mkPlaywright {
  browserPool : option BrowserPool;
  initializationPromise : option nat;
  launched : list PromiseState;
  live : list nat;
  next_context : nat;
}.

Definition maxContexts : Z := 5.

(** A call of [getContext()] in flight, by the [await] it is suspended at. *)
Inductive Task :=
  | AwaitInitialize (launch : option nat)
  | AwaitNewContext
  | AwaitTimer
  | Returned (context : nat)
  | Threw (reason : string).

(** [initialize()], up to the promise it returns: [None] when the pool
    exists, else the launch to wait for, which [createBrowserPool()]
    starts unless one is recorded. *)
Definition initialize (pw : Playwright) : option nat * Playwright :=
  match browserPool pw with
  | Some _ => (None, pw)
  | None =>
      match initializationPromise pw with
      | Some launch => (Some launch, pw)
      | None =>
          let launch := length (launched pw) in
          (Some launch,
           mkPlaywright None (Some launch) (launched pw ++ [Pending])
             (live pw) (next_context pw))
      end
  end.

(** [getContext()] from its call to [await this.initialize()]. *)
Definition getContext_call (pw : Playwright) : Task * Playwright :=
  let '(launch, pw') := initialize pw in (AwaitInitialize launch, pw').

(** [chromium.launch()] settles: [createBrowserPool()] stores the pool. *)
Definition launch_settles (launch : nat) (outcome : option string) (pw : Playwright)
    : Playwright :=
  match launched pw !! launch with
  | Some Pending =>
      match outcome with
      | None =>
          mkPlaywright (Some (mkPool launch [] 0)) (initializationPromise pw)
            (<[launch := Resolved]> (launched pw)) (live pw) (next_context pw)
      | Some reason =>
          mkPlaywright (browserPool pw) (initializationPromise pw)
            (<[launch := Rejected reason]> (launched pw)) (live pw) (next_context pw)
      end
  | _ => pw
  end.

Definition with_pool (pool : BrowserPool) (pw : Playwright) : Playwright :=
  mkPlaywright (Some pool) (initializationPromise pw) (launched pw)
    (live pw) (next_context pw).

(** The last element of an array and the rest, as [pop()] splits it. *)
Definition pop {A} (l : list A) : option (A * list A) :=
  match reverse l with
  | [] => None
  | x :: l' => Some (x, reverse l')
  end.

(** [getContext()] between [await this.initialize()] and its next
    [await] or [return]. *)
Definition getContext_body (pw : Playwright) : Task * Playwright :=
  match browserPool pw with
  | None => (Threw "Browser pool not initialized"%string, pw)
  | Some pool =>
      match pop (contexts pool) with
      | Some (context, rest) =>
          (Returned context,
           with_pool (mkPool (browser pool) rest (activeContexts pool + 1)) pw)
      | None =>
          if (activeContexts pool <? maxContexts)%Z
          then (AwaitNewContext, pw)
          else (AwaitTimer, pw)
      end
  end.

(** The task is resumed: the promise it awaits has settled, or its timer
    has fired. A task that cannot go on stays as it is. *)
Definition resume (task : Task) (pw : Playwright) : Task * Playwright :=
  match task with
  | AwaitInitialize None => getContext_body pw
  | AwaitInitialize (Some launch) =>
      match launched pw !! launch with
      | Some Resolved => getContext_body pw
      | Some (Rejected reason) => (Threw reason, pw)
      | _ => (task, pw)
      end
  | AwaitNewContext =>
      let context := next_context pw in
      let live' := live pw ++ [context] in
      match browserPool pw with
      | Some pool =>
          (Returned context,
           mkPlaywright
             (Some (mkPool (browser pool) (contexts pool) (activeContexts pool + 1)))
             (initializationPromise pw) (launched pw) live' (S context))
      | None =>
          (Threw "Cannot read properties of null (reading 'activeContexts')"%string,
           mkPlaywright None (initializationPromise pw) (launched pw) live' (S context))
      end
  | AwaitTimer =>
      match browserPool pw with
      | Some pool =>
          match contexts pool with
          | [] => (AwaitTimer, pw)
          | _ => getContext_call pw
          end
      | None =>
          (Threw "Cannot read properties of null (reading 'contexts')"%string, pw)
      end
  | Returned _ | Threw _ => (task, pw)
  end.

(** [releaseContext(context)] *)
Definition releaseContext (context : nat) (pw : Playwright) : Playwright :=
  match browserPool pw with
  | None => pw
  | Some pool =>
      with_pool (mkPool (browser pool) (contexts pool ++ [context])
                   (activeContexts pool - 1)) pw
  end.

(** [close()]: closing the engine closes the contexts it holds. *)
Definition close (pw : Playwright) : Playwright :=
  match browserPool pw with
  | Some _ => mkPlaywright None None (launched pw) [] (next_context pw)
  | None =>
      mkPlaywright None None (launched pw) (live pw) (next_context pw)
  end.

Definition fresh : Playwright := mkPlaywright None None [] [] 0.

(** *** The scheduler

    What can happen next in the single-threaded event loop: a caller calls
    [getContext()], a launch settles, a suspended call is resumed, a lease
    is given back, the pool is closed. *)
Inductive Event :=
  | Call
  | LaunchSettles (launch : nat) (outcome : option string)
  | Resume (task : nat)
  | Release (context : nat)
  | Close.

Definition World : Type := Playwright * list Task.

Definition step (ev : Event) (w : World) : World :=
  let '(pw, tasks) := w in
  match ev with
  | Call => let '(t, pw') := getContext_call pw in (pw', tasks ++ [t])
  | LaunchSettles launch outcome => (launch_settles launch outcome pw, tasks)
  | Resume i =>
      match tasks !! i with
      | Some t => let '(t', pw') := resume t pw in (pw', <[i := t']> tasks)
      | None => w
      end
  | Release context => (releaseContext context pw, tasks)
  | Close => (close pw, tasks)
  end.

Definition run (evs : list Event) (w : World) : World :=
  foldl (λ w ev, step ev w) w evs.

(** The number of engine launches requested so far. *)
Definition launches (pw : Playwright) : nat := length (launched pw).

(** One caller alone: [getContext()] run to its end with nothing else in
    between, the launch it may have to wait for succeeding. [None]: the
    call is left polling for a context. *)
Definition getContext_alone (pw : Playwright) : option (string + nat) * Playwright :=
  let '(t, pw1) := getContext_call pw in
  let pw2 :=
    match t with
    | AwaitInitialize (Some launch) => launch_settles launch None pw1
    | _ => pw1
    end in
  let '(t3, pw3) := resume t pw2 in
  let '(t4, pw4) := resume t3 pw3 in
  (match t4 with
   | Returned context => Some (inr context)
   | Threw reason => Some (inl reason)
   | _ => None
   end, pw4).

End Pool.

(** ** Screenshots, comparison and the visual test
    ([integrations/playwright.ts]) *)

Module Playwright.
Import JsString JsNumber.

Open Scope string_scope.

(** A decoded PNG image. *)
Record Image := mkImage {
  img_width : Z;
  img_height : Z;
  img_data : list Z;
}.

(** What is at a path of the local file system: a PNG image, a file
    that does not begin with the signature of a PNG, or a place where
    nothing is and nothing can be created (the directory above it is
    missing, or a directory is in the place), with the error the file
    system gives for it. A path that is not in the map is free: nothing
    is there, and a file can be written. *)
Inductive File :=
  | PngFile (img : Image)
  | OtherFile (text : string)
  | Blocked (reason : string).

(** [fs.writeFile(path, ...)], and the destination of [fs.copyFile]: the
    error, or the files afterwards. *)
Definition write_file (path : string) (file : File) (fs : gmap string File)
    : string + gmap string File :=
  match fs !! path with
  | Some (Blocked reason) => inl reason
  | _ => inr (<[path := file]> fs)
  end.

(** [fs.mkdir(path, { recursive: true })]: the error, if any. A directory
    that is there already is no error; a file in its place is. *)
Definition make_dir (path : string) (fs : gmap string File) : option string :=
  match fs !! path with
  | Some (Blocked reason) => Some reason
  | Some _ => Some ("EEXIST: file already exists, mkdir '" ++ path ++ "'")%string
  | None => None
  end.

(** [interface ScreenshotComparison] *)
Record ScreenshotComparison := mkComparison {
  baseImagePath : string;
  currentImagePath : string;
  diffImagePath : string;
  similarity : float;
  pixelDifference : Z;
  passed : bool;
}.

(** [interface TestResult] *)
Record TestResult := mkTestResult {
  name : string;
  test_passed : bool;
  test_error : option string;
  screenshots : option (list ScreenshotComparison);
  duration : Z;
}.

(** What the browser makes of a screenshot request: no context could be
    leased, the navigation or the capture failed, or the page was
    rendered. *)
Inductive Shot :=
  | NoContext (reason : string)
  | ShotFails (reason : string)
  | ShotTaken (img : Image).

(** A viewport of the responsive capture. *)
Record Viewport := mkViewport {
  vp_width : Z;
  vp_height : Z;
  vp_name : string;
}.

(** What the browser makes of a responsive capture: no context could be
    leased, a navigation or a capture failed, or every viewport was
    rendered, each at some reading of [Date.now()]. *)
Inductive Responsive :=
  | ResponsiveNoContext (reason : string)
  | ResponsiveFails (reason : string)
  | ResponsiveTaken (shots : list (Z * Image)).

(** What the browser makes of the accessibility scan: no context, a
    failed navigation or evaluation, or the problems found in the page. *)
Inductive Scan :=
  | ScanNoContext (reason : string)
  | ScanFails (reason : string)
  | ScanDone (problems : list string).

(** The data of the accessibility scan. *)
Record AccessibilityData := mkAccessibility {
  a11y_passed : bool;
  issues : list string;
}.

(** One screenshot of the responsive capture. *)
Record ResponsiveShot := mkResponsiveShot {
  viewport : string;
  shot_path : string;
}.

(** [(totalPixels - pixelDifference) / totalPixels * 100] *)
Definition similarity_of (totalPixels pixelDifference : float) : float :=
  ((totalPixels - pixelDifference) / totalPixels * 100)%float.

(** [similarity >= 100 - threshold * 100] *)
Definition passed_of (similarity threshold : float) : bool :=
  (100 - threshold * 100 <=? similarity)%float.

Section playwright.
(** The [pixelmatch] library: the number of pixels that differ at the
    given threshold, and the diff image it draws. *)
Variable pixelmatch : list Z → list Z → Z → Z → float → Z * list Z.
(** [path.join] *)
Variable join : string → string → string.
(** The browser, by URL and selector. *)
Variable shoot : string → option string → Shot.

(** [captureScreenshot(url, selector?, outputPath?)]; [now] is the
    reading of [Date.now()] that names a screenshot without a path. *)
Definition captureScreenshot (url : string) (selector outputPath : option string)
    (now : Z) (fs : gmap string File)
    : Settled (ToolResult string) * gmap string File :=
  match shoot url selector with
  | NoContext reason => (RejectedWith reason, fs)
  | ShotFails reason => (Fulfilled (failed reason), fs)
  | ShotTaken img =>
      let screenshotPath :=
        match outputPath with
        | Some (String c p) => String c p
        | _ => "screenshot-" ++ pretty now ++ ".png"
        end in
      (Fulfilled (ok screenshotPath), <[screenshotPath := PngFile img]> fs)
  end.

(** [compareScreenshots(baseImagePath, currentImagePath, threshold)]; a
    diff image that cannot be written is an error like any other in the
    [try], and nothing is written then. *)
Definition compareScreenshots (basePath currentPath : string) (threshold : float)
    (fs : gmap string File) : ToolResult ScreenshotComparison * gmap string File :=
  match fs !! basePath, fs !! currentPath with
  | Some baseFile, Some currentFile =>
      match baseFile, currentFile with
      | Blocked _, _ | _, Blocked _ =>
          (failed "One or both image files do not exist", fs)
      | PngFile baseImage, PngFile currentImage =>
          if negb (img_width baseImage =? img_width currentImage)%Z
             || negb (img_height baseImage =? img_height currentImage)%Z
          then (failed "Images have different dimensions", fs)
          else
            let '(pixelDifference, diff) :=
              pixelmatch (img_data baseImage) (img_data currentImage)
                (img_width baseImage) (img_height baseImage) threshold in
            let totalPixels :=
              (of_Z (img_width baseImage) * of_Z (img_height baseImage))%float in
            let similarity := similarity_of totalPixels (of_Z pixelDifference) in
            let passed := passed_of similarity threshold in
            let diffImagePath := replace_first ".png" "-diff.png" currentPath in
            match
              write_file diffImagePath
                (PngFile (mkImage (img_width baseImage) (img_height baseImage) diff)) fs
            with
            | inl reason => (failed reason, fs)
            | inr fs' =>
                (ok (mkComparison basePath currentPath diffImagePath
                       similarity pixelDifference passed), fs')
            end
      | _, _ => (failed "Invalid file signature", fs)
      end
  | _, _ => (failed "One or both image files do not exist", fs)
  end.

(** [runVisualTest(testName, url, selector?, baselineDir)]; [startTime]
    and [endTime] are the two readings of [Date.now()]. The directory
    made by [fs.mkdir(baselineDir)] is the one the browser writes the
    screenshot into: that the screenshot is written ([ShotTaken]) says
    that the directory is there. A baseline that cannot be written makes
    the call fail. *)
Definition runVisualTest (testName url : string) (selector : option string)
    (baselineDir : string) (startTime endTime : Z) (fs : gmap string File)
    : ToolResult TestResult * gmap string File :=
  let currentImagePath := join baselineDir (testName ++ "-current.png") in
  match captureScreenshot url selector (Some currentImagePath) startTime fs with
  | (RejectedWith reason, fs1) => (failed reason, fs1)
  | (Fulfilled screenshotResult, fs1) =>
      if negb (success screenshotResult)
      then (recast (λ _, None) screenshotResult, fs1)
      else
        let baseImagePath := join baselineDir (testName ++ "-baseline.png") in
        let finish passed err comparison fs' :=
          (ok (mkTestResult testName passed
                 (match err with Some (String c e) => Some (String c e) | _ => None end)
                 ((λ c, [c]) <$> comparison) (endTime - startTime)), fs') in
        match fs1 !! baseImagePath with
        | Some (Blocked reason) => (failed reason, fs1)
        | Some _ =>
            let '(comparisonResult, fs2) :=
              compareScreenshots baseImagePath currentImagePath 0.1 fs1 in
            if success comparisonResult
            then finish (default false (passed <$> data comparisonResult)) None
                   (data comparisonResult) fs2
            else finish false (error comparisonResult) None fs2
        | None =>
            match fs1 !! currentImagePath with
            | Some (Blocked reason) => (failed reason, fs1)
            | Some file => finish true None None (<[baseImagePath := file]> fs1)
            | None => (failed "ENOENT: no such file or directory", fs1)
            end
        end
  end.
(** The browser, for the responsive capture and the accessibility scan. *)
Variable respond : string → list Viewport → Responsive.
Variable scan : string → Scan.

(** [testResponsiveDesign(url, viewports)]: one screenshot for each
    viewport, written to the working directory. *)
Definition testResponsiveDesign (url : string) (viewports : list Viewport)
    (fs : gmap string File)
    : Settled (ToolResult (list ResponsiveShot)) * gmap string File :=
  match respond url viewports with
  | ResponsiveNoContext reason => (RejectedWith reason, fs)
  | ResponsiveFails reason => (Fulfilled (failed reason), fs)
  | ResponsiveTaken shots =>
      let named :=
        zip_with (λ vp shot,
          (mkResponsiveShot
             (vp_name vp ++ " (" ++ pretty (vp_width vp) ++ "x"
                ++ pretty (vp_height vp) ++ ")")
             ("responsive-" ++ vp_name vp ++ "-" ++ pretty shot.1 ++ ".png"),
           shot.2)) viewports shots in
      (Fulfilled (ok (named.*1)),
       foldl (λ fs' entry, <[shot_path entry.1 := PngFile entry.2]> fs') fs named)
  end.

(** [validateAccessibility(url)] *)
Definition validateAccessibility (url : string)
    : Settled (ToolResult AccessibilityData) :=
  match scan url with
  | ScanNoContext reason => RejectedWith reason
  | ScanFails reason => Fulfilled (failed reason)
  | ScanDone problems =>
      Fulfilled (ok (mkAccessibility (bool_decide (length problems = 0%nat)) problems))
  end.
End playwright.

End Playwright.

(** ** The workflow service ([services/workflow.ts]) *)

Module Workflow.
Import JsString JsNumber.

Open Scope string_scope.

(** [interface WorkflowContext] *)
Record WorkflowContext := mkContext {
  figmaFileId : string;
  frameId : string;
  componentName : string;
  outputPath : string;
  githubBranch : string;
  testResults : option (list Playwright.TestResult);
}.

(** The fields of [FigmaFrame] that the generator reads. *)
Record FigmaFrame := mkFrame {
  frame_name : string;
  frame_width : float;
  frame_height : float;
  backgroundColor : string;
}.

(** [GeneratedComponent], with the stylesheet the generator adds. *)
Record GeneratedComponent := mkComponent {
  gc_name : string;
  filePath : string;
  content : string;
  cssContent : string;
  framework : string;
  dependencies : list string;
}.

Record SavedFile := mkSaved {
  relativePath : string;
  saved_content : string;
  fullPath : string;
}.

(** The data of a successful design-to-code run. *)
Record DesignToCodeData := mkDesignToCode {
  component : GeneratedComponent;
  designTokens : FigmaTokens.DesignTokens;
  branch : string;
  commitSha : nat;
  d2c_duration : Z;
}.

(** The data of a visual testing run; [None] is [null]. *)
Record VisualTestingData := mkVisualTesting {
  visualTest : option Playwright.TestResult;
  responsiveTest : option (list Playwright.ResponsiveShot);
  accessibilityTest : option Playwright.AccessibilityData;
  figmaImages : option (list (string * string));
  vt_duration : Z;
}.

(** [handleError(message, result)] *)
Definition handleError {A D} (message : string) (result : Settled (ToolResult A))
    : ToolResult D :=
  let err :=
    match result with
    | RejectedWith reason => reason
    | Fulfilled value =>
        match error value with
        | Some (String c e) => String c e
        | _ => "Unknown error"
        end
    end in
  failed (message ++ ": " ++ err).

(** [result.status === "rejected" || !result.value.success] *)
Definition not_succeeded {A} (result : Settled (ToolResult A)) : bool :=
  match result with
  | RejectedWith _ => true
  | Fulfilled value => negb (success value)
  end.

(** [result.status === "fulfilled" && result.value.success] *)
Definition succeeded {A} (result : Settled (ToolResult A)) : bool :=
  match result with
  | RejectedWith _ => false
  | Fulfilled value => success value
  end.

(** [result.status === "fulfilled" ? result.value.data : null] *)
Definition data_or_null {A} (result : Settled (ToolResult A)) : option A :=
  match result with
  | RejectedWith _ => None
  | Fulfilled value => data value
  end.

Section workflow.
(** The failures of the source-hosting service, [path.join], and the two
    templates of the generator, which take the component name, the
    frame, and the styling values drawn from the tokens. *)
Variable fault : nat → option string.
Variable join : string → string → string.
Variable component_template :
  string → FigmaFrame → string → string → float → float → string.
Variable css_template : string → float → string.

(** [x || fallback] on numbers: zero and NaN are falsy. *)
Definition number_or (x : option float) (fallback : float) : float :=
  match x with
  | Some v => if (v =? 0)%float || negb (v =? v)%float then fallback else v
  | None => fallback
  end.

(** [generateReactComponent(frame, designTokens, componentName)] *)
Definition generateReactComponent (frame : FigmaFrame)
    (tokens : FigmaTokens.DesignTokens) (componentName : string) : GeneratedComponent :=
  let backgroundColor :=
    match FigmaTokens.colors tokens with
    | String c s :: _ => String c s
    | _ => if nonempty (backgroundColor frame) then backgroundColor frame else "#ffffff"
    end in
  let primaryFont :=
    match FigmaTokens.fonts tokens with
    | String c s :: _ => String c s
    | _ => "Inter, sans-serif"
    end in
  let borderRadius := number_or (head (FigmaTokens.borderRadius tokens)) 8 in
  let spacing :=
    number_or
      (head (filter (λ s, (0 <? s)%float && (s <? 100)%float = true)
               (FigmaTokens.spacing tokens))) 16 in
  mkComponent componentName ("src/components/" ++ componentName)
    (component_template componentName frame backgroundColor primaryFont
       borderRadius spacing)
    (css_template componentName spacing)
    "react" ["react"; "@types/react"].

(** [saveComponentFiles(component, outputPath)], on the local files: the
    error it throws, at the directory or at a file that cannot be
    written, or the files it hands on; what was written before an error
    stays written. *)
Definition saveComponentFiles (component : GeneratedComponent) (outputPath : string)
    (fs : gmap string Playwright.File)
    : (string + list SavedFile) * gmap string Playwright.File :=
  let componentDir := join outputPath (gc_name component) in
  match Playwright.make_dir componentDir fs with
  | Some reason => (inl reason, fs)
  | None =>
      let componentFile := join componentDir (gc_name component ++ ".tsx") in
      let main :=
        mkSaved (filePath component ++ "/" ++ gc_name component ++ ".tsx")
          (content component) componentFile in
      match
        Playwright.write_file componentFile
          (Playwright.OtherFile (content component)) fs
      with
      | inl reason => (inl reason, fs)
      | inr fs1 =>
          let cssFile := join componentDir (gc_name component ++ ".css") in
          match
            (if nonempty (cssContent component) then
               match
                 Playwright.write_file cssFile
                   (Playwright.OtherFile (cssContent component)) fs1
               with
               | inl reason => inl reason
               | inr fs2 =>
                   inr ([mkSaved (filePath component ++ "/" ++ gc_name component ++ ".css")
                           (cssContent component) cssFile], fs2)
               end
             else inr ([], fs1))
          with
          | inl reason => (inl reason, fs1)
          | inr (css, fs2) =>
              let indexContent :=
                "export { default } from './" ++ gc_name component ++ "';" ++ nl ++
                "export * from './" ++ gc_name component ++ "';" in
              let indexFile := join componentDir "index.ts" in
              match
                Playwright.write_file indexFile (Playwright.OtherFile indexContent) fs2
              with
              | inl reason => (inl reason, fs2)
              | inr fs3 =>
                  (inr (main :: css
                          ++ [mkSaved (filePath component ++ "/index.ts")
                                indexContent indexFile])%list,
                   fs3)
              end
          end
      end
  end.

(** [executeDesignToCodeWorkflow(context)]. [frameResult] and
    [tokensResult] are the settled results of the two calls on the
    design-file adapter; the branch is created on [repo] at the same
    time. *)
Definition executeDesignToCodeWorkflow (context : WorkflowContext)
    (frameResult : Settled (ToolResult FigmaFrame))
    (tokensResult : Settled (ToolResult FigmaTokens.DesignTokens))
    (startTime endTime : Z)
    (repo : GitHub.Repo) (fs : gmap string Playwright.File)
    : ToolResult DesignToCodeData * GitHub.Repo * gmap string Playwright.File :=
  let '(branchValue, repo1) :=
    GitHub.createBranch fault (githubBranch context) "main" repo in
  let branchResult := Fulfilled branchValue in
  if not_succeeded frameResult
  then (handleError "Failed to fetch Figma frame" frameResult, repo1, fs)
  else if not_succeeded tokensResult
  then (handleError "Failed to analyze design tokens" tokensResult, repo1, fs)
  else if not_succeeded branchResult
  then (handleError "Failed to create GitHub branch" branchResult, repo1, fs)
  else
    match data_or_null frameResult, data_or_null tokensResult with
    | Some frame, Some tokens =>
        let component := generateReactComponent frame tokens (componentName context) in
        match saveComponentFiles component (outputPath context) fs with
        | (inl reason, fs1) => (failed reason, repo1, fs1)
        | (inr files, fs1) =>
            let '(commitResult, repo2) :=
              GitHub.createCommit fault (githubBranch context)
                ((λ file, GitHub.mkFile (relativePath file) (saved_content file)) <$> files)
                ("feat: Add " ++ componentName context ++ " component from Figma design"
                 ++ nl ++ nl ++ "Generated from Figma frame: " ++ frame_name frame
                 ++ nl ++ "Frame ID: " ++ frameId context) repo1 in
            if negb (success commitResult)
            then (recast (λ _, None) commitResult, repo2, fs1)
            else
              match data commitResult with
              | Some commit =>
                  (ok (mkDesignToCode component tokens (githubBranch context)
                         (GitHub.commitSha commit) (endTime - startTime)), repo2, fs1)
              | None =>
                  (failed "Cannot read properties of undefined", repo2, fs1)
              end
        end
    | _, _ => (failed "Cannot read properties of undefined", repo1, fs)
    end.

Section visual.
Variable pixelmatch : list Z → list Z → Z → Z → float → Z * list Z.
Variable shoot : string → option string → Playwright.Shot.
Variable respond : string → list Playwright.Viewport → Playwright.Responsive.
Variable scan : string → Playwright.Scan.

(** The three viewports of the responsive capture. *)
Definition viewports : list Playwright.Viewport :=
  [Playwright.mkViewport 320 568 "mobile";
   Playwright.mkViewport 768 1024 "tablet";
   Playwright.mkViewport 1440 900 "desktop"].

(** [executeVisualTestingWorkflow(context, componentUrl)]. The four
    operations run at the same time; their effects on the local files are
    taken in the order of the array. [imagesResult] is the settled result
    of the image fetch of the design-file adapter. *)
Definition executeVisualTestingWorkflow (context : WorkflowContext)
    (componentUrl : string)
    (imagesResult : Settled (ToolResult (list (string * string))))
    (startTime endTime : Z) (fs : gmap string Playwright.File)
    : ToolResult VisualTestingData * WorkflowContext * gmap string Playwright.File :=
  let '(visualValue, fs1) :=
    Playwright.runVisualTest pixelmatch join shoot
      (componentName context ++ "-visual-test") componentUrl None
      (join (outputPath context) "visual-tests") startTime endTime fs in
  let visualResult := Fulfilled visualValue in
  let '(responsiveResult, fs2) :=
    Playwright.testResponsiveDesign respond componentUrl viewports fs1 in
  let accessibilityResult := Playwright.validateAccessibility scan componentUrl in
  let visualEntries :=
    if succeeded visualResult then option_list (data visualValue) else [] in
  let responsiveEntries :=
    if succeeded responsiveResult
    then [Playwright.mkTestResult "responsive-design-test" true None None 0]
    else [] in
  let accessibilityEntries :=
    if succeeded accessibilityResult then
      match data_or_null accessibilityResult with
      | Some d =>
          Some [Playwright.mkTestResult "accessibility-test" (Playwright.a11y_passed d)
                  (match Playwright.issues d with
                   | [] => None
                   | _ => Some (join_with ", " (Playwright.issues d))
                   end) None 0]
      | None => None
      end
    else Some [] in
  match accessibilityEntries with
  | None => (failed "Cannot read properties of undefined", context, fs2)
  | Some accessibilityEntries =>
      let results := (visualEntries ++ responsiveEntries ++ accessibilityEntries)%list in
      (ok (mkVisualTesting (data_or_null visualResult)
             (data_or_null responsiveResult) (data_or_null accessibilityResult)
             (data_or_null imagesResult) (endTime - startTime)),
       mkContext (figmaFileId context) (frameId context) (componentName context)
         (outputPath context) (githubBranch context) (Some results),
       fs2)
  end.
End visual.
End workflow.

End Workflow.

(** ** The Figma adapter ([integrations/figma.ts]) *)

Module Figma.
Import JsString JsNumber Cache.

Open Scope string_scope.

(** [absoluteBoundingBox] *)
Record Rect := mkRect {
  rect_x : float;
  rect_y : float;
  rect_width : float;
  rect_height : float;
}.

Record Effect := mkEffect {
  effect_type : string;
  visible : bool;
  radius : option float;
  effect_color : option FigmaTokens.Color;
}.

(** A node of the document of a file response, as far as the adapter
    reads it; [None] is an absent property. *)
#[warnings="-register-all"]
Inductive DocNode := mkDoc {
  node_id : string;
  node_name : string;
  node_type : string;
  box : option Rect;
  node_fills : option (list FigmaTokens.Fill);
  node_strokes : option (list FigmaTokens.Fill);
  node_effects : option (list Effect);
  node_cornerRadius : option float;
  node_fontFamily : option string;
  node_children : option (list DocNode);
}.

(** [interface FigmaNode] *)
#[warnings="-register-all"]
Inductive FigmaNode := mkFigmaNode {
  fn_id : string;
  fn_name : string;
  fn_type : string;
  fn_width : float;
  fn_height : float;
  fn_x : float;
  fn_y : float;
  fn_fills : option (list FigmaTokens.Fill);
  fn_strokes : option (list FigmaTokens.Fill);
  fn_effects : option (list Effect);
  fn_cornerRadius : option float;
  fn_children : option (list FigmaNode);
}.

(** [interface FigmaDesign] *)
Record FigmaDesign := mkDesign {
  design_id : string;
  design_name : string;
  design_lastModified : string;
  design_thumbnailUrl : string;
  design_version : string;
}.

(** [interface FigmaFrame] as [getFrame] fills it. *)
Record Frame := mkFigmaFrame {
  frame_id : string;
  frame_name : string;
  frame_width : float;
  frame_height : float;
  frame_x : float;
  frame_y : float;
  frame_backgroundColor : string;
  frame_children : list FigmaNode;
}.

(** The body of the response to [GET /files/<id>]. *)
Record FileData := mkFileData {
  file_name : string;
  lastModified : string;
  thumbnailUrl : option string;
  version : string;
  document : DocNode;
}.

(** What the response cache holds ([CacheEntry<any>]): the body of a file
    response, stored by the response interceptor, design tokens, or
    components. *)
Inductive Payload :=
  | File (fileData : FileData)
  | Tokens (designTokens : FigmaTokens.DesignTokens)
  | Components (components : list FigmaNode).

(** The data of a successful [getFile]: the pair it builds from a
    response, or what it found in the cache. *)
Inductive FileResult :=
  | Fresh (design : FigmaDesign) (doc : DocNode)
  | FromCache (cached : Payload).

(** [fileResult.data.document]; [None] is [undefined]. *)
Definition document_of (r : FileResult) : option DocNode :=
  match r with
  | Fresh _ doc => Some doc
  | FromCache (File fileData) => Some (document fileData)
  | FromCache _ => None
  end.

(** The adapter: its response cache, and the number of requests it has
    sent. *)
Record Adapter := mkAdapter {
  cache : gmap string (CacheEntry Payload);
  sent : nat;
}.

(** The loop [for (const child of children) { ...; if (found) return found }]. *)
Fixpoint first_some {A B} (f : A → option B) (l : list A) : option B :=
  match l with
  | [] => None
  | x :: l' =>
      match f x with
      | Some y => Some y
      | None => first_some f l'
      end
  end.

(** [findNodeById(node, id)]; [None] is [null]. *)
Fixpoint findNodeById (node : DocNode) (id : string) : option DocNode :=
  if String.eqb (node_id node) id then Some node
  else
    match node_children node with
    | Some cs => first_some (λ child, findNodeById child id) cs
    | None => None
    end.

(** [convertToFigmaNode(node)] *)
Fixpoint convertToFigmaNode (node : DocNode) : FigmaNode :=
  mkFigmaNode (node_id node) (node_name node) (node_type node)
    (Workflow.number_or (rect_width <$> box node) 0)
    (Workflow.number_or (rect_height <$> box node) 0)
    (Workflow.number_or (rect_x <$> box node) 0)
    (Workflow.number_or (rect_y <$> box node) 0)
    (node_fills node) (node_strokes node) (node_effects node)
    (node_cornerRadius node)
    match node_children node with
    | Some cs => Some (map convertToFigmaNode cs)
    | None => None
    end.

Definition doc_children (node : DocNode) : list DocNode :=
  default [] (node_children node).

Fixpoint doc_count (node : DocNode) : nat :=
  S match node_children node with
    | Some cs => list_sum (map doc_count cs)
    | None => 0
    end.

Definition is_component (node : DocNode) : bool :=
  String.eqb (node_type node) "COMPONENT"
  || String.eqb (node_type node) "COMPONENT_SET".

(** The loop of [findComponentsOptimized]; the head of [stack] is the
    last element of the array. [None]: out of fuel. *)
Fixpoint components_loop (fuel : nat) (stack : list DocNode)
    (components : list FigmaNode) : option (list FigmaNode) :=
  match stack with
  | [] => Some components
  | node :: rest =>
      match fuel with
      | O => None
      | S fuel' =>
          components_loop fuel' (rev (doc_children node) ++ rest)
            (if is_component node
             then (components ++ [convertToFigmaNode node])%list
             else components)
      end
  end.

(** [findComponentsOptimized(document)] *)
Definition findComponentsOptimized (document : DocNode) : option (list FigmaNode) :=
  components_loop (doc_count document) [document] [].

(** The part of a node that the token extraction reads. *)
Fixpoint token_view (node : DocNode) : FigmaTokens.Node :=
  FigmaTokens.mkNode (node_fills node) (node_fontFamily node)
    ((λ b, FigmaTokens.mkBox (rect_width b) (rect_height b)) <$> box node)
    (node_cornerRadius node)
    match node_children node with
    | Some cs => map token_view cs
    | None => []
    end.

Section adapter.
(** [files n url]: the outcome of request number [n], a [GET] of [url]
    under [/files/]: the message of the error, or the body of the
    response. *)
Variable files : nat → string → string + FileData.
Variable number_to_string : float → string.
(** The message of the [TypeError] for reading the given property of
    [undefined]. *)
Variable type_error : string → string.
Notation "# x" := (number_to_string x) (at level 9, format "# x").

(** [extractBackgroundColor(node)] *)
Definition extractBackgroundColor (node : DocNode) : string :=
  match node_fills node with
  | Some fs =>
      match List.find (λ fill, String.eqb (FigmaTokens.fill_type fill) "SOLID") fs with
      | Some solidFill =>
          match FigmaTokens.color solidFill with
          | Some c =>
              "rgba(" ++ #(Math_round (FigmaTokens.r c * 255)) ++ ", "
              ++ #(Math_round (FigmaTokens.g c * 255)) ++ ", "
              ++ #(Math_round (FigmaTokens.b c * 255)) ++ ", "
              ++ #(default 1%float (FigmaTokens.a c)) ++ ")"
          | None => "#ffffff"
          end
      | None => "#ffffff"
      end
  | None => "#ffffff"
  end.

(** [this.api.get(url)] with the response interceptor, which stores the
    body of a successful response under its URL; [now] is the value of
    [Date.now()] in the interceptor. *)
Definition api_get (now : Z) (url : string) (st : Adapter)
    : (string + FileData) * Adapter :=
  match files (sent st) url with
  | inr fileData =>
      (inr fileData,
       mkAdapter (setCache now url (File fileData) cacheTTL (cache st)) (S (sent st)))
  | inl msg => (inl msg, mkAdapter (cache st) (S (sent st)))
  end.

(** [getFile(fileId)]; [now_read] is the time of the cache lookup and
    [now_store] that of the arrival of the response. *)
Definition getFile (now_read now_store : Z) (fileId : string) (st : Adapter)
    : ToolResult FileResult * Adapter :=
  let cacheKey := "/files/" ++ fileId in
  let (cached, cache1) := getCache now_read cacheKey (cache st) in
  let st1 := mkAdapter cache1 (sent st) in
  match cached with
  | Some payload => (ok (FromCache payload), st1)
  | None =>
      match api_get now_store cacheKey st1 with
      | (inr fileData, st2) =>
          (ok (Fresh (mkDesign fileId (file_name fileData) (lastModified fileData)
                        (match thumbnailUrl fileData with
                         | Some (String c u) => String c u
                         | _ => ""
                         end)
                        (version fileData))
                 (document fileData)), st2)
      | (inl msg, st2) => (failed msg, st2)
      end
  end.

(** [getFrame(fileId, nodeId)] *)
Definition getFrame (now_read now_store : Z) (fileId nodeId : string) (st : Adapter)
    : ToolResult Frame * Adapter :=
  let (fileResult, st1) := getFile now_read now_store fileId st in
  if negb (success fileResult) then (recast (λ _, None) fileResult, st1)
  else
    match data fileResult ≫= document_of with
    | None => (failed (type_error "id"), st1)
    | Some doc =>
        match findNodeById doc nodeId with
        | None => (failed ("Frame with ID " ++ nodeId ++ " not found"), st1)
        | Some frameNode =>
            (ok (mkFigmaFrame (node_id frameNode) (node_name frameNode)
                   (Workflow.number_or (rect_width <$> box frameNode) 0)
                   (Workflow.number_or (rect_height <$> box frameNode) 0)
                   (Workflow.number_or (rect_x <$> box frameNode) 0)
                   (Workflow.number_or (rect_y <$> box frameNode) 0)
                   (extractBackgroundColor frameNode)
                   (map convertToFigmaNode (doc_children frameNode))),
             st1)
        end
    end.

(** [analyzeDesignTokens(fileId)]; the four times are those of the
    lookup of the tokens, of [getFile], and of the storing of the
    tokens. The extraction ends within its fuel for every document, as
    does the search for components below: the branch of an exhausted
    fuel is there for the type only. *)
Definition analyzeDesignTokens (now_read file_read file_store now_store : Z)
    (fileId : string) (st : Adapter) : ToolResult Payload * Adapter :=
  let cacheKey := "tokens:" ++ fileId in
  let (cached, cache1) := getCache now_read cacheKey (cache st) in
  let st1 := mkAdapter cache1 (sent st) in
  match cached with
  | Some payload => (ok payload, st1)
  | None =>
      let (fileResult, st2) := getFile file_read file_store fileId st1 in
      if negb (success fileResult) then (recast (λ _, None) fileResult, st2)
      else
        match data fileResult ≫= document_of with
        | None => (failed (type_error "fills"), st2)
        | Some doc =>
            match FigmaTokens.extractDesignTokensOptimized number_to_string
                    (token_view doc) with
            | None => (failed "out of fuel", st2)
            | Some designTokens =>
                (ok (Tokens designTokens),
                 mkAdapter (setCache now_store cacheKey (Tokens designTokens)
                              (cacheTTL * 2) (cache st2)) (sent st2))
            end
        end
  end.

(** [extractComponents(fileId)] *)
Definition extractComponents (now_read file_read file_store now_store : Z)
    (fileId : string) (st : Adapter) : ToolResult Payload * Adapter :=
  let cacheKey := "components:" ++ fileId in
  let (cached, cache1) := getCache now_read cacheKey (cache st) in
  let st1 := mkAdapter cache1 (sent st) in
  match cached with
  | Some payload => (ok payload, st1)
  | None =>
      let (fileResult, st2) := getFile file_read file_store fileId st1 in
      if negb (success fileResult) then (recast (λ _, None) fileResult, st2)
      else
        match data fileResult ≫= document_of with
        | None => (failed (type_error "type"), st2)
        | Some doc =>
            match findComponentsOptimized doc with
            | None => (failed "out of fuel", st2)
            | Some components =>
                (ok (Components components),
                 mkAdapter (setCache now_store cacheKey (Components components)
                              (cacheTTL * 2) (cache st2)) (sent st2))
            end
        end
  end.

End adapter.

End Figma.

(** ** The tool handlers of the server ([index.ts]) *)

Module Server.
Import JsString FigmaUrlParser Figma.

Open Scope string_scope.

(** [parseFigmaInput(figmaInput)]: the file id and, if one is found and
    is not empty, the node id; [None] is the [McpError] it throws when
    [extractFileId] throws. *)
Definition parseFigmaInput (figmaInput : string) : option (string * option string) :=
  fileId ← extractFileId figmaInput;
  Some (fileId,
        match extractNodeId figmaInput with
        | Some (String c n) => Some (String c n)
        | _ => None
        end).

(** [result.success ? result.data : { error: result.error }] *)
Definition data_or_error {D} (result : ToolResult D) : option string + option D :=
  if success result then inr (data result) else inl (error result).

(** The object [handleAnalyzeFigmaDesign] serialises. *)
Record Analysis := mkAnalysis {
  analysis_file : option string + option FileResult;
  analysis_designTokens : option string + option Payload;
  analysis_components : option string + option Payload;
}.

Section server.
Variable files : nat → string → string + FileData.
Variable number_to_string : float → string.
Variable type_error : string → string.

(** [handleAnalyzeFigmaDesign(args)], up to the serialisation of the
    analysis; [None] is the error of [parseFigmaInput]. The times are
    those that the three calls of the adapter take. *)
Definition handleAnalyzeFigmaDesign (figmaInput : string)
    (file_at : Z * Z) (tokens_at components_at : Z * Z * Z * Z) (st : Adapter)
    : option Analysis * Adapter :=
  match parseFigmaInput figmaInput with
  | None => (None, st)
  | Some (fileId, _) =>
      let (fileResult, st1) := getFile files file_at.1 file_at.2 fileId st in
      let '(t1, t2, t3, t4) := tokens_at in
      let (tokensResult, st2) :=
        analyzeDesignTokens files number_to_string type_error t1 t2 t3 t4 fileId st1 in
      let '(c1, c2, c3, c4) := components_at in
      let (componentsResult, st3) :=
        extractComponents files type_error c1 c2 c3 c4 fileId st2 in
      (Some (mkAnalysis (data_or_error fileResult) (data_or_error tokensResult)
               (data_or_error componentsResult)), st3)
  end.

End server.

End Server.

(** * Properties *)

Module CacheProps.
Import Cache.

Section cache.
Context {T : Type}.
Implicit Types (cache : gmap string (CacheEntry T)) (k : string) (v : T).

Lemma getCache_unseen now k cache :
  cache !! k = None → getCache now k cache = (None, cache).
Proof. intros H. unfold getCache. by rewrite H. Qed.

Lemma getCache_set_live t0 now k v ttl_ms cache :
  now - t0 ≤ ttl_ms →
  getCache now k (setCache t0 k v ttl_ms cache)
  = (Some v, setCache t0 k v ttl_ms cache).
Proof.
  intros Hlive. unfold getCache, setCache.
  rewrite lookup_insert_eq. cbn.
  destruct (Z.ltb_spec ttl_ms (now - t0)); [lia | done].
Qed.

Lemma getCache_set_expired t0 now k v ttl_ms cache :
  ttl_ms < now - t0 →
  getCache now k (setCache t0 k v ttl_ms cache) = (None, delete k cache).
Proof.
  intros Hexp. unfold getCache, setCache.
  rewrite lookup_insert_eq. cbn.
  destruct (Z.ltb_spec ttl_ms (now - t0)); [| lia].
  by rewrite delete_insert_eq.
Qed.

(** Reads and writes of other keys leave the entry of [k] alone. *)
Lemma getCache_other now k k' cache :
  k ≠ k' → (getCache now k' cache).2 !! k = cache !! k.
Proof.
  intros Hne. unfold getCache.
  destruct (cache !! k') as [e|]; [| done].
  destruct (ttl e <? now - timestamp e); [| done].
  cbn. by rewrite lookup_delete_ne.
Qed.

Lemma setCache_other now k k' v ttl_ms cache :
  k ≠ k' → setCache now k' v ttl_ms cache !! k = cache !! k.
Proof. intros Hne. unfold setCache. by rewrite lookup_insert_ne. Qed.

End cache.

(** C6. A [get] of key [k] made while the time elapsed since
    [set(k, v, ttl)] is within the ttl returns [v]; a [get] made after the
    ttl has elapsed returns absent, exactly as a [get] of a key that was
    never set does, and leaves the key unset. *)
Theorem cache_get_after_set {T} (cache : gmap string (CacheEntry T))
    (k : string) (v : T) (ttl_ms t0 now : Z) :
  (now - t0 ≤ ttl_ms →
     (getCache now k (setCache t0 k v ttl_ms cache)).1 = Some v) ∧
  (ttl_ms < now - t0 →
     (getCache now k (setCache t0 k v ttl_ms cache)).1 = None ∧
     (getCache now k (setCache t0 k v ttl_ms cache)).1
       = (getCache now k (delete k cache)).1 ∧
     (getCache now k (setCache t0 k v ttl_ms cache)).2 !! k = None).
Proof.
  split; intros H.
  - by rewrite getCache_set_live.
  - rewrite getCache_set_expired by done.
    rewrite getCache_unseen by apply lookup_delete_eq.
    cbn. split_and!; [done | done | apply lookup_delete_eq].
Qed.

Lemma cache_get_after_set_witness :
  (getCache 1300 "/files/abc" (setCache 1000 "/files/abc" 7%nat 300 ∅)).1 = Some 7%nat ∧
  (getCache 1301 "/files/abc" (setCache 1000 "/files/abc" 7%nat 300 ∅)).1 = None.
Proof.
  split.
  - apply (cache_get_after_set ∅ "/files/abc" 7%nat 300 1000 1300). lia.
  - apply (cache_get_after_set ∅ "/files/abc" 7%nat 300 1000 1301). lia.
Defined.

End CacheProps.

(** ** The Figma URL helper *)

Module FigmaUrlProps.
Import JsString FigmaUrlParser.

Open Scope string_scope.

(** The unit tests of [tests/units/figma-parser.test.ts] hold of the
    model. *)
Example parse_with_node :
  parseFigmaUrl "https://www.figma.com/file/abc123def456/My-Design?node-id=1%3A2"
  = Some (mkUrlInfo "abc123def456" (Some "1:2") (Some "My Design")).
Proof. reflexivity. Qed.

Example parse_without_www :
  parseFigmaUrl "https://figma.com/file/abc123def456/Test"
  = Some (mkUrlInfo "abc123def456" None (Some "Test")).
Proof. reflexivity. Qed.

Example parse_invalid : parseFigmaUrl "https://example.com/not-figma" = None.
Proof. reflexivity. Qed.

Example extract_from_url :
  extractNodeId "https://www.figma.com/file/abc123/test?node-id=1%3A2" = Some "1:2".
Proof. reflexivity. Qed.

Example extract_dash : extractNodeId "1-2" = Some "1:2".
Proof. reflexivity. Qed.

Example extract_none : extractNodeId "just-text" = None.
Proof. reflexivity. Qed.

Example create_with_node :
  createFigmaUrl "abc123" (Some "1:2") (Some "Test Design")
  = "https://www.figma.com/file/abc123/Test Design?node-id=1%3A2".
Proof. reflexivity. Qed.

(** Characters of a node id: a digit or a colon; of a bare node id as
    [extractNodeId] accepts it: a dash as well. *)
Definition id_char (c : ascii) : bool := is_digit c || Ascii.eqb c ":".
Definition bare_char (c : ascii) : bool := id_char c || Ascii.eqb c "-".

Fixpoint all_chars (p : ascii → bool) (s : string) : bool :=
  match s with
  | "" => true
  | String c s' => p c && all_chars p s'
  end.

Ltac ascii_cases c :=
  destruct c as [[] [] [] [] [] [] [] []]; vm_compute in *;
  try discriminate; try reflexivity.

Lemma digit_unreserved c : is_digit c = true → unreserved c = true.
Proof. intros H. ascii_cases c. Qed.

Lemma digit_not_percent c : is_digit c = true → Ascii.eqb c "%" = false.
Proof. intros H. ascii_cases c. Qed.

Lemma bare_char_not_n c : bare_char c = true → Ascii.eqb "n" c = false.
Proof. intros H. ascii_cases c. Qed.

Lemma id_char_cases c :
  id_char c = true → is_digit c = true ∨ c = ":"%char.
Proof.
  unfold id_char. intros [H | H]%orb_prop; [by left | right].
  by apply Ascii.eqb_eq in H.
Qed.

Lemma all_digits_all_chars p s :
  (∀ c, is_digit c = true → p c = true) →
  all_digits s = true → all_chars p s = true.
Proof.
  intros Hp. induction s as [|c s IH]; [done |]. cbn.
  intros [Hc Hs]%andb_prop. rewrite (Hp c Hc). by apply IH.
Qed.

(** A string that matches [\d+ sep \d+] is made of digits and [sep]. *)
Lemma skip_digits_all_chars p s sep rest :
  (∀ c, is_digit c = true → p c = true) →
  skip_digits s = String sep rest → p sep = true → all_digits rest = true →
  all_chars p s = true.
Proof.
  intros Hp. induction s as [|c s IH]; [done |]. cbn.
  destruct (is_digit c) eqn:Hc.
  - intros Hs Hsep Hrest. rewrite (Hp c Hc). by apply IH.
  - intros [= -> ->] Hsep Hrest. rewrite Hsep. by apply all_digits_all_chars.
Qed.

Lemma valid_node_id_chars n : isValidNodeId n = true → all_chars id_char n = true.
Proof.
  unfold isValidNodeId. destruct n as [|c n]; [done |].
  intros [_ H]%andb_prop.
  destruct (skip_digits (String c n)) as [|sep rest] eqn:Hskip; [done |].
  apply andb_prop in H as [[Hsep _]%andb_prop Hrest].
  apply (skip_digits_all_chars id_char _ sep rest); try done.
  - intros d Hd. unfold id_char. by rewrite Hd.
  - unfold id_char. by rewrite Hsep, orb_true_r.
Qed.

Lemma bare_node_id_chars s : looks_like_node_id s = true → all_chars bare_char s = true.
Proof.
  unfold looks_like_node_id. destruct s as [|c s]; [done |].
  intros [_ H]%andb_prop.
  destruct (skip_digits (String c s)) as [|sep rest] eqn:Hskip; [done |].
  apply andb_prop in H as [[Hsep _]%andb_prop Hrest].
  apply (skip_digits_all_chars bare_char _ sep rest); try done.
  - intros d Hd. unfold bare_char, id_char. by rewrite Hd.
  - unfold bare_char, id_char.
    apply orb_prop in Hsep as [-> | ->]; by rewrite ?orb_true_r.
Qed.

(** Such a string holds no [node-id=] parameter. *)
Lemma bare_chars_no_param s : all_chars bare_char s = true → node_regex_match s = None.
Proof.
  induction s as [|c s IH]; [done |].
  cbn [all_chars]. intros [Hc Hs]%andb_prop.
  cbn [node_regex_match]. unfold node_param_here. cbn [strip_prefix].
  rewrite (bare_char_not_n c Hc). by apply IH.
Qed.

Lemma param_not_bare s cap : node_regex_match s = Some cap → looks_like_node_id s = false.
Proof.
  intros Hm. destruct (looks_like_node_id s) eqn:Hl; [| done].
  apply bare_node_id_chars, bare_chars_no_param in Hl. congruence.
Qed.

(** Decoding undoes the encoding of a node id. *)
Lemma decode_encode_id s :
  all_chars id_char s = true → decodeURIComponent (encodeURIComponent s) = Some s.
Proof.
  unfold decodeURIComponent.
  induction s as [|c s IH]; [done |].
  cbn [all_chars]. intros [Hc Hs]%andb_prop.
  apply id_char_cases in Hc as [Hd | ->].
  - cbn [encodeURIComponent]. rewrite (digit_unreserved c Hd).
    cbn [decode_from]. rewrite (digit_not_percent c Hd), (IH Hs). done.
  - change (encodeURIComponent (String ":" s))
      with (String "%" (String "3" (String "A" (encodeURIComponent s)))).
    cbn [decode_from]. change (Ascii.eqb "%" "%") with true. cbn match.
    change (hex_value "3") with (Some 3%N). change (hex_value "A") with (Some 10%N).
    cbn match. change (utf8_step Outside (16 * 3 + 10)) with (Some Outside).
    cbn match. by rewrite (IH Hs).
Qed.

Lemma replace_3A_id s : all_chars id_char s = true → replace_all_3A s = s.
Proof.
  induction s as [|c s IH]; [done |].
  cbn [all_chars]. intros [Hc Hs]%andb_prop.
  assert (Ascii.eqb c "%" = false) as Hp.
  { apply id_char_cases in Hc as [Hd | ->]; [by apply digit_not_percent | done]. }
  cbn [replace_all_3A]. rewrite Hp, (IH Hs). cbn.
  by destruct s as [|? [|? ?]].
Qed.

Lemma decodeNodeId_encode n :
  isValidNodeId n = true → decodeNodeId (encodeURIComponent n) = n.
Proof.
  intros Hn%valid_node_id_chars. unfold decodeNodeId.
  by rewrite decode_encode_id, replace_3A_id.
Qed.

(** C7, as it fails: a locator that [parseFigmaUrl] accepts, with file id
    [abc123def456] and the node id [1:2] encoded as [1%3a2]. The node id
    is extracted as [1:2], and re-encoding it into a URL gives [1%3A2],
    which is not the encoded node id the locator had. *)
Lemma node_id_round_trip_lowercase_hex :
  let url := "https://www.figma.com/file/abc123def456/My-Design?node-id=1%3a2" in
  parseFigmaUrl url = Some (mkUrlInfo "abc123def456" (Some "1:2") (Some "My Design")) ∧
  node_regex_match url = Some "1%3a2" ∧
  extractNodeId url = Some "1:2" ∧
  node_regex_match (createFigmaUrl "abc123def456" (Some "1:2") (Some "My-Design"))
    = Some "1%3A2" ∧
  ¬ (∀ enc n, node_regex_match url = Some enc → extractNodeId url = Some n →
       encodeURIComponent n = enc).
Proof.
  cbv zeta. split_and!; try reflexivity.
  intros H. specialize (H "1%3a2" "1:2" eq_refl eq_refl). discriminate H.
Qed.

(** C7, amended. When the node-id parameter of a locator is the encoding
    that [encodeURIComponent] gives a valid node id, [extractNodeId]
    returns that node id, and [createFigmaUrl] puts the same encoded text
    back after [?node-id=]. *)
Theorem node_id_round_trip_canonical (url n : string) :
  isValidNodeId n = true →
  node_regex_match url = Some (encodeURIComponent n) →
  extractNodeId url = Some n ∧
  ∀ file name,
    createFigmaUrl file (extractNodeId url) name
    = createFigmaUrl file None name ++ "?node-id=" ++ encodeURIComponent n.
Proof.
  intros Hn Hm.
  assert (extractNodeId url = Some n) as Hx.
  { unfold extractNodeId. rewrite (param_not_bare _ _ Hm), Hm.
    by rewrite decodeNodeId_encode. }
  split; [done |]. intros file name. rewrite Hx.
  unfold createFigmaUrl. destruct n as [|c n]; [done |]. done.
Qed.

Lemma node_id_round_trip_canonical_witness :
  extractNodeId "https://www.figma.com/file/abc123def456/My-Design?node-id=12%3A345"
  = Some "12:345".
Proof.
  apply (node_id_round_trip_canonical
           "https://www.figma.com/file/abc123def456/My-Design?node-id=12%3A345" "12:345");
    reflexivity.
Defined.

End FigmaUrlProps.

(** ** Design tokens *)

Module FigmaTokensProps.
Import JsNumber FigmaTokens.

Open Scope string_scope.

Section tokens.
Variable number_to_string : float → string.

Definition stack_count (stack : list Node) : nat := list_sum (map node_count stack).

Lemma stack_count_cons n s : stack_count (n :: s) = (node_count n + stack_count s)%nat.
Proof. reflexivity. Qed.

Lemma stack_count_app s1 s2 : stack_count (s1 ++ s2) = (stack_count s1 + stack_count s2)%nat.
Proof. unfold stack_count. by rewrite map_app, list_sum_app. Qed.

Lemma stack_count_rev s : stack_count (rev s) = stack_count s.
Proof.
  induction s as [|n s IH]; [done |]. cbn [rev].
  rewrite stack_count_app, IH, !stack_count_cons.
  change (stack_count []) with 0%nat. lia.
Qed.

Lemma node_count_children node : node_count node = S (stack_count (children node)).
Proof. by destruct node. Qed.

(** The traversal ends within as many turns as the stack holds nodes,
    counting descendants. *)
Lemma process_loop_total fuel stack tc :
  (stack_count stack ≤ fuel)%nat →
  is_Some (process_loop number_to_string fuel stack tc).
Proof.
  revert stack tc. induction fuel as [|fuel IH]; intros stack tc Hfuel.
  - destruct stack as [|node stack]; [by eexists |].
    rewrite stack_count_cons, node_count_children in Hfuel. lia.
  - destruct stack as [|node stack]; [by eexists |].
    cbn [process_loop]. apply IH.
    rewrite stack_count_app, stack_count_rev.
    rewrite stack_count_cons, node_count_children in Hfuel. lia.
Qed.

(** [set] keeps the keys of a map distinct, and keeps what holds of all
    its entries when it holds of the new one. *)
Lemma set_keys {V} key (value : V) m x :
  x ∈ JsMap.keys (JsMap.set key value m) → x = key ∨ x ∈ JsMap.keys m.
Proof.
  unfold JsMap.keys. induction m as [|[k v] m IH]; cbn.
  - intros ->%list_elem_of_singleton. by left.
  - destruct (String.eqb k key) eqn:Hk; cbn; [by right |].
    intros [-> | Hx]%elem_of_cons; [right; by left |].
    destruct (IH Hx); [by left | right; by right].
Qed.

Lemma set_NoDup {V} key (value : V) m :
  NoDup (JsMap.keys m) → NoDup (JsMap.keys (JsMap.set key value m)).
Proof.
  unfold JsMap.keys. induction m as [|[k v] m IH]; cbn.
  - intros _. apply NoDup_singleton.
  - intros [Hk Hm]%NoDup_cons.
    destruct (String.eqb k key) eqn:Hkey; cbn; [by apply NoDup_cons |].
    apply NoDup_cons. split; [| by apply IH].
    intros [-> | Hin]%set_keys; [| done].
    by rewrite String.eqb_refl in Hkey.
Qed.

Lemma set_Forall {V} (P : string * V → Prop) key value m :
  P (key, value) → Forall P m → Forall P (JsMap.set key value m).
Proof.
  intros Hnew. induction 1 as [|[k v] m Hkv Hm IH]; cbn.
  - by repeat constructor.
  - destruct (String.eqb k key) eqn:Hkey.
    + apply String.eqb_eq in Hkey as ->. by constructor.
    + by constructor.
Qed.

(** The sort rearranges the list and nothing else. *)
Lemma sort_insert_perm x l : sort_insert x l ≡ₚ x :: l.
Proof.
  induction l as [|y l IH]; cbn; [done |].
  destruct (0 <? x - y)%float; [| done].
  by rewrite IH, Permutation_swap.
Qed.

Lemma sort_numbers_perm l : sort_numbers l ≡ₚ l.
Proof.
  unfold sort_numbers. induction l as [|x l IH]; cbn; [done |].
  by rewrite sort_insert_perm, IH.
Qed.

(** An entry of the spacing map: a positive number under the key of a
    width or of a height with that number. *)
Definition spacing_entry (entry : string * float) : Prop :=
  (0 <? entry.2)%float = true ∧
  (entry.1 = "w-" ++ number_to_string entry.2
   ∨ entry.1 = "h-" ++ number_to_string entry.2).

Definition spacing_invariant (tc : DesignTokenCache) : Prop :=
  NoDup (JsMap.keys (tc_spacing tc)) ∧ Forall spacing_entry (tc_spacing tc).

Lemma process_fills_spacing node tc :
  tc_spacing (process_fills number_to_string node tc) = tc_spacing tc.
Proof.
  unfold process_fills. destruct (fills node) as [fs|]; [| done].
  revert tc. induction fs as [|fill fs IH]; intros tc; [done |].
  cbn. rewrite IH. unfold process_fill.
  destruct (color fill); [| done]. by destruct (String.eqb _ _).
Qed.

Lemma set_spacing_invariant key value tc :
  spacing_entry (key, value) →
  spacing_invariant tc → spacing_invariant (set_spacing key value tc).
Proof.
  intros Hnew [Hnd Hall]. split; cbn; [by apply set_NoDup | by apply set_Forall].
Qed.

Lemma processNodeForTokens_invariant node tc :
  spacing_invariant tc →
  spacing_invariant (processNodeForTokens number_to_string node tc).
Proof.
  intros Hinv. unfold processNodeForTokens.
  assert (spacing_invariant
            (process_font node (process_fills number_to_string node tc))) as Hinv1.
  { unfold spacing_invariant, process_font in *.
    destruct (fontFamily node) as [[|c f]|]; cbn; by rewrite process_fills_spacing. }
  assert (spacing_invariant
            (process_box number_to_string node
               (process_font node (process_fills number_to_string node tc)))) as Hinv2.
  { unfold process_box. destruct (absoluteBoundingBox node) as [box|]; [| done].
    cbv zeta.
    destruct (0 <? Math_round (width box))%float eqn:Hw;
      destruct (0 <? Math_round (height box))%float eqn:Hh; try done;
      repeat (apply set_spacing_invariant; [split; cbn; [done | by auto] |]); done. }
  unfold spacing_invariant, process_radius in *.
  by destruct (cornerRadius node).
Qed.

Lemma process_loop_invariant fuel stack tc tc' :
  spacing_invariant tc →
  process_loop number_to_string fuel stack tc = Some tc' → spacing_invariant tc'.
Proof.
  revert stack tc. induction fuel as [|fuel IH]; intros [|node stack] tc Hinv; cbn;
    try done; try by intros [= <-].
  apply IH. by apply processNodeForTokens_invariant.
Qed.

(** What the spacing list is, for every document: the values of a map
    whose keys are distinct, each value positive and filed under [w-] or
    [h-] followed by the number itself. A number is listed once for the
    widths it rounds from and once for the heights. *)
Lemma spacing_keyed_by_dimension document tokens :
  extractDesignTokensOptimized number_to_string document = Some tokens →
  ∃ entries : list (string * float),
    spacing tokens ≡ₚ entries.*2 ∧ NoDup entries.*1 ∧ Forall spacing_entry entries.
Proof.
  unfold extractDesignTokensOptimized.
  destruct (process_loop number_to_string (node_count document) [document] empty_cache)
    as [tc|] eqn:Hloop; [| done].
  intros [= <-]. cbn.
  apply process_loop_invariant in Hloop as [Hnd Hall].
  - exists (tc_spacing tc). split_and!; [apply sort_numbers_perm | done | done].
  - split; cbn; constructor.
Qed.

Lemma extractDesignTokensOptimized_total document :
  is_Some (extractDesignTokensOptimized number_to_string document).
Proof.
  unfold extractDesignTokensOptimized.
  destruct (process_loop_total (node_count document) [document] empty_cache) as [tc ->].
  - rewrite stack_count_cons. change (stack_count []) with 0%nat. lia.
  - by eexists.
Qed.
End tokens.

(** The document of one node, a frame of 100 by 100 pixels. *)
Definition square_document : Node :=
  mkNode None None (Some (mkBox 100 100)) None [].

(** C8, as the code has it: the width and the height of the frame are
    recorded under the keys [w-100] and [h-100], and the spacing list
    holds the value 100 twice. *)
Theorem spacing_holds_duplicates (number_to_string : float → string) :
  extractDesignTokensOptimized number_to_string square_document
  = Some (mkTokens [] [] [100; 100]%float []) ∧
  ¬ NoDup [100; 100]%float.
Proof.
  split; [reflexivity |].
  intros H. apply NoDup_cons in H as [H _]. apply H. constructor.
Qed.

End FigmaTokensProps.

(** ** The browser context pool *)

Module PoolProps.
Import Pool.

(** Six callers on a pool that has been launched, each suspended at
    [await browser.newContext()] before any of them counts its lease. *)
Definition six_callers : list Event :=
  [Call; Call; Call; Call; Call; Call; LaunchSettles 0 None]
  ++ (Resume <$> seq 0 6) ++ (Resume <$> seq 0 6).

(** C2, as the code has it: the six calls all pass the test
    [activeContexts < maxContexts] while the counter is still 0, so six
    contexts are open and leased at once, one more than the cap. *)
Theorem six_contexts_leased :
  let '(pw, tasks) := run six_callers (fresh, []) in
  tasks = Returned <$> seq 0 6 ∧
  live pw = seq 0 6 ∧
  (activeContexts <$> browserPool pw) = Some 6 ∧
  launches pw = 1%nat ∧
  maxContexts < Z.of_nat (length (live pw)).
Proof. vm_compute. split_and!; done. Qed.

(** A lease given back is the next one handed out, and no launch is
    requested for it. *)
Lemma release_then_acquire context pool pw :
  browserPool pw = Some pool →
  let r := getContext_alone (releaseContext context pw) in
  r.1 = Some (inr context) ∧ launches r.2 = launches pw.
Proof.
  intros Hpool. unfold getContext_alone, getContext_call, initialize, releaseContext.
  rewrite Hpool. cbn. unfold getContext_body. cbn.
  unfold pop. rewrite reverse_app. cbn. done.
Qed.

(** *** Calls that do not overlap

    The states reached when every [getContext()] runs to its end before
    anything else happens, with the leases that are out. *)
Inductive sequential : Playwright → list nat → Prop :=
  | seq_fresh : sequential fresh []
  | seq_acquire pw leased context pw' :
      sequential pw leased →
      getContext_alone pw = (Some (inr context), pw') →
      sequential pw' (context :: leased)
  | seq_release pw before context after :
      sequential pw (before ++ context :: after) →
      sequential (releaseContext context pw) (before ++ after).

Lemma pop_Some {A} (l : list A) x rest : pop l = Some (x, rest) → l = rest ++ [x].
Proof.
  unfold pop. destruct (reverse l) as [|y l'] eqn:Hr; [done |].
  intros [= Hx Hrest]. subst x rest. apply (f_equal reverse) in Hr.
  by rewrite reverse_involutive, reverse_cons in Hr.
Qed.

Lemma pop_None {A} (l : list A) : pop l = None → l = [].
Proof.
  unfold pop. destruct (reverse l) eqn:Hr; [| done].
  intros _. apply (f_equal reverse) in Hr. by rewrite reverse_involutive in Hr.
Qed.

(** What holds of such a state: the open contexts are the leased and the
    idle ones, the counter is the number of leases, and the open contexts
    are at most five. *)
Definition pool_invariant (pw : Playwright) (leased : list nat) : Prop :=
  match browserPool pw with
  | None => pw = fresh ∧ leased = []
  | Some pool =>
      activeContexts pool = Z.of_nat (length leased) ∧
      live pw ≡ₚ leased ++ contexts pool ∧
      Z.of_nat (length (live pw)) ≤ maxContexts
  end.

Lemma sequential_invariant pw leased : sequential pw leased → pool_invariant pw leased.
Proof.
  induction 1 as [|pw leased context pw' _ IH Hget|pw before context after _ IH].
  - done.
  - unfold pool_invariant in IH. unfold getContext_alone in Hget.
    destruct (browserPool pw) as [pool|] eqn:Hpool.
    + destruct IH as (Hact & Hlive & Hcap).
      unfold getContext_call, initialize in Hget. rewrite Hpool in Hget.
      cbn in Hget. unfold getContext_body in Hget. rewrite Hpool in Hget.
      destruct (pop (contexts pool)) as [[c rest]|] eqn:Hpop.
      * cbn in Hget. injection Hget as <- <-.
        apply pop_Some in Hpop. unfold pool_invariant. cbn.
        rewrite Hpop in Hlive. split_and!; [lia | | done].
        rewrite Hlive. by rewrite (Permutation_app_comm rest), Permutation_middle.
      * apply pop_None in Hpop. rewrite Hpop, app_nil_r in Hlive.
        destruct (activeContexts pool <? maxContexts) eqn:Hlt.
        -- cbn in Hget. rewrite Hpool in Hget. injection Hget as <- <-.
           unfold pool_invariant. cbn. rewrite Hpop, app_nil_r.
           apply Z.ltb_lt in Hlt. apply Permutation_length in Hlive as Hlen.
           split_and!; [lia | | rewrite length_app; cbn; lia].
           by rewrite Hlive, Permutation_app_comm.
        -- cbn in Hget. rewrite Hpool, Hpop in Hget. done.
    + destruct IH as [-> ->]. vm_compute in Hget. injection Hget as <- <-.
      vm_compute. split_and!; done.
  - unfold pool_invariant in *. unfold releaseContext.
    destruct (browserPool pw) as [pool|] eqn:Hpool.
    + destruct IH as (Hact & Hlive & Hcap). cbn.
      rewrite length_app in *. cbn in Hact. split_and!; [lia | | done].
      rewrite Hlive. rewrite <- !app_assoc. apply Permutation_app_head.
      cbn. rewrite (Permutation_app_comm (contexts pool)). cbn.
      by rewrite Permutation_middle.
    + destruct IH as [_ Hnil]. by destruct before.
Qed.

(** When calls do not overlap the cap holds: at most five contexts are
    open, leased and idle together. *)
Lemma sequential_cap pw leased :
  sequential pw leased → Z.of_nat (length (live pw)) ≤ maxContexts.
Proof.
  intros H%sequential_invariant. unfold pool_invariant in H.
  destruct (browserPool pw); [by destruct H as (_ & _ & ?) |].
  destruct H as [-> _]. done.
Qed.

(** C3, as it fails: a pool is launched, used and closed; the next
    [getContext()] requests a second launch of the engine and returns a
    context, where a fast failure was called for. *)
Lemma acquire_after_close_relaunches :
  let pw := (run [Call; LaunchSettles 0 None; Resume 0; Resume 0; Release 0; Close]
               (fresh, [])).1 in
  browserPool pw = None ∧ launches pw = 1%nat ∧
  (getContext_alone pw).1 = Some (inr 1%nat) ∧
  launches (getContext_alone pw).2 = 2%nat ∧
  ¬ (∃ reason, (getContext_alone pw).1 = Some (inl reason)).
Proof.
  vm_compute. split_and!; try done. intros [reason H]. discriminate H.
Qed.

(** C3, amended. After [close()], the next [getContext()] initializes
    the pool again by itself: it requests one more launch of the engine
    and, that launch succeeding, returns a new context. *)
Theorem acquire_after_close (pw : Playwright) :
  let r := getContext_alone (close pw) in
  r.1 = Some (inr (next_context pw)) ∧
  launches r.2 = S (launches pw) ∧
  (browser <$> browserPool r.2) = Some (launches pw) ∧
  (activeContexts <$> browserPool r.2) = Some 1.
Proof.
  assert (browserPool (close pw) = None ∧ initializationPromise (close pw) = None
          ∧ launched (close pw) = launched pw
          ∧ next_context (close pw) = next_context pw) as (Hp & Hi & Hl & Hn).
  { unfold close. by destruct (browserPool pw). }
  unfold getContext_alone, getContext_call, initialize.
  rewrite Hp, Hi, Hl, Hn. cbn.
  unfold launch_settles. cbn.
  rewrite lookup_app_r, Nat.sub_diag by done. cbn.
  rewrite list_lookup_insert_eq by (rewrite length_app; cbn; lia). cbn.
  unfold launches. cbn. rewrite length_insert, length_app. cbn.
  split_and!; [done | lia | done | done].
Qed.

End PoolProps.

(** ** The commit sequence of the source-hosting adapter *)

Module GitHubProps.
Import GitHub.

Open Scope string_scope.

Section service.
Variable fault : nat → option string.

(** Between [r] and [r'] no reference was touched and no object was
    changed, though objects may have been added. *)
Definition quiet (r r' : Repo) : Prop :=
  refs r' = refs r ∧ moves r' = moves r ∧
  objects r `prefix_of` objects r' ∧ (served r ≤ served r')%nat.

(** No request numbered from [served r] up to [served r'] failed. *)
Definition clean (r r' : Repo) : Prop :=
  ∀ i, (served r ≤ i < served r')%nat → fault i = None.

Lemma quiet_refl r : quiet r r.
Proof. by split_and!. Qed.

Lemma quiet_trans r1 r2 r3 : quiet r1 r2 → quiet r2 r3 → quiet r1 r3.
Proof.
  intros (? & ? & ? & ?) (? & ? & ? & ?).
  split_and!; [congruence | congruence | by etrans | lia].
Qed.

Lemma clean_trans r1 r2 r3 :
  (served r1 ≤ served r2)%nat → clean r1 r2 → clean r2 r3 → clean r1 r3.
Proof.
  intros Hle H12 H23 i Hi.
  destruct (decide (i < served r2)%nat); [apply H12 | apply H23]; lia.
Qed.

Lemma clean_refl r : clean r r.
Proof. intros i Hi. lia. Qed.

(** A call that is quiet whatever its outcome, and clean when it
    succeeds. *)
Definition api_quiet {A} (m : Api A) : Prop :=
  ∀ r res r', m r = (res, r') →
    quiet r r' ∧ ∀ x, res = inr x → clean r r'.

(** The body of a request that leaves references alone. *)
Definition silent {A} (body : Api A) : Prop :=
  ∀ r res r', body r = (res, r') →
    refs r' = refs r ∧ moves r' = moves r ∧
    objects r `prefix_of` objects r' ∧ served r' = served r.

Lemma request_quiet {A} (body : Api A) : silent body → api_quiet (request fault body).
Proof.
  intros Hbody r res r'. unfold request.
  destruct (fault (served r)) as [msg|] eqn:Hf.
  - intros [= <- <-]. split; [by split_and!; cbn; try lia | done].
  - intros (? & ? & ? & Hs)%Hbody. cbn in *. split.
    + split_and!; [done | done | done | lia].
    + intros x _ i Hi. assert (i = served r) as -> by lia. done.
Qed.

Lemma store_silent o : silent (store o).
Proof.
  intros r res r' [= <- <-]. cbn. split_and!; try done. by apply prefix_app_r.
Qed.

Lemma getRef_quiet ref : api_quiet (getRef fault ref).
Proof.
  apply request_quiet. intros r res r' H.
  destruct (refs r !! ("refs/" ++ ref)); injection H as <- <-; by split_and!.
Qed.

Lemma getCommit_quiet sha : api_quiet (getCommit fault sha).
Proof.
  apply request_quiet. intros r res r' H.
  destruct (objects r !! sha) as [[]|]; injection H as <- <-; by split_and!.
Qed.

Lemma createBlob_quiet content : api_quiet (createBlob fault content).
Proof. apply request_quiet, store_silent. Qed.

Lemma createTree_quiet base entries : api_quiet (createTree fault base entries).
Proof.
  apply request_quiet. intros r res r' H.
  destruct (objects r !! base) as [[]|]; try (injection H as <- <-; by split_and!).
  by apply store_silent in H.
Qed.

Lemma createCommitObject_quiet message tree parents :
  api_quiet (createCommitObject fault message tree parents).
Proof. apply request_quiet, store_silent. Qed.

(** What a successful request tells. *)
Lemma request_inr {A} (body : Api A) r x r' :
  request fault body r = (inr x, r') →
  body (mkRepo (objects r) (refs r) (moves r) (S (served r))) = (inr x, r').
Proof. unfold request. by destruct (fault (served r)). Qed.

Lemma getRef_inr ref r sha r' :
  getRef fault ref r = (inr sha, r') → refs r !! ("refs/" ++ ref) = Some sha.
Proof.
  intros H%request_inr. cbn in H.
  destruct (refs r !! ("refs/" ++ ref)); by simplify_eq.
Qed.

Lemma getCommit_inr sha r t r' :
  getCommit fault sha r = (inr t, r') → (sha < length (objects r))%nat.
Proof.
  intros H%request_inr. cbn in H.
  destruct (objects r !! sha) eqn:Hl; [| done].
  by apply lookup_lt_Some in Hl.
Qed.

Lemma createBlob_inr content r sha r' :
  createBlob fault content r = (inr sha, r') →
  objects r' !! sha = Some (Blob content).
Proof.
  intros H%request_inr. injection H as <- <-. cbn.
  rewrite lookup_app_r, Nat.sub_diag by done. done.
Qed.

Lemma createTree_inr base_tree entries r t r' :
  createTree fault base_tree entries r = (inr t, r') →
  ∃ base, objects r !! base_tree = Some (Tree base) ∧
    objects r' !! t = Some (Tree (foldl (λ t e, <[e.1 := e.2]> t) base entries)).
Proof.
  intros H%request_inr. cbn in H.
  destruct (objects r !! base_tree) as [[| base |]|]; try done.
  exists base. split; [done |]. injection H as <- <-. cbn.
  rewrite lookup_app_r, Nat.sub_diag by done. done.
Qed.

Lemma createCommitObject_inr message tree parents r c r' :
  createCommitObject fault message tree parents r = (inr c, r') →
  objects r' !! c = Some (Commit tree parents message) ∧ c = length (objects r).
Proof.
  intros H%request_inr. injection H as <- <-. cbn.
  rewrite lookup_app_r, Nat.sub_diag by done. done.
Qed.

(** [updateRef] is quiet when it fails; when it succeeds it moves the
    reference, once. *)
Lemma updateRef_spec ref sha r :
  match updateRef fault ref sha r with
  | (inl _, r') => quiet r r'
  | (inr _, r') =>
      clean r r' ∧ (served r ≤ served r')%nat ∧
      is_Some (refs r !! ("refs/" ++ ref)) ∧
      refs r' = <["refs/" ++ ref := sha]> (refs r) ∧
      moves r' = app (moves r) [("refs/" ++ ref, sha)] ∧
      objects r' = objects r
  end.
Proof.
  unfold updateRef, request, quiet.
  destruct (fault (served r)) eqn:Hf.
  { cbn. split_and!; try done. lia. }
  cbn. destruct (refs r !! ("refs/" ++ ref)) eqn:Hr.
  - cbn. split_and!; try done; [| lia].
    intros i Hi. cbn in Hi. assert (i = served r) as -> by lia. done.
  - cbn. split_and!; try done. lia.
Qed.

(** The blobs: quiet together, and on success one blob for each file, in
    order, with the content of the file. *)
Lemma createBlobs_spec files r :
  quiet r (createBlobs fault files r).2 ∧
  ∀ blobs, (createBlobs fault files r).1 = inr blobs →
    clean r (createBlobs fault files r).2 ∧
    Forall2 (λ f b, b.1 = path f ∧
               objects (createBlobs fault files r).2 !! b.2
               = Some (Blob (file_content f))) files blobs.
Proof.
  revert r. induction files as [|file files IH]; intros r.
  { cbn. split; [apply quiet_refl |]. intros blobs [= <-].
    split; [apply clean_refl | constructor]. }
  cbn [createBlobs].
  destruct (createBlob fault (file_content file) r) as [[msg|sha] r1] eqn:Hb.
  - destruct (createBlob_quiet _ _ _ _ Hb) as [Hq _].
    destruct (IH r1) as [Hq1 _]. cbn.
    split; [by eapply quiet_trans | done].
  - destruct (createBlob_quiet _ _ _ _ Hb) as [Hq Hc].
    specialize (Hc sha eq_refl).
    destruct (IH r1) as [Hq1 Hok].
    destruct (createBlobs fault files r1) as [[msg|blobs] r2] eqn:Hrest; cbn in *.
    + split; [by eapply quiet_trans | done].
    + split; [by eapply quiet_trans |].
      intros ? [= <-]. destruct (Hok blobs eq_refl) as [Hc1 Hall].
      split.
      * eapply clean_trans; [| done | done]. apply Hq.
      * constructor; [| done]. split; [done |].
        eapply prefix_lookup_Some; [by eapply createBlob_inr | apply Hq1].
Qed.

(** A tree built from entries with distinct paths holds each of them. *)
Lemma foldl_insert_notin (entries : list (string * nat)) (base : gmap string nat) p :
  p ∉ entries.*1 →
  foldl (λ t e, <[e.1 := e.2]> t) base entries !! p = base !! p.
Proof.
  revert base. induction entries as [|[q s] entries IH]; intros base Hp; [done |].
  cbn in *. apply not_elem_of_cons in Hp as [Hne Hp].
  rewrite IH by done. by rewrite lookup_insert_ne.
Qed.

Lemma foldl_insert_in (entries : list (string * nat)) (base : gmap string nat) p s :
  NoDup entries.*1 → (p, s) ∈ entries →
  foldl (λ t e, <[e.1 := e.2]> t) base entries !! p = Some s.
Proof.
  revert base. induction entries as [|[q s'] entries IH]; intros base Hnd Hin.
  { by apply elem_of_nil in Hin. }
  cbn in *. apply NoDup_cons in Hnd as [Hq Hnd].
  apply elem_of_cons in Hin as [[= <- <-] | Hin].
  - rewrite foldl_insert_notin by done. apply lookup_insert_eq.
  - by apply IH.
Qed.

(** The whole sequence. *)
Lemma createCommit_try_spec branch files message r :
  match createCommit_try fault branch files message r with
  | (inl _, r') => quiet r r'
  | (inr c, r') =>
      clean r r' ∧
      ∃ old t base blobs,
        refs r !! ("refs/heads/" ++ branch) = Some old ∧ (old < c)%nat ∧
        Forall2 (λ f b, b.1 = path f ∧
                   objects r' !! b.2 = Some (Blob (file_content f))) files blobs ∧
        objects r' !! t = Some (Tree (foldl (λ t e, <[e.1 := e.2]> t) base blobs)) ∧
        objects r' !! c = Some (Commit t [old] message) ∧
        refs r' = <["refs/heads/" ++ branch := c]> (refs r) ∧
        moves r' = app (moves r) [("refs/heads/" ++ branch, c)] ∧
        objects r `prefix_of` objects r'
  end.
Proof.
  unfold createCommit_try, mbind, api_mbind, api_bind, mret, api_mret, api_ret.
  destruct (getRef fault ("heads/" ++ branch) r) as [[msg|old] r1] eqn:H1;
    destruct (getRef_quiet _ _ _ _ H1) as [Q1 C1]; [done |].
  destruct (getCommit fault old r1) as [[msg|t0] r2] eqn:H2;
    destruct (getCommit_quiet _ _ _ _ H2) as [Q2 C2]; [by eapply quiet_trans |].
  pose proof (createBlobs_spec files r2) as [Q3 C3].
  destruct (createBlobs fault files r2) as [[msg|blobs] r3] eqn:H3; cbn in Q3, C3;
    [by repeat (eapply quiet_trans; [done |]) |].
  destruct (C3 blobs eq_refl) as [C3' Hblobs]. clear C3.
  destruct (createTree fault t0 blobs r3) as [[msg|t] r4] eqn:H4;
    destruct (createTree_quiet _ _ _ _ _ H4) as [Q4 C4];
    [by repeat (eapply quiet_trans; [done |]) |].
  destruct (createCommitObject fault message t [old] r4) as [[msg|c] r5] eqn:H5;
    destruct (createCommitObject_quiet _ _ _ _ _ _ H5) as [Q5 C5];
    [by repeat (eapply quiet_trans; [done |]) |].
  pose proof (updateRef_spec ("heads/" ++ branch) c r5) as H6.
  assert (quiet r r5) as Q by (by repeat (eapply quiet_trans; [done |])).
  destruct (updateRef fault ("heads/" ++ branch) c r5) as [[msg|[]] r6] eqn:E6;
    [by eapply quiet_trans |].
  destruct H6 as (C6 & S6 & _ & R6 & M6 & O6).
  destruct Q as (QR & QM & QO & QS).
  split.
  { destruct Q1 as (_ & _ & _ & ?), Q2 as (_ & _ & _ & ?), Q3 as (_ & _ & _ & ?),
      Q4 as (_ & _ & _ & ?), Q5 as (_ & _ & _ & ?).
    specialize (C1 _ eq_refl). specialize (C2 _ eq_refl).
    specialize (C4 _ eq_refl). specialize (C5 _ eq_refl).
    apply (clean_trans r r5 r6 QS); [| done].
    apply (clean_trans r r4 r5); [lia | | done].
    apply (clean_trans r r3 r4); [lia | | done].
    apply (clean_trans r r2 r3); [lia | | done].
    by apply (clean_trans r r1 r2). }
  destruct (createTree_inr _ _ _ _ _ H4) as (base & _ & Ht).
  destruct (createCommitObject_inr _ _ _ _ _ _ H5) as [Hc Hlen].
  exists old, t, base, blobs. rewrite O6.
  destruct Q4 as (_ & _ & P4 & _), Q5 as (_ & _ & P5 & _).
  split_and!.
  - by apply getRef_inr in H1.
  - apply getCommit_inr in H2.
    destruct Q1 as (_ & _ & P1 & _), Q2 as (_ & _ & P2 & _), Q3 as (_ & _ & P3 & _).
    apply prefix_length in P1, P2, P3, P4. cbn in *. subst c. lia.
  - eapply Forall2_impl; [done |]. intros f b [? Hb]. split; [done |].
    eapply prefix_lookup_Some; [| apply P5].
    eapply prefix_lookup_Some; [| apply P4]. done.
  - by eapply prefix_lookup_Some.
  - done.
  - by rewrite R6, QR.
  - by rewrite M6, QM.
  - done.
Qed.

Lemma head_tree_quiet r r' b entries :
  quiet r r' → head_tree r b = Some entries → head_tree r' b = Some entries.
Proof.
  intros (HR & _ & HO & _). unfold head_tree. rewrite HR.
  destruct (refs r !! ("refs/heads/" ++ b)) as [head|]; [cbn | done].
  destruct (objects r !! head) as [[| |t ps m]|] eqn:Hh; try done.
  rewrite (prefix_lookup_Some _ _ _ _ Hh HO).
  destruct (objects r !! t) as [[|e|]|] eqn:Ht; try done.
  by rewrite (prefix_lookup_Some _ _ _ _ Ht HO).
Qed.
End service.

(** C1. [createCommit] is all or nothing. If any request of the call
    fails (reading the branch, creating a blob, the tree or the commit,
    or moving the reference) the call reports a failure. When it reports
    a failure no reference has changed, none has been moved, no object
    that existed has changed, and the tree at every branch head is what it
    was. When it reports success the reference of the branch has moved
    once, from the old head to a new commit whose parent is the old head
    and whose tree holds every requested file (their paths being
    distinct) with its content. *)
Theorem createCommit_all_or_nothing (fault : nat → option string)
    (branch : string) (files : list FileEntry) (message : string) (repo : Repo) :
  let result := (createCommit fault branch files message repo).1 in
  let repo' := (createCommit fault branch files message repo).2 in
  let key := "refs/heads/" ++ branch in
  ((∃ i, (served repo ≤ i < served repo')%nat ∧ is_Some (fault i)) →
     success result = false) ∧
  (success result = false →
     refs repo' = refs repo ∧ moves repo' = moves repo ∧
     objects repo `prefix_of` objects repo' ∧
     ∀ b entries, head_tree repo b = Some entries → head_tree repo' b = Some entries) ∧
  (success result = true →
     ∃ c old t,
       data result = Some (mkCommitData c message) ∧
       refs repo !! key = Some old ∧ (old < c)%nat ∧
       refs repo' = <[key := c]> (refs repo) ∧
       moves repo' = app (moves repo) [(key, c)] ∧
       objects repo' !! c = Some (Commit t [old] message) ∧
       (NoDup (path <$> files) →
        ∀ f, f ∈ files → head_file repo' branch (path f) = Some (file_content f))).
Proof.
  cbv zeta. unfold createCommit.
  pose proof (createCommit_try_spec fault branch files message repo) as H.
  destruct (createCommit_try fault branch files message repo) as [[msg|c] r'] eqn:E; cbn.
  - split_and!; [done | | done].
    intros _. destruct H as (? & ? & ? & ?). split_and!; try done.
    intros b entries. by apply head_tree_quiet.
  - destruct H as [Hclean (old & t & base & blobs & Hold & Hlt & Hblobs & Ht & Hc & HR & HM & HO)].
    split_and!; [| done |].
    { intros (i & Hi & [msg Hf]). rewrite (Hclean i Hi) in Hf. done. }
    intros _. exists c, old, t. split_and!; try done.
    intros Hnd f Hf.
    assert (NoDup blobs.*1) as Hnd'.
    { assert (blobs.*1 = path <$> files) as ->; [| done].
      clear -Hblobs. induction Hblobs as [|f b fs bs [Hp _] _ IH]; [done |].
      cbn. by rewrite Hp, IH. }
    assert (∃ s, (path f, s) ∈ blobs ∧ objects r' !! s = Some (Blob (file_content f)))
      as (s & Hin & Hs).
    { clear -Hblobs Hf. induction Hblobs as [|f' [p s] fs bs [Hp Hb] _ IH].
      - by apply elem_of_nil in Hf.
      - apply elem_of_cons in Hf as [-> | Hf].
        + exists s. cbn in *. subst p. split; [by left | done].
        + destruct (IH Hf) as (s' & ? & ?). exists s'. split; [by right | done]. }
    unfold head_file, head_tree. rewrite HR, lookup_insert_eq. cbn.
    rewrite Hc, Ht. cbn.
    rewrite (foldl_insert_in blobs base (path f) s Hnd' Hin). cbn.
    by rewrite Hs.
Qed.

(** A repository with one branch, two files to commit, and a service
    that fails the second blob request (the fourth request of the call). *)
Definition feature_repo : Repo :=
  mkRepo [Tree ∅; Commit 0 [] "init"] {[ "refs/heads/feature" := 1%nat ]} [] 0.

Definition two_files : list FileEntry :=
  [mkFile "src/components/Hero/Hero.tsx" "export const Hero = 1;";
   mkFile "src/components/Hero/Hero.css" ".hero {}"].

Definition second_blob_fails (n : nat) : option string :=
  if (n =? 3)%nat then Some "Server Error" else None.

Lemma createCommit_all_or_nothing_witness :
  success (createCommit second_blob_fails "feature" two_files "add Hero" feature_repo).1
    = false ∧
  refs (createCommit second_blob_fails "feature" two_files "add Hero" feature_repo).2
    = refs feature_repo ∧
  head_file (createCommit (λ _, None) "feature" two_files "add Hero" feature_repo).2
    "feature" "src/components/Hero/Hero.css" = Some ".hero {}".
Proof.
  split_and!.
  - apply (createCommit_all_or_nothing second_blob_fails "feature" two_files
             "add Hero" feature_repo).
    exists 3%nat. split; [vm_compute; lia | by eexists].
  - apply (createCommit_all_or_nothing second_blob_fails "feature" two_files
             "add Hero" feature_repo).
    reflexivity.
  - destruct (createCommit_all_or_nothing (λ _, None) "feature" two_files
                "add Hero" feature_repo) as (_ & _ & H).
    destruct (H eq_refl) as (c & old & t & _ & _ & _ & _ & _ & _ & Hfiles).
    assert (NoDup (path <$> two_files)) as Hnd.
    { apply (bool_decide_unpack _). vm_compute. exact I. }
    apply (Hfiles Hnd (mkFile "src/components/Hero/Hero.css" ".hero {}")).
    apply list_elem_of_further, list_elem_of_here.
Defined.

End GitHubProps.

(** ** Screenshot comparison and the visual test *)

Module PlaywrightProps.
Import JsString JsNumber Playwright.

Open Scope string_scope.

(** Two images of the same dimensions that both exist are compared; the
    call succeeds unless the diff image cannot be written, and writes
    nothing else. *)
Lemma compareScreenshots_same_dimensions pixelmatch basePath currentPath threshold
    (fs : gmap string File) baseImage currentImage :
  fs !! basePath = Some (PngFile baseImage) →
  fs !! currentPath = Some (PngFile currentImage) →
  img_width baseImage = img_width currentImage →
  img_height baseImage = img_height currentImage →
  let counted :=
    pixelmatch (img_data baseImage) (img_data currentImage)
      (img_width baseImage) (img_height baseImage) threshold in
  let totalPixels := (of_Z (img_width baseImage) * of_Z (img_height baseImage))%float in
  let similarity := similarity_of totalPixels (of_Z counted.1) in
  let diffPath := replace_first ".png" "-diff.png" currentPath in
  compareScreenshots pixelmatch basePath currentPath threshold fs
  = match fs !! diffPath with
    | Some (Blocked reason) => (failed reason, fs)
    | _ =>
        (ok (mkComparison basePath currentPath diffPath
               similarity counted.1 (passed_of similarity threshold)),
         <[diffPath :=
             PngFile (mkImage (img_width baseImage) (img_height baseImage) counted.2)]> fs)
    end.
Proof.
  intros Hb Hc Hw Hh. cbv zeta. unfold compareScreenshots, write_file.
  rewrite Hb, Hc, Hw, Hh, !Z.eqb_refl. cbn.
  destruct (pixelmatch _ _ _ _ _) as [count diff]. cbn.
  by destruct (fs !! replace_first ".png" "-diff.png" currentPath) as [[| |]|].
Qed.

(** C4. For two images of the same dimensions and any threshold, the
    comparison returns a result unless the diff image cannot be written,
    in which case it fails with the error of the file system; the
    similarity of the result is (totalPixels - differingPixels) /
    totalPixels * 100, and it has passed exactly when the similarity is
    at least 100 - threshold * 100; the arithmetic is that of JavaScript
    numbers. *)
Theorem comparison_similarity_and_pass
    (pixelmatch : list Z → list Z → Z → Z → float → Z * list Z)
    (basePath currentPath : string) (threshold : float)
    (fs : gmap string File) (baseImage currentImage : Image) :
  fs !! basePath = Some (PngFile baseImage) →
  fs !! currentPath = Some (PngFile currentImage) →
  img_width baseImage = img_width currentImage →
  img_height baseImage = img_height currentImage →
  let result := (compareScreenshots pixelmatch basePath currentPath threshold fs).1 in
  match fs !! replace_first ".png" "-diff.png" currentPath with
  | Some (Blocked reason) => result = failed reason
  | _ =>
      ∃ c,
        result = ok c ∧
        let totalPixels :=
          (of_Z (img_width baseImage) * of_Z (img_height baseImage))%float in
        let differingPixels := of_Z (pixelDifference c) in
        pixelDifference c
        = (pixelmatch (img_data baseImage) (img_data currentImage)
             (img_width baseImage) (img_height baseImage) threshold).1 ∧
        similarity c = ((totalPixels - differingPixels) / totalPixels * 100)%float ∧
        (passed c = true ↔ (100 - threshold * 100 <=? similarity c)%float = true)
  end.
Proof.
  intros Hb Hc Hw Hh. cbv zeta.
  rewrite (compareScreenshots_same_dimensions pixelmatch basePath currentPath threshold
             fs baseImage currentImage Hb Hc Hw Hh). cbv zeta.
  destruct (fs !! replace_first ".png" "-diff.png" currentPath) as [[| |]|];
    try done; by eexists.
Qed.

(** An image of two by two pixels, and the same with one pixel changed. *)
Definition white : Image := mkImage 2 2 (replicate 16 255).
Definition dotted : Image := mkImage 2 2 (replicate 4 0 ++ replicate 12 255)%list.

(** A stand-in for [pixelmatch]: it counts the pixels that differ at all. *)
Fixpoint count_differing (a b : list Z) : Z :=
  match a, b with
  | r1 :: g1 :: b1 :: a1 :: a', r2 :: g2 :: b2 :: a2 :: b' =>
      (if bool_decide ([r1; g1; b1; a1] = [r2; g2; b2; a2]) then 0 else 1)
      + count_differing a' b'
  | _, _ => 0
  end%Z.

Definition exact_match (a b : list Z) (w h : Z) (threshold : float) : Z * list Z :=
  (count_differing a b, a).

Definition two_shots : gmap string File :=
  {[ "t-baseline.png" := PngFile white; "t-current.png" := PngFile dotted ]}.

Lemma comparison_similarity_and_pass_witness :
  ∃ c,
    (compareScreenshots exact_match "t-baseline.png" "t-current.png" 0.1 two_shots).1 = ok c ∧
    pixelDifference c = 1%Z ∧
    similarity c = 75%float ∧
    (passed c = true ↔ (100 - 0.1 * 100 <=? similarity c)%float = true).
Proof.
  pose proof (comparison_similarity_and_pass exact_match "t-baseline.png" "t-current.png"
                0.1 two_shots white dotted eq_refl eq_refl eq_refl eq_refl) as H.
  destruct H as (c & Hc & Hd & Hs & Hp).
  exists c. split_and!; [exact Hc | | | exact Hp].
  - rewrite Hd. reflexivity.
  - rewrite Hs, Hd. reflexivity.
Defined.

(** The pass bar moves with the threshold: 92 per cent similar passes at
    the default threshold and fails at half of it. *)
Example pass_bar_tightens :
  similarity_of 100 8 = 92%float ∧
  passed_of (similarity_of 100 8) 0.1 = true ∧
  passed_of (similarity_of 100 8) 0.05 = false.
Proof. by vm_compute. Qed.

Section visual.
Variable pixelmatch : list Z → list Z → Z → Z → float → Z * list Z.
Variable join : string → string → string.
Variable shoot : string → option string → Shot.

(** A visual test that reports a result reports it under its own name. *)
Lemma runVisualTest_name testName url selector dir t0 t1 fs d :
  data (runVisualTest pixelmatch join shoot testName url selector dir t0 t1 fs).1 = Some d →
  name d = testName.
Proof.
  unfold runVisualTest, captureScreenshot.
  destruct (shoot url selector) as [reason|reason|img]; cbn; try done.
  set (fs1 := <[_ := PngFile img]> fs). clearbody fs1.
  destruct (fs1 !! join dir (testName ++ "-baseline.png")) as [[| |]|].
  1,2: destruct (compareScreenshots _ _ _ _ _) as [cr fs2];
    destruct (success cr); cbn; by intros [= <-].
  - done.
  - destruct (fs1 !! join dir (testName ++ "-current.png")) as [[| |]|]; cbn;
      try done; by intros [= <-].
Qed.
End visual.

(** C9. When the screenshot of the page is taken and no baseline exists
    for the test name, the visual test copies the screenshot to the
    baseline path, writes nothing else, compares nothing, and reports the
    test as passed, with no comparison attached. *)
Theorem first_run_creates_baseline
    (pixelmatch : list Z → list Z → Z → Z → float → Z * list Z)
    (join : string → string → string) (shoot : string → option string → Shot)
    (testName url : string) (selector : option string) (baselineDir : string)
    (startTime endTime : Z) (fs : gmap string File) (img : Image) :
  let currentImagePath := join baselineDir (testName ++ "-current.png") in
  let baseImagePath := join baselineDir (testName ++ "-baseline.png") in
  shoot url selector = ShotTaken img →
  currentImagePath ≠ "" →
  baseImagePath ≠ currentImagePath →
  fs !! baseImagePath = None →
  runVisualTest pixelmatch join shoot testName url selector baselineDir
    startTime endTime fs
  = (ok (mkTestResult testName true None None (endTime - startTime)),
     <[baseImagePath := PngFile img]> (<[currentImagePath := PngFile img]> fs)).
Proof.
  cbv zeta. intros Hshot Hne Hdiff Hnone.
  unfold runVisualTest, captureScreenshot. rewrite Hshot.
  destruct (join baselineDir (testName ++ "-current.png")) as [|c p] eqn:Hcur; [done |].
  cbn. rewrite lookup_insert_ne by done. rewrite Hnone.
  by rewrite lookup_insert_eq.
Qed.

Definition slash_join (a b : string) : string := a ++ "/" ++ b.

Lemma first_run_creates_baseline_witness :
  runVisualTest exact_match slash_join (λ _ _, ShotTaken dotted)
    "Hero-visual-test" "http://localhost:3000" None "out/visual-tests" 1000 1450 ∅
  = (ok (mkTestResult "Hero-visual-test" true None None 450),
     <["out/visual-tests/Hero-visual-test-baseline.png" := PngFile dotted]>
       (<["out/visual-tests/Hero-visual-test-current.png" := PngFile dotted]> ∅)).
Proof.
  apply (first_run_creates_baseline exact_match slash_join (λ _ _, ShotTaken dotted)
           "Hero-visual-test" "http://localhost:3000" None "out/visual-tests"
           1000 1450 ∅ dotted).
  - reflexivity.
  - discriminate.
  - discriminate.
  - reflexivity.
Defined.

End PlaywrightProps.

(** ** The workflows *)

Module WorkflowProps.
Import JsString JsNumber Workflow.

Open Scope string_scope.

(** No component name gives the visual test the name of the responsive
    entry. *)
Lemma visual_name_not_responsive componentName :
  componentName ++ "-visual-test" ≠ "responsive-design-test".
Proof.
  intros H.
  repeat (cbn in H; first [discriminate H | destruct componentName as [|? componentName]]).
Qed.

Section service.
Variable fault : nat → option string.

(** A branch creation that fails leaves the repository as it was, but
    for the count of requests. *)
Lemma createBranch_failure branch base repo :
  success (GitHub.createBranch fault branch base repo).1 = false →
  GitHub.refs (GitHub.createBranch fault branch base repo).2 = GitHub.refs repo ∧
  GitHub.objects (GitHub.createBranch fault branch base repo).2 = GitHub.objects repo ∧
  GitHub.moves (GitHub.createBranch fault branch base repo).2 = GitHub.moves repo.
Proof.
  unfold GitHub.createBranch, mbind, GitHub.api_mbind, GitHub.api_bind,
    GitHub.getRef, GitHub.createRef, GitHub.request.
  destruct (fault (GitHub.served repo)); [done |]. cbn.
  destruct (GitHub.refs repo !! _); [| done]. cbn.
  destruct (fault (S (GitHub.served repo))); [done |]. cbn.
  destruct (GitHub.refs repo !! _); done.
Qed.
End service.

(** C5. When the frame fetch, the token analysis or the branch creation
    fails, the design-to-code workflow returns a failure that carries the
    error of the first of them that failed, in that order, and no data;
    it writes no file and sends no request to the source-hosting service
    past the branch creation, so no commit is attempted; when it is the
    branch creation that failed, no reference, object or move is added to
    the repository. *)
Theorem design_to_code_aborts (fault : nat → option string)
    (join : string → string → string)
    (component_template : string → FigmaFrame → string → string → float → float → string)
    (css_template : string → float → string)
    (context : WorkflowContext)
    (frameResult : Settled (ToolResult FigmaFrame))
    (tokensResult : Settled (ToolResult FigmaTokens.DesignTokens))
    (startTime endTime : Z) (repo : GitHub.Repo) (fs : gmap string Playwright.File) :
  let branchRun := GitHub.createBranch fault (githubBranch context) "main" repo in
  let out :=
    executeDesignToCodeWorkflow fault join component_template css_template context
      frameResult tokensResult startTime endTime repo fs in
  not_succeeded frameResult = true ∨ not_succeeded tokensResult = true
    ∨ success branchRun.1 = false →
  success out.1.1 = false ∧ data out.1.1 = None ∧
  out.1.1 =
    (if not_succeeded frameResult
     then handleError "Failed to fetch Figma frame" frameResult
     else if not_succeeded tokensResult
     then handleError "Failed to analyze design tokens" tokensResult
     else handleError "Failed to create GitHub branch" (Fulfilled branchRun.1)) ∧
  out.1.2 = branchRun.2 ∧ out.2 = fs ∧
  (success branchRun.1 = false →
     GitHub.refs out.1.2 = GitHub.refs repo ∧
     GitHub.objects out.1.2 = GitHub.objects repo ∧
     GitHub.moves out.1.2 = GitHub.moves repo).
Proof.
  cbv zeta. intros Hfail. unfold executeDesignToCodeWorkflow.
  pose proof (createBranch_failure fault (githubBranch context) "main" repo) as Hbranch.
  destruct (GitHub.createBranch fault (githubBranch context) "main" repo)
    as [branchValue repo1]. cbn [fst snd] in *.
  destruct (not_succeeded frameResult) eqn:Hf;
    [split_and!; try reflexivity; exact Hbranch |].
  destruct (not_succeeded tokensResult) eqn:Ht;
    [split_and!; try reflexivity; exact Hbranch |].
  destruct Hfail as [? | [? | Hb]]; [done | done |].
  cbn [not_succeeded]. rewrite Hb. cbn [negb].
  split_and!; try reflexivity. intros _. by apply Hbranch.
Qed.

Definition no_faults : nat → option string := λ _, None.

Definition hero : WorkflowContext :=
  mkContext "abc123def456" "1:2" "HeroButton" "out" "feature/herobutton" None.

Definition main_only : GitHub.Repo :=
  GitHub.mkRepo [GitHub.Tree ∅; GitHub.Commit 0 [] "init"]
    {[ "refs/heads/main" := 1%nat ]} [] 0.

Lemma design_to_code_aborts_witness :
  (executeDesignToCodeWorkflow no_faults PlaywrightProps.slash_join
     (λ _ _ _ _ _ _, "tsx") (λ _ _, "css") hero
     (Fulfilled (failed "Frame with ID 1:2 not found"))
     (Fulfilled (ok (FigmaTokens.mkTokens [] [] [] []))) 0 5 main_only ∅).1.1
  = failed "Failed to fetch Figma frame: Frame with ID 1:2 not found".
Proof.
  apply (design_to_code_aborts no_faults PlaywrightProps.slash_join
           (λ _ _ _ _ _ _, "tsx") (λ _ _, "css") hero
           (Fulfilled (failed "Frame with ID 1:2 not found"))
           (Fulfilled (ok (FigmaTokens.mkTokens [] [] [] []))) 0 5 main_only ∅).
  left. reflexivity.
Defined.

(** The accessibility scan carries its data when it succeeds. *)
Lemma validateAccessibility_data scan url :
  succeeded (Playwright.validateAccessibility scan url) = true →
  is_Some (data_or_null (Playwright.validateAccessibility scan url)).
Proof.
  unfold Playwright.validateAccessibility.
  destruct (scan url); cbn; done.
Qed.

(** C10. Whenever the responsive capture resolves successfully, the
    visual testing workflow succeeds and the test results it records hold
    the entry [responsive-design-test] with [passed] true, no error and
    duration 0; every entry of that name among them has [passed] true,
    whatever the browser captured. *)
Theorem responsive_entry_always_passes
    (join : string → string → string)
    (pixelmatch : list Z → list Z → Z → Z → float → Z * list Z)
    (shoot : string → option string → Playwright.Shot)
    (respond : string → list Playwright.Viewport → Playwright.Responsive)
    (scan : string → Playwright.Scan)
    (context : WorkflowContext) (componentUrl : string)
    (imagesResult : Settled (ToolResult (list (string * string))))
    (startTime endTime : Z) (fs : gmap string Playwright.File) :
  let out :=
    executeVisualTestingWorkflow join pixelmatch shoot respond scan context
      componentUrl imagesResult startTime endTime fs in
  let fs1 :=
    (Playwright.runVisualTest pixelmatch join shoot
       (componentName context ++ "-visual-test") componentUrl None
       (join (outputPath context) "visual-tests") startTime endTime fs).2 in
  succeeded (Playwright.testResponsiveDesign respond componentUrl viewports fs1).1
    = true →
  success out.1.1 = true ∧
  ∃ results,
    testResults out.1.2 = Some results ∧
    Playwright.mkTestResult "responsive-design-test" true None None 0 ∈ results ∧
    ∀ entry, entry ∈ results →
      Playwright.name entry = "responsive-design-test" →
      Playwright.test_passed entry = true.
Proof.
  cbv zeta. intros Hresp. unfold executeVisualTestingWorkflow.
  pose proof (PlaywrightProps.runVisualTest_name pixelmatch join shoot
                (componentName context ++ "-visual-test") componentUrl None
                (join (outputPath context) "visual-tests") startTime endTime fs) as Hname.
  destruct (Playwright.runVisualTest _ _ _ _ _ _ _ _ _ _) as [visualValue fs1].
  cbn [fst snd] in Hname, Hresp.
  destruct (Playwright.testResponsiveDesign respond componentUrl viewports fs1)
    as [responsiveResult fs2]. cbn [fst] in Hresp. rewrite Hresp.
  set (visualEntries := if succeeded (Fulfilled visualValue)
                        then option_list (data visualValue) else []).
  assert (∀ e, e ∈ visualEntries →
            Playwright.name e = componentName context ++ "-visual-test") as Hvis.
  { intros e. unfold visualEntries.
    destruct (succeeded (Fulfilled visualValue)); [| by intros ?%elem_of_nil].
    destruct (data visualValue) as [d|]; cbn; [| by intros ?%elem_of_nil].
    intros ->%list_elem_of_singleton. by apply Hname. }
  clearbody visualEntries.
  pose proof (validateAccessibility_data scan componentUrl) as Hacc.
  set (accessibilityResult := Playwright.validateAccessibility scan componentUrl) in *.
  clearbody accessibilityResult.
  assert (∃ accessibilityEntries,
            (if succeeded accessibilityResult
             then match data_or_null accessibilityResult with
                  | Some d =>
                      Some [Playwright.mkTestResult "accessibility-test"
                              (Playwright.a11y_passed d)
                              (match Playwright.issues d with
                               | [] => None
                               | _ => Some (join_with ", " (Playwright.issues d))
                               end) None 0]
                  | None => None
                  end
             else Some []) = Some accessibilityEntries ∧
            ∀ e, e ∈ accessibilityEntries → Playwright.name e = "accessibility-test")
    as (accessibilityEntries & -> & Hacc').
  { destruct (succeeded accessibilityResult).
    - destruct (Hacc eq_refl) as [d ->]. eexists. split; [done |].
      by intros e ->%list_elem_of_singleton.
    - eexists. split; [done |]. by intros e ?%elem_of_nil. }
  cbn. split; [done |]. eexists. split; [done |]. split.
  - apply elem_of_app. right. by left.
  - intros entry Hin Hn.
    apply elem_of_app in Hin as [Hin | Hin].
    { apply Hvis in Hin. rewrite Hin in Hn.
      by apply visual_name_not_responsive in Hn. }
    apply elem_of_cons in Hin as [-> | Hin]; [done |].
    apply Hacc' in Hin. rewrite Hin in Hn. discriminate Hn.
Qed.

(** A browser whose navigation for the visual test times out, while the
    responsive capture and the accessibility scan go through. *)
Definition timed_out : string → option string → Playwright.Shot :=
  λ _ _, Playwright.ShotFails "Timeout 30000ms exceeded".

Definition three_shots : string → list Playwright.Viewport → Playwright.Responsive :=
  λ _ _, Playwright.ResponsiveTaken
           [(1, PlaywrightProps.white); (2, PlaywrightProps.white);
            (3, PlaywrightProps.dotted)].

Definition one_problem : string → Playwright.Scan :=
  λ _, Playwright.ScanDone ["Image 1 is missing alt text"].

Lemma responsive_entry_always_passes_witness :
  testResults
    (executeVisualTestingWorkflow PlaywrightProps.slash_join PlaywrightProps.exact_match
       timed_out three_shots one_problem hero "http://localhost:3000"
       (RejectedWith "Network Error") 0 9 ∅).1.2
  = Some [Playwright.mkTestResult "responsive-design-test" true None None 0;
          Playwright.mkTestResult "accessibility-test" false
            (Some "Image 1 is missing alt text") None 0] ∧
  success
    (executeVisualTestingWorkflow PlaywrightProps.slash_join PlaywrightProps.exact_match
       timed_out three_shots one_problem hero "http://localhost:3000"
       (RejectedWith "Network Error") 0 9 ∅).1.1 = true.
Proof.
  split; [reflexivity |].
  apply (responsive_entry_always_passes PlaywrightProps.slash_join
           PlaywrightProps.exact_match timed_out three_shots one_problem hero
           "http://localhost:3000" (RejectedWith "Network Error") 0 9 ∅).
  reflexivity.
Defined.

End WorkflowProps.

(** * Further properties of the code *)

(** ** The browser context pool, further *)

Module PoolMore.
Import Pool PoolProps.

(** A second call made before anything else happens finds what the first
    one left: it awaits the same thing and changes nothing. *)
Lemma getContext_call_again pw t pw1 :
  getContext_call pw = (t, pw1) → getContext_call pw1 = (t, pw1).
Proof.
  unfold getContext_call, initialize.
  destruct (browserPool pw) eqn:Hpool.
  - intros [= <- <-]. by rewrite Hpool.
  - destruct (initializationPromise pw) eqn:Hinit.
    + intros [= <- <-]. by rewrite Hpool, Hinit.
    + intros [= <- <-]. done.
Qed.

(** X1. However many callers call [getContext()] before the launch of the
    engine settles, at most one launch is requested for them, and they
    all await the same thing. *)
Theorem concurrent_callers_share_one_launch (n : nat) (pw : Playwright) (tasks : list Task) :
  ∃ awaited,
    (run (replicate n Call) (pw, tasks)).2 = tasks ++ replicate n (AwaitInitialize awaited) ∧
    (launches (run (replicate n Call) (pw, tasks)).1 ≤ S (launches pw))%nat ∧
    (is_Some (browserPool pw) →
     launches (run (replicate n Call) (pw, tasks)).1 = launches pw).
Proof.
  destruct n as [|n].
  { exists None. cbn. rewrite app_nil_r. split_and!; [done | lia | done]. }
  destruct (getContext_call pw) as [t pw1] eqn:Hcall.
  assert (∃ awaited, t = AwaitInitialize awaited ∧
            (launches pw1 ≤ S (launches pw))%nat ∧
            (is_Some (browserPool pw) → launches pw1 = launches pw))
    as (awaited & -> & Hle & Hsame).
  { unfold getContext_call, initialize, launches in *.
    destruct (browserPool pw); [| destruct (initializationPromise pw)];
      injection Hcall as <- <-; eexists; (split; [done |]); cbn;
      rewrite ?length_app; cbn; split; try lia; try done. }
  exists awaited.
  assert (∀ m ts, run (replicate m Call) (pw1, ts)
                  = (pw1, ts ++ replicate m (AwaitInitialize awaited))) as Hrest.
  { apply getContext_call_again in Hcall.
    induction m as [|m IH]; intros ts; cbn.
    - by rewrite app_nil_r.
    - unfold run in IH. rewrite Hcall, IH, <- app_assoc. done. }
  cbn [replicate run foldl step]. rewrite Hcall.
  fold (run (replicate n Call) (pw1, tasks ++ [AwaitInitialize awaited])).
  rewrite Hrest, <- app_assoc. cbn. done.
Qed.

Lemma concurrent_callers_share_one_launch_witness :
  launches (run (replicate 4 Call)
              (run [Call; LaunchSettles 0 None] (fresh, []))).1 = 1%nat.
Proof.
  destruct (concurrent_callers_share_one_launch 4
              (run [Call; LaunchSettles 0 None] (fresh, [])).1
              (run [Call; LaunchSettles 0 None] (fresh, [])).2) as (awaited & _ & _ & H).
  apply H. eexists. reflexivity.
Defined.

(** X2. When calls do not overlap the cap holds: at most five contexts
    are open, leased and idle together, and the counter of leases is the
    number of leases that are out. *)
Theorem sequential_calls_keep_the_cap (pw : Playwright) (leased : list nat) :
  sequential pw leased →
  Z.of_nat (length (live pw)) ≤ maxContexts ∧
  (Z.of_nat (length leased) ≤ maxContexts) ∧
  ∀ pool, browserPool pw = Some pool → activeContexts pool = Z.of_nat (length leased).
Proof.
  intros H%sequential_invariant. unfold pool_invariant in H.
  destruct (browserPool pw) as [pool|].
  - destruct H as (Hact & Hlive & Hcap).
    apply Permutation_length in Hlive as Hlen. rewrite length_app in Hlen.
    split_and!; [done | lia |]. by intros ? [= <-].
  - destruct H as [-> ->]. done.
Qed.

Lemma sequential_calls_keep_the_cap_witness :
  Z.of_nat (length (live (getContext_alone fresh).2)) ≤ maxContexts.
Proof.
  apply (sequential_calls_keep_the_cap (getContext_alone fresh).2 [0%nat]).
  apply (seq_acquire fresh [] 0%nat); [apply seq_fresh | reflexivity].
Defined.

(** The pool after a launch that failed: no pool, the promise of that
    launch in place and rejected, and no launch on its way. *)
Definition launch_failed (launch : nat) (reason : string) (pw : Playwright) : Prop :=
  browserPool pw = None ∧
  initializationPromise pw = Some launch ∧
  launched pw !! launch = Some (Rejected reason) ∧
  Pending ∉ launched pw.

(** No event but [close()] changes that, or requests a launch. *)
Lemma launch_failed_step launch reason ev pw tasks :
  ev ≠ Close → launch_failed launch reason pw →
  launch_failed launch reason (step ev (pw, tasks)).1 ∧
  launched (step ev (pw, tasks)).1 = launched pw.
Proof.
  intros Hev (Hpool & Hinit & Hl & Hpending).
  assert (∀ pw', browserPool pw' = None →
            initializationPromise pw' = initializationPromise pw →
            launched pw' = launched pw →
            launch_failed launch reason pw' ∧ launched pw' = launched pw) as Hkept.
  { intros pw' H1 H2 H3. unfold launch_failed. by rewrite H1, H2, H3. }
  destruct ev as [|l outcome|i|context|]; cbn; [| | | | done].
  - unfold getContext_call, initialize. rewrite Hpool, Hinit. cbn. by apply Hkept.
  - unfold launch_settles.
    destruct (launched pw !! l) as [[| |]|] eqn:Hlook; try by apply Hkept.
    destruct Hpending. by apply list_elem_of_lookup_2 in Hlook.
  - destruct (tasks !! i) as [t|]; [| by apply Hkept].
    assert (launch_failed launch reason (resume t pw).2
            ∧ launched (resume t pw).2 = launched pw) as Hresume.
    { destruct t as [[l|]| | | |]; cbn; unfold getContext_body;
        rewrite ?Hpool; cbn; try by apply Hkept.
      - by destruct (launched pw !! l) as [[| |]|]; cbn; apply Hkept.
      - by apply (Hkept (mkPlaywright None _ _ _ _)). }
    by destruct (resume t pw).
  - unfold releaseContext. rewrite Hpool. by apply Hkept.
Qed.

Lemma launch_failed_run launch reason evs pw tasks :
  Close ∉ evs → launch_failed launch reason pw →
  launch_failed launch reason (run evs (pw, tasks)).1 ∧
  launched (run evs (pw, tasks)).1 = launched pw.
Proof.
  revert pw tasks. induction evs as [|ev evs IH]; intros pw tasks Hclose Hfailed;
    [done |].
  apply not_elem_of_cons in Hclose as [Hev Hclose].
  destruct (launch_failed_step launch reason ev pw tasks) as [Hstep Hsame];
    [done | done |].
  cbn [run foldl]. destruct (step ev (pw, tasks)) as [pw' tasks'].
  fold (run evs (pw', tasks')).
  destruct (IH pw' tasks' Hclose Hstep) as [Hrun Hsame'].
  split; [done |]. by rewrite Hsame'.
Qed.

(** X3. A launch that failed is not tried again. When the launch that a
    first [getContext()] requested fails, with no other launch on its
    way, the rejected promise stays in place whatever happens next but
    a [close()]: calls, resumed calls, releases, launches that settle.
    No launch is requested, every [getContext()] throws the reason of
    the failed launch, and only [close()] clears the promise, after
    which a call requests a launch again. *)
Theorem failed_launch_is_kept (pw : Playwright) (tasks : list Task) (reason : string)
    (evs : list Event) :
  browserPool pw = None →
  initializationPromise pw = None →
  Pending ∉ launched pw →
  Close ∉ evs →
  let failed := run [Call; LaunchSettles (launches pw) (Some reason)] (pw, tasks) in
  let later := (run evs failed).1 in
  browserPool later = None ∧
  initializationPromise later = Some (launches pw) ∧
  launched later = launched pw ++ [Rejected reason] ∧
  getContext_alone later = (Some (inl reason), later) ∧
  initializationPromise (close later) = None ∧
  launches (getContext_call (close later)).2 = S (launches later).
Proof.
  intros Hpool Hinit Hpending Hclose. cbv zeta.
  assert (∃ pw1 tasks1,
            run [Call; LaunchSettles (launches pw) (Some reason)] (pw, tasks)
            = (pw1, tasks1) ∧
            launched pw1 = launched pw ++ [Rejected reason] ∧
            launch_failed (launches pw) reason pw1)
    as (pw1 & tasks1 & -> & Hlaunched & Hfailed).
  { cbn. unfold getContext_call, initialize. rewrite Hpool, Hinit. cbn.
    unfold launch_settles, launches. cbn.
    rewrite lookup_app_r, Nat.sub_diag by done. cbn.
    eexists _, _. split; [done |].
    assert (<[length (launched pw) := Rejected reason]> (launched pw ++ [Pending])
            = launched pw ++ [Rejected reason]) as Hins.
    { rewrite insert_app_r_alt, Nat.sub_diag by done. done. }
    cbn. rewrite Hins. split; [done |]. split_and!; cbn; try done.
    - rewrite lookup_app_r, Nat.sub_diag by done. done.
    - intros [? | [? | ?%elem_of_nil]%elem_of_cons]%elem_of_app; done. }
  destruct (launch_failed_run (launches pw) reason evs pw1 tasks1 Hclose Hfailed)
    as [(Hp & Hi & Hl & _) Hsame].
  set (later := (run evs (pw1, tasks1)).1) in *.
  split_and!; [done | done | by rewrite Hsame | | |].
  - unfold getContext_alone, getContext_call, initialize.
    rewrite Hp, Hi. unfold launch_settles. rewrite Hl. cbn. by rewrite Hl.
  - unfold close. by rewrite Hp.
  - unfold close, getContext_call, initialize, launches. rewrite Hp. cbn.
    rewrite length_app. cbn. lia.
Qed.

Lemma failed_launch_is_kept_witness :
  getContext_alone
    (run [Call; Resume 0; LaunchSettles 0 None; Release 3; Call; Resume 1]
       (run [Call; LaunchSettles 0 (Some "spawn chromium ENOENT"%string)] (fresh, []))).1
  = (Some (inl "spawn chromium ENOENT"%string),
     (run [Call; Resume 0; LaunchSettles 0 None; Release 3; Call; Resume 1]
        (run [Call; LaunchSettles 0 (Some "spawn chromium ENOENT"%string)]
           (fresh, []))).1).
Proof.
  destruct (failed_launch_is_kept fresh [] "spawn chromium ENOENT"
              [Call; Resume 0; LaunchSettles 0 None; Release 3; Call; Resume 1])
    as (_ & _ & _ & H & _).
  - reflexivity.
  - reflexivity.
  - by intros ?%elem_of_nil.
  - intros H. repeat (apply elem_of_cons in H as [H | H]; [discriminate H |]).
    by apply elem_of_nil in H.
  - exact H.
Defined.

(** X4. With no idle context and the counter at the cap, a call opens no
    context: it waits at its timer for as long as no context is idle.
    Once a lease is given back, the next turn of the timer calls
    [getContext()] anew, and that call is handed the context given back. *)
Theorem caller_waits_for_a_release (pw : Playwright) (pool : BrowserPool) (context : nat) :
  browserPool pw = Some pool →
  contexts pool = [] →
  maxContexts ≤ activeContexts pool →
  let '(t, pw1) := getContext_call pw in
  resume t pw1 = (AwaitTimer, pw) ∧
  resume AwaitTimer pw = (AwaitTimer, pw) ∧
  let pw2 := releaseContext context pw in
  resume AwaitTimer pw2 = (AwaitInitialize None, pw2) ∧
  (resume (AwaitInitialize None) pw2).1 = Returned context ∧
  live (resume (AwaitInitialize None) pw2).2 = live pw ∧
  browserPool (resume (AwaitInitialize None) pw2).2
  = Some (mkPool (browser pool) [] (activeContexts pool)).
Proof.
  intros Hpool Hidle Hcap.
  unfold getContext_call, initialize. rewrite Hpool. cbn.
  unfold getContext_body. rewrite Hpool, Hidle. cbn.
  destruct (Z.ltb_spec (activeContexts pool) maxContexts); [lia |].
  unfold releaseContext, getContext_call, initialize.
  rewrite Hpool, Hidle. cbn. split_and!; try done.
  f_equal. f_equal. lia.
Qed.

Definition at_the_cap : Playwright :=
  mkPlaywright (Some (mkPool 0 [] 5)) (Some 0%nat) [Resolved] [0; 1; 2; 3; 4]%nat 5.

Lemma caller_waits_for_a_release_witness :
  resume AwaitTimer at_the_cap = (AwaitTimer, at_the_cap) ∧
  (resume (AwaitInitialize None) (releaseContext 3 at_the_cap)).1 = Returned 3.
Proof.
  pose proof (caller_waits_for_a_release at_the_cap (mkPool 0 [] 5) 3
                eq_refl eq_refl ltac:(vm_compute; discriminate)) as H.
  cbn in H. destruct H as (_ & H1 & _ & H2 & _). split; [exact H1 | exact H2].
Defined.

End PoolMore.

Module PoolReuse.
Import Pool.

(** X5. A context given back is handed out again before any new context
    is opened, the last one given back first; handing it out opens no
    context and requests no launch, and the counter of leases is back to
    what it was before the release. *)
Theorem released_context_is_reused (pw : Playwright) (pool : BrowserPool)
    (first second : nat) :
  browserPool pw = Some pool →
  let r := getContext_alone (releaseContext second (releaseContext first pw)) in
  r.1 = Some (inr second) ∧
  launches r.2 = launches pw ∧ live r.2 = live pw ∧
  next_context r.2 = next_context pw ∧
  browserPool r.2
  = Some (mkPool (browser pool) (contexts pool ++ [first]) (activeContexts pool - 1)).
Proof.
  intros Hpool. unfold getContext_alone, getContext_call, initialize, releaseContext.
  rewrite Hpool. cbn. unfold getContext_body. cbn.
  unfold pop. rewrite reverse_app. cbn.
  replace (rev_append (reverse (contexts pool ++ [first])) [])
    with (contexts pool ++ [first]) by (symmetry; apply reverse_involutive).
  split_and!; try done. do 2 f_equal. lia.
Qed.

Lemma released_context_is_reused_witness :
  (getContext_alone
     (releaseContext 4 (releaseContext 2 PoolMore.at_the_cap))).1 = Some (inr 4%nat).
Proof.
  apply (released_context_is_reused PoolMore.at_the_cap (mkPool 0 [] 5) 2 4).
  reflexivity.
Defined.

End PoolReuse.

(** ** The source-hosting adapter, further *)

Module GitHubMore.
Import GitHub GitHubProps.

Open Scope string_scope.

Section service.
Variable fault : nat → option string.

Lemma request_objects {A} (body : Api A) r res r' :
  (∀ r0 res0 r0', body r0 = (res0, r0') → objects r0' = objects r0) →
  request fault body r = (res, r') → objects r' = objects r.
Proof.
  intros Hbody. unfold request. destruct (fault (served r)).
  - by intros [= <- <-].
  - intros H. by apply Hbody in H.
Qed.

Lemma getRef_objects ref r res r' :
  getRef fault ref r = (res, r') → objects r' = objects r.
Proof.
  apply request_objects. intros r0 res0 r0' H.
  destruct (refs r0 !! ("refs/" ++ ref)); by injection H as <- <-.
Qed.

Lemma getCommit_objects sha r res r' :
  getCommit fault sha r = (res, r') → objects r' = objects r.
Proof.
  apply request_objects. intros r0 res0 r0' H.
  destruct (objects r0 !! sha) as [[]|]; by injection H as <- <-.
Qed.

Lemma getCommit_inr_object sha r t r' :
  getCommit fault sha r = (inr t, r') →
  ∃ parents message, objects r !! sha = Some (Commit t parents message).
Proof.
  intros H%request_inr. cbn in H.
  destruct (objects r !! sha) as [[| |t' ps m]|]; try done.
  injection H as <- <-. by eexists _, _.
Qed.

(** The blob requests add blobs to the object store and nothing else. *)
Lemma createBlobs_objects files r :
  ∃ added,
    objects (createBlobs fault files r).2 = (objects r ++ added)%list ∧
    Forall (λ o, ∃ content, o = Blob content) added.
Proof.
  revert r. induction files as [|file files IH]; intros r.
  { exists []. cbn. by rewrite app_nil_r. }
  cbn [createBlobs]. unfold createBlob at 1, request, store.
  destruct (fault (served r)); cbn.
  - destruct (IH (mkRepo (objects r) (refs r) (moves r) (S (served r))))
      as (added & Ho & Hb). exists added. done.
  - match goal with |- context [createBlobs fault files ?r1] =>
      destruct (IH r1) as (added & Ho & Hb);
      destruct (createBlobs fault files r1) as [[msg|blobs] r2] end;
      cbn in *; exists (Blob (file_content file) :: added);
      rewrite Ho, <- app_assoc; (split; [done |]); constructor; eauto.
Qed.

(** The commit sequence, with the tree it starts from: on success the
    new tree is the tree of the old head with the blobs of the files put
    in. *)
Lemma createCommit_try_tree branch files message r c r' :
  createCommit_try fault branch files message r = (inr c, r') →
  ∃ old base blobs,
    refs r !! ("refs/heads/" ++ branch) = Some old ∧
    head_tree r branch = Some base ∧
    blobs.*1 = path <$> files ∧
    head_tree r' branch = Some (foldl (λ t e, <[e.1 := e.2]> t) base blobs) ∧
    refs r' = <["refs/heads/" ++ branch := c]> (refs r) ∧
    (∃ t, objects r' !! c = Some (Commit t [old] message)).
Proof.
  intros Htry.
  pose proof (createCommit_try_spec fault branch files message r) as Hspec.
  rewrite Htry in Hspec.
  destruct Hspec as (_ & old' & t' & base' & blobs' & Hold' & _ & _ & Ht' & Hc' & HR & _ & _).
  revert Htry.
  unfold createCommit_try, mbind, api_mbind, api_bind, mret, api_mret, api_ret.
  destruct (getRef fault ("heads/" ++ branch) r) as [[msg|old] r1] eqn:H1; [done |].
  destruct (getCommit fault old r1) as [[msg|t0] r2] eqn:H2; [done |].
  pose proof (createBlobs_spec fault files r2) as [_ C3].
  destruct (createBlobs_objects files r2) as (added & Hadded & Hblob).
  destruct (createBlobs fault files r2) as [[msg|blobs] r3] eqn:H3; [done |].
  cbn in C3, Hadded. destruct (C3 blobs eq_refl) as [_ Hblobs]. clear C3.
  destruct (createTree fault t0 blobs r3) as [[msg|t] r4] eqn:H4; [done |].
  destruct (createCommitObject fault message t [old] r4) as [[msg|c'] r5] eqn:H5; [done |].
  destruct (updateRef fault ("heads/" ++ branch) c' r5) as [[msg|[]] r6] eqn:E6; [done |].
  intros [= <- <-].
  apply getRef_inr in H1 as Hold.
  change ("refs/" ++ "heads/" ++ branch) with ("refs/heads/" ++ branch) in Hold.
  assert (old' = old) as -> by congruence.
  destruct (getCommit_inr_object _ _ _ _ H2) as (ps & m & Hcommit).
  rewrite (getRef_objects _ _ _ _ H1) in Hcommit.
  destruct (createTree_inr _ _ _ _ _ _ H4) as (base & Hbase & Ht).
  assert (objects r !! t0 = Some (Tree base)) as Hbase0.
  { rewrite Hadded, (getCommit_objects _ _ _ _ H2), (getRef_objects _ _ _ _ H1) in Hbase.
    apply lookup_app_Some in Hbase as [? | [_ Hin]]; [done |].
    apply list_elem_of_lookup_2 in Hin.
    rewrite Forall_forall in Hblob. by destruct (Hblob _ Hin). }
  assert (blobs.*1 = path <$> files) as Hpaths.
  { clear -Hblobs. induction Hblobs as [|f b fs bs [Hp _] _ IH]; [done |].
    cbn. by rewrite Hp, IH. }
  destruct (createCommitObject_inr _ _ _ _ _ _ _ H5) as [Hc Hlen].
  pose proof (updateRef_spec fault ("heads/" ++ branch) c' r5) as H6.
  rewrite E6 in H6. destruct H6 as (_ & _ & _ & _ & _ & O6).
  destruct (createCommitObject_quiet _ _ _ _ _ _ _ H5) as [(_ & _ & P5 & _) _].
  exists old, base, blobs. split_and!; try done.
  - unfold head_tree. rewrite Hold. cbn. by rewrite Hcommit, Hbase0.
  - unfold head_tree. rewrite HR, lookup_insert_eq. cbn. rewrite O6, Hc.
    by rewrite (prefix_lookup_Some _ _ _ _ Ht P5).
  - by exists t'.
Qed.
End service.

Section adapter.
Variable fault : nat → option string.

(** On success every file with a path of its own is at the head. *)
Lemma createCommit_files branch files message repo :
  success (createCommit fault branch files message repo).1 = true →
  NoDup (path <$> files) →
  ∀ f, f ∈ files →
    head_file (createCommit fault branch files message repo).2 branch (path f)
    = Some (file_content f).
Proof.
  unfold createCommit.
  pose proof (createCommit_try_spec fault branch files message repo) as H.
  destruct (createCommit_try fault branch files message repo) as [[msg|c] r'] eqn:E;
    cbn; [done |]. intros _ Hnd f Hf.
  destruct H as [_ (old & t & base & blobs & _ & _ & Hblobs & Ht & Hc & HR & _ & _)].
  assert (NoDup blobs.*1) as Hnd'.
  { assert (blobs.*1 = path <$> files) as ->; [| done].
    clear -Hblobs. induction Hblobs as [|f' b fs bs [Hp _] _ IH]; [done |].
    cbn. by rewrite Hp, IH. }
  assert (∃ s, (path f, s) ∈ blobs ∧ objects r' !! s = Some (Blob (file_content f)))
    as (s & Hin & Hs).
  { clear -Hblobs Hf. induction Hblobs as [|f' [p s] fs bs [Hp Hb] _ IH].
    - by apply elem_of_nil in Hf.
    - apply elem_of_cons in Hf as [-> | Hf].
      + exists s. cbn in *. subst p. split; [by left | done].
      + destruct (IH Hf) as (s' & ? & ?). exists s'. split; [by right | done]. }
  unfold head_file, head_tree. rewrite HR, lookup_insert_eq. cbn.
  rewrite Hc, Ht. cbn.
  rewrite (foldl_insert_in blobs base (path f) s Hnd' Hin). cbn.
  by rewrite Hs.
Qed.

(** A failed commit leaves every reference where it was. *)
Lemma createCommit_failure_refs branch files message repo :
  success (createCommit fault branch files message repo).1 = false →
  refs (createCommit fault branch files message repo).2 = refs repo ∧
  data (createCommit fault branch files message repo).1 = None.
Proof.
  unfold createCommit.
  pose proof (createCommit_try_spec fault branch files message repo) as H.
  destruct (createCommit_try fault branch files message repo) as [[msg|c] r'] eqn:E;
    cbn; [| done]. intros _. by destruct H as (? & _).
Qed.

(** A commit that succeeded has moved the reference of its branch to
    the commit it reports. *)
Lemma commit_refs branch files message repo :
  success (createCommit fault branch files message repo).1 = true →
  ∃ c,
    data (createCommit fault branch files message repo).1
    = Some (mkCommitData c message) ∧
    refs (createCommit fault branch files message repo).2
    = <["refs/heads/" ++ branch := c]> (refs repo).
Proof.
  unfold createCommit.
  pose proof (createCommit_try_spec fault branch files message repo) as H.
  destruct (createCommit_try fault branch files message repo) as [[msg|c] r'] eqn:E;
    cbn; [done |]. intros _.
  destruct H as [_ (old & t & base & blobs & _ & _ & _ & _ & _ & HR & _ & _)].
  by exists c.
Qed.

(** A branch that was created points where its base points. *)
Lemma createBranch_success branch baseBranch repo :
  success (createBranch fault branch baseBranch repo).1 = true →
  ∃ sha,
    refs repo !! ("refs/heads/" ++ baseBranch) = Some sha ∧
    refs repo !! ("refs/heads/" ++ branch) = None ∧
    refs (createBranch fault branch baseBranch repo).2
    = <["refs/heads/" ++ branch := sha]> (refs repo).
Proof.
  unfold createBranch, mbind, api_mbind, api_bind, getRef, createRef, request.
  change ("refs/" ++ "heads/" ++ baseBranch) with ("refs/heads/" ++ baseBranch).
  destruct (fault (served repo)) as [msg|]; cbn; [done |].
  destruct (refs repo !! ("refs/heads/" ++ baseBranch)) as [sha|] eqn:Hbase; cbn;
    [| done].
  destruct (fault (S (served repo))) as [msg|]; cbn; [done |].
  destruct (refs repo !! ("refs/heads/" ++ branch)) as [existing|] eqn:Hkey; cbn;
    [done |].
  intros _. by exists sha.
Qed.
End adapter.

(** X6. A commit touches its own branch and the files it names, and
    nothing else: after a successful [createCommit] every other
    reference is where it was, every path that is not among the committed
    ones has in the new head tree the entry it had in the old one, every
    file of the old head at such a path is in the new head with the same
    content, and the only parent of the new head is the old head. *)
Theorem commit_keeps_the_rest (fault : nat → option string)
    (branch : string) (files : list FileEntry) (message : string) (repo : Repo) :
  let result := (createCommit fault branch files message repo).1 in
  let repo' := (createCommit fault branch files message repo).2 in
  success result = true →
  (∀ ref, ref ≠ "refs/heads/" ++ branch → refs repo' !! ref = refs repo !! ref) ∧
  (∃ base new,
     head_tree repo branch = Some base ∧ head_tree repo' branch = Some new ∧
     ∀ p, p ∉ path <$> files → new !! p = base !! p) ∧
  (∀ p content, p ∉ path <$> files →
     head_file repo branch p = Some content →
     head_file repo' branch p = Some content) ∧
  ∃ old c t,
    refs repo !! ("refs/heads/" ++ branch) = Some old ∧
    refs repo' !! ("refs/heads/" ++ branch) = Some c ∧
    objects repo' !! c = Some (Commit t [old] message).
Proof.
  cbv zeta. unfold createCommit.
  pose proof (createCommit_try_spec fault branch files message repo) as Hspec.
  destruct (createCommit_try fault branch files message repo) as [[msg|c] r'] eqn:E;
    cbn; [done |]. intros _.
  destruct Hspec as (_ & _ & _ & _ & _ & _ & _ & _ & _ & _ & _ & _ & HO).
  destruct (createCommit_try_tree fault _ _ _ _ _ _ E)
    as (old & base & blobs & Hold & Hbase & Hpaths & Hnew & HR & t & Hc).
  split_and!.
  - intros ref Hne. rewrite HR. by rewrite lookup_insert_ne.
  - eexists _, _. split_and!; [done | done |].
    intros p Hp. apply foldl_insert_notin. by rewrite Hpaths.
  - intros p content Hp. unfold head_file. rewrite Hbase, Hnew. cbn.
    rewrite foldl_insert_notin by (by rewrite Hpaths).
    destruct (base !! p) as [blob|] eqn:Hblob; [cbn | done].
    destruct (objects repo !! blob) eqn:Ho; [| done].
    by rewrite (prefix_lookup_Some _ _ _ _ Ho HO).
  - exists old, c, t. split_and!; [done | | done].
    rewrite HR. apply lookup_insert_eq.
Qed.

(** A repository with a file on two branches. *)
Definition readme_repo : Repo :=
  mkRepo [Blob "hello"; Tree {[ "README.md" := 0%nat ]}; Commit 1 [] "init"]
    {[ "refs/heads/main" := 2%nat; "refs/heads/feature" := 2%nat ]} [] 0.

Lemma commit_keeps_the_rest_witness :
  refs (createCommit (λ _, None) "feature" two_files "add Hero" readme_repo).2
    !! "refs/heads/main" = Some 2%nat ∧
  head_file (createCommit (λ _, None) "feature" two_files "add Hero" readme_repo).2
    "feature" "README.md" = Some "hello".
Proof.
  destruct (commit_keeps_the_rest (λ _, None) "feature" two_files "add Hero" readme_repo
              eq_refl) as (Hrefs & _ & Hfiles & _).
  split.
  - rewrite (Hrefs "refs/heads/main"); [reflexivity | discriminate].
  - apply Hfiles; [| reflexivity].
    apply (bool_decide_unpack _). vm_compute. exact I.
Defined.

(** X7. [createBranch] makes the new branch point at the commit the base
    branch points at and changes nothing else; it fails, leaving every
    reference where it was, when the branch exists already or when the
    base branch does not exist; it never adds an object or moves a
    reference. *)
Theorem branch_points_at_base (fault : nat → option string)
    (branch baseBranch : string) (repo : Repo) :
  let result := (createBranch fault branch baseBranch repo).1 in
  let repo' := (createBranch fault branch baseBranch repo).2 in
  let key := "refs/heads/" ++ branch in
  let baseKey := "refs/heads/" ++ baseBranch in
  (success result = true →
     ∃ sha, refs repo !! baseKey = Some sha ∧ refs repo !! key = None ∧
       refs repo' = <[key := sha]> (refs repo) ∧
       data result = Some (mkBranchData branch sha)) ∧
  (is_Some (refs repo !! key) → success result = false) ∧
  (refs repo !! baseKey = None → success result = false) ∧
  (success result = false → refs repo' = refs repo) ∧
  objects repo' = objects repo ∧ moves repo' = moves repo.
Proof.
  cbv zeta.
  unfold createBranch, mbind, api_mbind, api_bind, getRef, createRef, request.
  change ("refs/" ++ "heads/" ++ baseBranch) with ("refs/heads/" ++ baseBranch).
  destruct (fault (served repo)) as [msg|]; cbn.
  { split_and!; try done. }
  destruct (refs repo !! ("refs/heads/" ++ baseBranch)) as [sha|] eqn:Hbase; cbn;
    [| by split_and!].
  destruct (fault (S (served repo))) as [msg|]; cbn.
  { split_and!; try done. }
  destruct (refs repo !! ("refs/heads/" ++ branch)) as [existing|] eqn:Hkey; cbn.
  - split_and!; try done.
  - split_and!; try done.
    intros _. by exists sha.
Qed.

Lemma branch_points_at_base_witness :
  refs (createBranch (λ _, None) "feature/hero" "main" readme_repo).2
    !! "refs/heads/feature/hero" = Some 2%nat ∧
  success (createBranch (λ _, None) "feature" "main" readme_repo).1 = false.
Proof.
  split.
  - destruct (branch_points_at_base (λ _, None) "feature/hero" "main" readme_repo)
      as (H & _). destruct (H eq_refl) as (sha & Hbase & _ & -> & _).
    rewrite lookup_insert_eq, <- Hbase. reflexivity.
  - destruct (branch_points_at_base (λ _, None) "feature" "main" readme_repo)
      as (_ & H & _). apply H. eexists. reflexivity.
Defined.

End GitHubMore.

(** ** Screenshot comparison and the visual test, further *)

Module PlaywrightMore.
Import JsString JsNumber Playwright PlaywrightProps.

Open Scope string_scope.

(** Whether [pattern] occurs in [s]. *)
Fixpoint occurs (pattern s : string) : bool :=
  match strip_prefix pattern s with
  | Some _ => true
  | None =>
      match s with
      | "" => false
      | String _ s' => occurs pattern s'
      end
  end.

Lemma replace_first_absent pattern replacement s :
  occurs pattern s = false → replace_first pattern replacement s = s.
Proof.
  induction s as [|c s IH]; cbn.
  - by destruct (strip_prefix pattern "").
  - destruct (strip_prefix pattern (String c s)); [done |].
    intros H. by rewrite IH.
Qed.

Lemma strip_prefix_length pattern s rest :
  strip_prefix pattern s = Some rest →
  String.length s = (String.length pattern + String.length rest)%nat.
Proof.
  revert s. induction pattern as [|a p IH]; intros [|b s]; cbn; try done.
  - by intros [= <-].
  - by intros [= <-].
  - destruct (Ascii.eqb a b); [| done]. intros H%IH. lia.
Qed.

Lemma string_length_app (a b : string) :
  String.length (a ++ b) = (String.length a + String.length b)%nat.
Proof.
  induction a as [|c a IH]; [reflexivity |].
  change (S (String.length (a ++ b)) = S (String.length a + String.length b)).
  by f_equal.
Qed.

Lemma replace_first_length pattern replacement s :
  occurs pattern s = true →
  (String.length (replace_first pattern replacement s) + String.length pattern
   = String.length s + String.length replacement)%nat.
Proof.
  induction s as [|c s IH]; cbn.
  - destruct (strip_prefix pattern "") eqn:Hp; [| done].
    intros _. apply strip_prefix_length in Hp. rewrite string_length_app. cbn in *. lia.
  - destruct (strip_prefix pattern (String c s)) eqn:Hp.
    + intros _. apply strip_prefix_length in Hp. rewrite string_length_app. cbn in *. lia.
    + intros H. cbn. specialize (IH H). lia.
Qed.

(** X8. A comparison that cannot be made is refused and writes nothing:
    with a file missing the error is that one or both files do not
    exist, with images of different width or height it is that the
    dimensions differ, whatever the images hold; no failed comparison
    leaves a diff image. *)
Theorem comparison_refused
    (pixelmatch : list Z → list Z → Z → Z → float → Z * list Z)
    (basePath currentPath : string) (threshold : float) (fs : gmap string File) :
  let r := compareScreenshots pixelmatch basePath currentPath threshold fs in
  (success r.1 = false → r.2 = fs) ∧
  (fs !! basePath = None ∨ fs !! currentPath = None →
   r.1 = failed "One or both image files do not exist") ∧
  (∀ baseImage currentImage,
     fs !! basePath = Some (PngFile baseImage) →
     fs !! currentPath = Some (PngFile currentImage) →
     img_width baseImage ≠ img_width currentImage
     ∨ img_height baseImage ≠ img_height currentImage →
     r.1 = failed "Images have different dimensions").
Proof.
  cbv zeta. unfold compareScreenshots, write_file. split_and!.
  - destruct (fs !! basePath) as [[b|?|?]|]; destruct (fs !! currentPath) as [[c|?|?]|];
      try done.
    destruct (negb _ || negb _); [done |].
    destruct (pixelmatch _ _ _ _ _).
    by destruct (fs !! replace_first ".png" "-diff.png" currentPath) as [[| |]|].
  - intros [-> | Hc]; [done |]. rewrite Hc. by destruct (fs !! basePath).
  - intros b c -> -> Hdim.
    destruct (Z.eqb_spec (img_width b) (img_width c));
      destruct (Z.eqb_spec (img_height b) (img_height c)); cbn; try done.
    by destruct Hdim.
Qed.

Definition wide : Image := mkImage 4 1 (replicate 16 255).

Lemma comparison_refused_witness :
  (compareScreenshots exact_match "t-baseline.png" "t-current.png" 0.1
     (<["t-current.png" := PngFile wide]> two_shots)).1
  = failed "Images have different dimensions" ∧
  (compareScreenshots exact_match "t-baseline.png" "missing.png" 0.1 two_shots).1
  = failed "One or both image files do not exist".
Proof.
  split.
  - destruct (comparison_refused exact_match "t-baseline.png" "t-current.png" 0.1
                (<["t-current.png" := PngFile wide]> two_shots)) as (_ & _ & H).
    apply (H white wide); [reflexivity | reflexivity | left; discriminate].
  - destruct (comparison_refused exact_match "t-baseline.png" "missing.png" 0.1
                two_shots) as (_ & H & _).
    apply H. right. reflexivity.
Defined.

(** X9. The diff image of a comparison goes to the path of the current
    screenshot with its first [.png] replaced by [-diff.png]. When
    nothing can be written there, as when that [.png] is in the name of
    a directory and no directory has the new name, the comparison fails
    with the error of the file system and writes nothing. Otherwise the
    diff image is written there and nowhere else; the path is another
    one than that of the current screenshot, which stays, when the
    latter holds a [.png], and the diff image is written over the
    current screenshot when it holds none. *)
Theorem diff_image_path
    (pixelmatch : list Z → list Z → Z → Z → float → Z * list Z)
    (basePath currentPath : string) (threshold : float)
    (fs : gmap string File) (baseImage currentImage : Image) :
  fs !! basePath = Some (PngFile baseImage) →
  fs !! currentPath = Some (PngFile currentImage) →
  img_width baseImage = img_width currentImage →
  img_height baseImage = img_height currentImage →
  let r := compareScreenshots pixelmatch basePath currentPath threshold fs in
  let diffPath := replace_first ".png" "-diff.png" currentPath in
  let diff :=
    PngFile (mkImage (img_width baseImage) (img_height baseImage)
               (pixelmatch (img_data baseImage) (img_data currentImage)
                  (img_width baseImage) (img_height baseImage) threshold).2) in
  (occurs ".png" currentPath = true → diffPath ≠ currentPath) ∧
  (occurs ".png" currentPath = false → diffPath = currentPath) ∧
  match fs !! diffPath with
  | Some (Blocked reason) => r = (failed reason, fs)
  | _ =>
      success r.1 = true ∧
      r.2 = <[diffPath := diff]> fs ∧
      r.2 !! currentPath
      = Some (if occurs ".png" currentPath then PngFile currentImage else diff)
  end.
Proof.
  intros Hb Hc Hw Hh. cbv zeta.
  assert (occurs ".png" currentPath = true →
          replace_first ".png" "-diff.png" currentPath ≠ currentPath) as Hne.
  { intros Hocc Heq. apply (replace_first_length _ "-diff.png") in Hocc.
    rewrite Heq in Hocc. cbn in Hocc. lia. }
  split; [done |]. split; [by apply replace_first_absent |].
  rewrite (compareScreenshots_same_dimensions pixelmatch basePath currentPath threshold
             fs baseImage currentImage Hb Hc Hw Hh). cbv zeta.
  assert (<[replace_first ".png" "-diff.png" currentPath :=
              PngFile (mkImage (img_width baseImage) (img_height baseImage)
                         (pixelmatch (img_data baseImage) (img_data currentImage)
                            (img_width baseImage) (img_height baseImage) threshold).2)]>
            fs !! currentPath
          = Some (if occurs ".png" currentPath then PngFile currentImage
                  else PngFile (mkImage (img_width baseImage) (img_height baseImage)
                         (pixelmatch (img_data baseImage) (img_data currentImage)
                            (img_width baseImage) (img_height baseImage) threshold).2)))
    as Hcur.
  { destruct (occurs ".png" currentPath) eqn:Hocc.
    - by rewrite lookup_insert_ne by (by apply Hne).
    - rewrite replace_first_absent by done. apply lookup_insert_eq. }
  by destruct (fs !! replace_first ".png" "-diff.png" currentPath) as [[| |]|].
Qed.

(** A baseline directory with [.png] in its name: the diff image of a
    screenshot in it belongs in a directory that is not there. *)
Definition shots_in_png_dir : gmap string File :=
  {[ "shots.png/t-baseline.png" := PngFile white;
     "shots.png/t-current.png" := PngFile dotted;
     "shots-diff.png/t-current.png" :=
       Blocked "ENOENT: no such file or directory, open 'shots-diff.png/t-current.png'" ]}.

Lemma diff_image_path_witness :
  (compareScreenshots exact_match "t-baseline.png" "t-current.png" 0.1 two_shots).2
    !! "t-current.png" = Some (PngFile dotted) ∧
  (compareScreenshots exact_match "t-baseline.png" "shot"
     0.1 (<["shot" := PngFile dotted]> two_shots)).2 !! "shot"
  = Some (PngFile (mkImage 2 2 (img_data white))) ∧
  compareScreenshots exact_match "shots.png/t-baseline.png" "shots.png/t-current.png"
    0.1 shots_in_png_dir
  = (failed "ENOENT: no such file or directory, open 'shots-diff.png/t-current.png'",
     shots_in_png_dir).
Proof.
  split_and!.
  - pose proof (diff_image_path exact_match "t-baseline.png" "t-current.png" 0.1
                  two_shots white dotted eq_refl eq_refl eq_refl eq_refl) as (_ & _ & H).
    destruct H as (_ & _ & H). exact H.
  - pose proof (diff_image_path exact_match "t-baseline.png" "shot" 0.1
                  (<["shot" := PngFile dotted]> two_shots) white dotted
                  eq_refl eq_refl eq_refl eq_refl) as (_ & _ & H).
    destruct H as (_ & _ & H). exact H.
  - pose proof (diff_image_path exact_match "shots.png/t-baseline.png"
                  "shots.png/t-current.png" 0.1 shots_in_png_dir white dotted
                  eq_refl eq_refl eq_refl eq_refl) as (_ & _ & H).
    exact H.
Defined.

(** X10. With a baseline of the dimensions of the screenshot, the visual
    test compares the two at the threshold 0.1. When the diff image can
    be written, the test has passed exactly when the similarity is at
    least 90, and the comparison is attached to the result. When it
    cannot, the test has not passed, carries the error of the file
    system and no comparison, and only the screenshot is written. *)
Theorem visual_test_passes_from_ninety
    (pixelmatch : list Z → list Z → Z → Z → float → Z * list Z)
    (join : string → string → string) (shoot : string → option string → Shot)
    (testName url : string) (selector : option string) (baselineDir : string)
    (startTime endTime : Z) (fs : gmap string File) (img baseline : Image) :
  let currentPath := join baselineDir (testName ++ "-current.png") in
  let basePath := join baselineDir (testName ++ "-baseline.png") in
  let diffPath := replace_first ".png" "-diff.png" currentPath in
  let run :=
    runVisualTest pixelmatch join shoot testName url selector baselineDir
      startTime endTime fs in
  shoot url selector = ShotTaken img →
  currentPath ≠ "" →
  basePath ≠ currentPath →
  fs !! basePath = Some (PngFile baseline) →
  img_width baseline = img_width img →
  img_height baseline = img_height img →
  match <[currentPath := PngFile img]> fs !! diffPath with
  | Some (Blocked reason) =>
      run = (ok (mkTestResult testName false
                   (if nonempty reason then Some reason else None) None
                   (endTime - startTime)),
             <[currentPath := PngFile img]> fs)
  | _ =>
      ∃ c,
        run.1 = ok (mkTestResult testName (passed c) None (Some [c])
                      (endTime - startTime)) ∧
        baseImagePath c = basePath ∧ currentImagePath c = currentPath ∧
        diffImagePath c = diffPath ∧
        (passed c = true ↔ (90 <=? similarity c)%float = true)
  end.
Proof.
  cbv zeta. intros Hshot Hne Hdiff Hbase Hw Hh.
  unfold runVisualTest, captureScreenshot. rewrite Hshot.
  destruct (join baselineDir (testName ++ "-current.png")) as [|c p] eqn:Hcur;
    [by destruct Hne |].
  cbn -[replace_first compareScreenshots].
  assert (<[String c p := PngFile img]> fs
            !! join baselineDir (testName ++ "-baseline.png")
          = Some (PngFile baseline)) as Hbase1
    by (by rewrite lookup_insert_ne).
  rewrite Hbase1.
  pose proof (compareScreenshots_same_dimensions pixelmatch
                (join baselineDir (testName ++ "-baseline.png")) (String c p) 0.1
                (<[String c p := PngFile img]> fs) baseline img) as Hcmp.
  rewrite lookup_insert_eq in Hcmp.
  specialize (Hcmp Hbase1 eq_refl Hw Hh). cbv zeta in Hcmp. rewrite Hcmp.
  destruct (<[String c p := PngFile img]> fs
              !! replace_first ".png" "-diff.png" (String c p)) as [[| |reason]|];
    cbn -[replace_first].
  1,2,4: eexists (mkComparison _ _ _ _ _ _); split; [reflexivity |];
    cbn -[replace_first]; by split_and!.
  by destruct reason.
Qed.

Definition one_baseline : gmap string File :=
  {[ "out/Hero-baseline.png" := PngFile white ]}.

(** The same in a directory with [.png] in its name. *)
Definition baseline_in_png_dir : gmap string File :=
  {[ "out.png/Hero-baseline.png" := PngFile white;
     "out-diff.png/Hero-current.png" :=
       Blocked "ENOENT: no such file or directory, open 'out-diff.png/Hero-current.png'" ]}.

Lemma visual_test_passes_from_ninety_witness :
  (∃ c,
     (runVisualTest exact_match slash_join (λ _ _, ShotTaken dotted)
        "Hero" "http://localhost:3000" None "out" 0 7 one_baseline).1
     = ok (mkTestResult "Hero" (passed c) None (Some [c]) 7) ∧
     passed c = false) ∧
  (runVisualTest exact_match slash_join (λ _ _, ShotTaken dotted)
     "Hero" "http://localhost:3000" None "out.png" 0 7 baseline_in_png_dir).1
  = ok (mkTestResult "Hero" false
          (Some "ENOENT: no such file or directory, open 'out-diff.png/Hero-current.png'")
          None 7).
Proof.
  split.
  - pose proof (visual_test_passes_from_ninety exact_match slash_join
                  (λ _ _, ShotTaken dotted) "Hero" "http://localhost:3000" None "out" 0 7
                  one_baseline dotted white eq_refl ltac:(discriminate)
                  ltac:(discriminate) eq_refl eq_refl eq_refl) as H.
    destruct H as (c & Hc & _ & _ & _ & Hp).
    exists c. split; [exact Hc |].
    injection Hc as Hpassed _. rewrite <- Hpassed. reflexivity.
  - pose proof (visual_test_passes_from_ninety exact_match slash_join
                  (λ _ _, ShotTaken dotted) "Hero" "http://localhost:3000" None "out.png"
                  0 7 baseline_in_png_dir dotted white eq_refl ltac:(discriminate)
                  ltac:(discriminate) eq_refl eq_refl eq_refl) as H.
    exact (f_equal fst H).
Defined.

(** X11. With a baseline of other dimensions than the screenshot, the
    visual test does not fail as a call: it returns a result whose test
    has not passed and carries the error of the comparison, with no
    comparison attached; the baseline is kept and no diff image is
    written. *)
Theorem visual_test_with_other_dimensions
    (pixelmatch : list Z → list Z → Z → Z → float → Z * list Z)
    (join : string → string → string) (shoot : string → option string → Shot)
    (testName url : string) (selector : option string) (baselineDir : string)
    (startTime endTime : Z) (fs : gmap string File) (img baseline : Image) :
  let currentImagePath := join baselineDir (testName ++ "-current.png") in
  let baseImagePath := join baselineDir (testName ++ "-baseline.png") in
  shoot url selector = ShotTaken img →
  currentImagePath ≠ "" →
  baseImagePath ≠ currentImagePath →
  fs !! baseImagePath = Some (PngFile baseline) →
  img_width baseline ≠ img_width img ∨ img_height baseline ≠ img_height img →
  runVisualTest pixelmatch join shoot testName url selector baselineDir
    startTime endTime fs
  = (ok (mkTestResult testName false (Some "Images have different dimensions") None
           (endTime - startTime)),
     <[currentImagePath := PngFile img]> fs).
Proof.
  cbv zeta. intros Hshot Hne Hdiff Hbase Hdim.
  unfold runVisualTest, captureScreenshot. rewrite Hshot.
  destruct (join baselineDir (testName ++ "-current.png")) as [|c p] eqn:Hcur; [done |].
  cbn. rewrite lookup_insert_ne by done. rewrite Hbase.
  unfold compareScreenshots.
  rewrite lookup_insert_ne, lookup_insert_eq by done. rewrite Hbase.
  destruct (Z.eqb_spec (img_width baseline) (img_width img));
    destruct (Z.eqb_spec (img_height baseline) (img_height img)); cbn; try done.
  by destruct Hdim.
Qed.

Lemma visual_test_with_other_dimensions_witness :
  (runVisualTest exact_match slash_join (λ _ _, ShotTaken wide)
     "Hero" "http://localhost:3000" None "out" 0 7
     {[ "out/Hero-baseline.png" := PngFile white ]}).1
  = ok (mkTestResult "Hero" false (Some "Images have different dimensions") None 7).
Proof.
  rewrite (visual_test_with_other_dimensions exact_match slash_join
             (λ _ _, ShotTaken wide) "Hero" "http://localhost:3000" None "out" 0 7
             {[ "out/Hero-baseline.png" := PngFile white ]} wide white);
    [reflexivity | reflexivity | discriminate | discriminate | reflexivity
    | left; discriminate].
Defined.

End PlaywrightMore.

(** ** The workflows, further *)

Module WorkflowMore.
Import JsString JsNumber Workflow WorkflowProps.

Open Scope string_scope.

(** Appending to the same text keeps two texts apart. *)
Lemma string_app_inv_head (a b c : string) : a ++ b = a ++ c → b = c.
Proof.
  induction a as [|x a IH]; [done |].
  change (String x (a ++ b) = String x (a ++ c) → b = c).
  intros [= H]. by apply IH.
Qed.

Lemma not_index_ts name suffix :
  suffix = ".tsx" ∨ suffix = ".css" → name ++ suffix ≠ "index.ts".
Proof.
  intros [-> | ->] H;
    repeat (cbn in H; first [discriminate H | destruct name as [|? name]]).
Qed.

(** The paths of the files of a component are distinct. *)
Lemma component_paths_distinct dir name :
  NoDup [dir ++ "/" ++ name ++ ".tsx"; dir ++ "/" ++ name ++ ".css"; dir ++ "/index.ts"] ∧
  dir ++ "/" ++ name ++ ".tsx" ≠ dir ++ "/index.ts".
Proof.
  assert (dir ++ "/" ++ name ++ ".tsx" ≠ dir ++ "/" ++ name ++ ".css") as H1.
  { intros H. do 3 apply string_app_inv_head in H. discriminate H. }
  assert (dir ++ "/" ++ name ++ ".tsx" ≠ dir ++ "/index.ts") as H2.
  { intros H. apply string_app_inv_head in H.
    change ("/index.ts") with ("/" ++ "index.ts") in H.
    apply string_app_inv_head in H. by apply not_index_ts in H; [| left]. }
  assert (dir ++ "/" ++ name ++ ".css" ≠ dir ++ "/index.ts") as H3.
  { intros H. apply string_app_inv_head in H.
    change ("/index.ts") with ("/" ++ "index.ts") in H.
    apply string_app_inv_head in H. by apply not_index_ts in H; [| right]. }
  split; [| done].
  apply NoDup_cons. split.
  { intros [? | [? | ?%elem_of_nil]%elem_of_cons]%elem_of_cons; done. }
  apply NoDup_cons. split; [| apply NoDup_singleton].
  intros [? | ?%elem_of_nil]%elem_of_cons; done.
Qed.

Section workflow.
Variable fault : nat → option string.
Variable join : string → string → string.
Variable component_template :
  string → FigmaFrame → string → string → float → float → string.
Variable css_template : string → float → string.

(** The index file of a component. *)
Definition index_text (name : string) : string :=
  "export { default } from './" ++ name ++ "';" ++ nl ++
  "export * from './" ++ name ++ "';".

(** The files that [saveComponentFiles] hands on: the source, the
    stylesheet when it is not empty, and the index; the index is the
    last one written. *)
Lemma saveComponentFiles_paths component outputPath fs saved :
  (saveComponentFiles join component outputPath fs).1 = inr saved →
  let files :=
    (λ file, GitHub.mkFile (relativePath file) (saved_content file)) <$> saved in
  let dir := filePath component in
  let name := gc_name component in
  NoDup (GitHub.path <$> files) ∧
  GitHub.mkFile (dir ++ "/" ++ name ++ ".tsx") (content component) ∈ files ∧
  GitHub.mkFile (dir ++ "/index.ts") (index_text name) ∈ files ∧
  (cssContent component ≠ "" →
   GitHub.mkFile (dir ++ "/" ++ name ++ ".css") (cssContent component) ∈ files) ∧
  (saveComponentFiles join component outputPath fs).2
    !! join (join outputPath name) "index.ts"
  = Some (Playwright.OtherFile (index_text name)).
Proof.
  intros Hsave. cbv zeta.
  destruct (component_paths_distinct (filePath component) (gc_name component))
    as [Hnd Hne].
  assert (∀ path file (files files' : gmap string Playwright.File),
            Playwright.write_file path file files = inr files' →
            files' !! path = Some file) as Hwritten.
  { intros path file files files'. unfold Playwright.write_file.
    destruct (files !! path) as [[| |]|]; try done;
      intros [= <-]; apply lookup_insert_eq. }
  revert Hsave. unfold saveComponentFiles.
  destruct (Playwright.make_dir _ fs); [done |].
  destruct (Playwright.write_file _ _ fs) as [r|fs1]; [done |].
  destruct (cssContent component) as [|c css] eqn:Hcss; cbn [nonempty].
  - destruct (Playwright.write_file _ _ fs1) as [r|fs3] eqn:Hindex; [done |].
    cbn [fst snd]. intros [= <-]. apply Hwritten in Hindex. cbn.
    split_and!; [| by left | right; by left | done | done].
    apply NoDup_cons. split; [| apply NoDup_singleton].
    by intros ?%list_elem_of_singleton.
  - destruct (Playwright.write_file _ _ fs1) as [r|fs2]; [done |].
    destruct (Playwright.write_file _ _ fs2) as [r|fs3] eqn:Hindex; [done |].
    cbn [fst snd]. intros [= <-]. apply Hwritten in Hindex. cbn.
    split_and!;
      [done | by left | do 2 right; by left | intros _; right; by left | done].
Qed.
End workflow.

(** A commit reports the commit it made, or a failure with a message
    and no data. *)
Lemma createCommit_shape fault branch files message repo :
  (∃ c, (GitHub.createCommit fault branch files message repo).1
        = ok (GitHub.mkCommitData c message)) ∨
  (∃ msg, (GitHub.createCommit fault branch files message repo).1 = failed msg).
Proof.
  unfold GitHub.createCommit.
  destruct (GitHub.createCommit_try fault branch files message repo) as [[msg|c] r'];
    cbn; [right | left]; by eexists.
Qed.

(** The message of the commit of a component. *)
Definition commit_message (context : WorkflowContext) (frame : FigmaFrame) : string :=
  "feat: Add " ++ componentName context ++ " component from Figma design"
  ++ nl ++ nl ++ "Generated from Figma frame: " ++ frame_name frame
  ++ nl ++ "Frame ID: " ++ frameId context.

(** The workflow past its three first operations, when they have all
    succeeded and the files cannot be saved: it fails with the error of
    the file system, and no commit is asked for. *)
Lemma design_to_code_save_fails fault join component_template css_template context
    frameResult tokensResult startTime endTime repo fs frame tokens reason :
  not_succeeded frameResult = false → data_or_null frameResult = Some frame →
  not_succeeded tokensResult = false → data_or_null tokensResult = Some tokens →
  success (GitHub.createBranch fault (githubBranch context) "main" repo).1 = true →
  let component :=
    generateReactComponent component_template css_template frame tokens
      (componentName context) in
  let saved := saveComponentFiles join component (outputPath context) fs in
  let out :=
    executeDesignToCodeWorkflow fault join component_template css_template context
      frameResult tokensResult startTime endTime repo fs in
  saved.1 = inl reason →
  out.1.1 = failed reason ∧
  out.1.2 = (GitHub.createBranch fault (githubBranch context) "main" repo).2 ∧
  out.2 = saved.2.
Proof.
  intros Hf Hframe Ht Htokens Hb. cbv zeta.
  unfold executeDesignToCodeWorkflow.
  destruct (GitHub.createBranch fault (githubBranch context) "main" repo)
    as [branchValue repo1]. cbn [fst snd] in *.
  rewrite Hf, Ht, Hframe, Htokens. cbn [not_succeeded]. rewrite Hb. cbn [negb].
  destruct (saveComponentFiles join _ (outputPath context) fs) as [[r|files] fs1];
    cbn [fst snd]; [| done].
  by intros [= ->].
Qed.

(** The same when the files are saved: the outcome is that of the
    commit. *)
Lemma design_to_code_commits fault join component_template css_template context
    frameResult tokensResult startTime endTime repo fs frame tokens files :
  not_succeeded frameResult = false → data_or_null frameResult = Some frame →
  not_succeeded tokensResult = false → data_or_null tokensResult = Some tokens →
  success (GitHub.createBranch fault (githubBranch context) "main" repo).1 = true →
  let repo1 := (GitHub.createBranch fault (githubBranch context) "main" repo).2 in
  let component :=
    generateReactComponent component_template css_template frame tokens
      (componentName context) in
  let saved := saveComponentFiles join component (outputPath context) fs in
  let commit :=
    GitHub.createCommit fault (githubBranch context)
      ((λ file, GitHub.mkFile (relativePath file) (saved_content file)) <$> files)
      (commit_message context frame) repo1 in
  let out :=
    executeDesignToCodeWorkflow fault join component_template css_template context
      frameResult tokensResult startTime endTime repo fs in
  saved.1 = inr files →
  out.1.2 = commit.2 ∧ out.2 = saved.2 ∧
  success out.1.1 = success commit.1 ∧ error out.1.1 = error commit.1 ∧
  (success commit.1 = false → data out.1.1 = None) ∧
  (success commit.1 = true →
   ∃ c, data commit.1 = Some c ∧
     data out.1.1 = Some (mkDesignToCode component tokens (githubBranch context)
                            (GitHub.commitSha c) (endTime - startTime))).
Proof.
  intros Hf Hframe Ht Htokens Hb. cbv zeta.
  unfold executeDesignToCodeWorkflow.
  destruct (GitHub.createBranch fault (githubBranch context) "main" repo)
    as [branchValue repo1]. cbn [fst snd] in *.
  rewrite Hf, Ht, Hframe, Htokens. cbn [not_succeeded]. rewrite Hb. cbn [negb].
  destruct (saveComponentFiles join _ (outputPath context) fs) as [[r|files'] fs1];
    cbn [fst snd]; [done |].
  intros [= ->]. fold (commit_message context frame).
  destruct (createCommit_shape fault (githubBranch context)
              ((λ file, GitHub.mkFile (relativePath file) (saved_content file)) <$> files)
              (commit_message context frame) repo1) as [[c Hc] | [msg Hc]];
    destruct (GitHub.createCommit _ _ _ _ _) as [commitResult repo2];
    cbn [fst snd] in *; subst commitResult; cbn.
  - split_and!; try done. intros _. by eexists.
  - by split_and!.
Qed.

(** X12. A failure after the branch was created takes nothing back.
    When the files of the component cannot be saved, the workflow fails
    with the error of the file system and asks for no commit. When they
    are saved and the commit fails, the workflow returns the failure of
    the commit with no data, and the files stay written, the index
    among them. In both cases the new branch stays, pointing where
    [main] points. *)
Theorem commit_failure_leaves_the_branch (fault : nat → option string)
    (join : string → string → string)
    (component_template : string → FigmaFrame → string → string → float → float → string)
    (css_template : string → float → string)
    (context : WorkflowContext)
    (frameResult : Settled (ToolResult FigmaFrame))
    (tokensResult : Settled (ToolResult FigmaTokens.DesignTokens))
    (startTime endTime : Z) (repo : GitHub.Repo) (fs : gmap string Playwright.File)
    (frame : FigmaFrame) (tokens : FigmaTokens.DesignTokens) :
  let out :=
    executeDesignToCodeWorkflow fault join component_template css_template context
      frameResult tokensResult startTime endTime repo fs in
  let component :=
    generateReactComponent component_template css_template frame tokens
      (componentName context) in
  let saved := saveComponentFiles join component (outputPath context) fs in
  let branched := GitHub.createBranch fault (githubBranch context) "main" repo in
  let commit files :=
    GitHub.createCommit fault (githubBranch context)
      ((λ file, GitHub.mkFile (relativePath file) (saved_content file)) <$> files)
      (commit_message context frame) branched.2 in
  let branch_stays :=
    is_Some (GitHub.refs out.1.2 !! ("refs/heads/" ++ githubBranch context)) ∧
    GitHub.refs out.1.2 !! ("refs/heads/" ++ githubBranch context)
    = GitHub.refs repo !! "refs/heads/main" ∧
    GitHub.refs repo !! ("refs/heads/" ++ githubBranch context) = None in
  not_succeeded frameResult = false → data_or_null frameResult = Some frame →
  not_succeeded tokensResult = false → data_or_null tokensResult = Some tokens →
  success branched.1 = true →
  (∀ reason, saved.1 = inl reason →
     out.1.1 = failed reason ∧ out.1.2 = branched.2 ∧ out.2 = saved.2 ∧
     branch_stays) ∧
  (∀ files, saved.1 = inr files → success (commit files).1 = false →
     success out.1.1 = false ∧ error out.1.1 = error (commit files).1 ∧
     data out.1.1 = None ∧ out.1.2 = (commit files).2 ∧
     out.2 = saved.2 ∧
     out.2 !! join (join (outputPath context) (componentName context)) "index.ts"
     = Some (Playwright.OtherFile (index_text (componentName context))) ∧
     branch_stays).
Proof.
  cbv zeta. intros Hf Hframe Ht Htokens Hb.
  destruct (GitHubMore.createBranch_success _ _ _ _ Hb) as (sha & Hmain & Hnew & Hins).
  split.
  - intros reason Hsave.
    destruct (design_to_code_save_fails fault join component_template css_template
                context frameResult tokensResult startTime endTime repo fs frame tokens
                reason Hf Hframe Ht Htokens Hb Hsave) as (Hout & Hrepo & Hfs).
    rewrite Hrepo, Hins, lookup_insert_eq.
    split_and!; [done | done | done | by eexists | done | done].
  - intros files Hsave Hfail.
    destruct (design_to_code_commits fault join component_template css_template context
                frameResult tokensResult startTime endTime repo fs frame tokens files
                Hf Hframe Ht Htokens Hb Hsave) as (Hrepo & Hfs & Hs & He & Hnone & _).
    destruct (GitHubMore.createCommit_failure_refs _ _ _ _ _ Hfail) as [Hrefs _].
    destruct (saveComponentFiles_paths join _ _ _ _ Hsave) as (_ & _ & _ & _ & Hindex).
    rewrite Hfs, Hrepo, Hrefs, Hins, lookup_insert_eq.
    split_and!; [by rewrite Hs | done | by apply Hnone | done | done | exact Hindex
                | by eexists | done | done].
Qed.

(** A service that fails the fifth request: the branch is created by the
    first two, the commit sequence breaks at its third. *)
Definition fifth_fails (n : nat) : option string :=
  if (n =? 4)%nat then Some "Server Error" else None.

Definition plain_frame : FigmaFrame := mkFrame "Hero" 320 80 "".
Definition no_tokens : FigmaTokens.DesignTokens := FigmaTokens.mkTokens [] [] [] [].

(** A component name with a slash in it: the source belongs in a
    directory that [mkdir] has not made. *)
Definition nested : WorkflowContext :=
  mkContext "abc123def456" "1:2" "ui/Button" "out" "feature/button" None.

Definition no_inner_directory : gmap string Playwright.File :=
  {[ "out/ui/Button/ui/Button.tsx" :=
       Playwright.Blocked
         "ENOENT: no such file or directory, open 'out/ui/Button/ui/Button.tsx'" ]}.

Lemma commit_failure_leaves_the_branch_witness :
  GitHub.refs
    (executeDesignToCodeWorkflow fifth_fails PlaywrightProps.slash_join
       (λ _ _ _ _ _ _, "tsx") (λ _ _, "css") hero
       (Fulfilled (ok plain_frame)) (Fulfilled (ok no_tokens)) 0 5 main_only ∅).1.2
    !! "refs/heads/feature/herobutton" = Some 1%nat ∧
  (executeDesignToCodeWorkflow no_faults PlaywrightProps.slash_join
     (λ _ _ _ _ _ _, "tsx") (λ _ _, "css") nested
     (Fulfilled (ok plain_frame)) (Fulfilled (ok no_tokens)) 0 5 main_only
     no_inner_directory).1.1
  = failed "ENOENT: no such file or directory, open 'out/ui/Button/ui/Button.tsx'".
Proof.
  split.
  - destruct (commit_failure_leaves_the_branch fifth_fails PlaywrightProps.slash_join
                (λ _ _ _ _ _ _, "tsx") (λ _ _, "css") hero
                (Fulfilled (ok plain_frame)) (Fulfilled (ok no_tokens)) 0 5 main_only ∅
                plain_frame no_tokens eq_refl eq_refl eq_refl eq_refl eq_refl)
      as [_ Hcommit].
    destruct (Hcommit _ ltac:(vm_compute; reflexivity) ltac:(vm_compute; reflexivity))
      as (_ & _ & _ & _ & _ & _ & _ & H & _).
    exact (eq_trans H eq_refl).
  - destruct (commit_failure_leaves_the_branch no_faults PlaywrightProps.slash_join
                (λ _ _ _ _ _ _, "tsx") (λ _ _, "css") nested
                (Fulfilled (ok plain_frame)) (Fulfilled (ok no_tokens)) 0 5 main_only
                no_inner_directory
                plain_frame no_tokens eq_refl eq_refl eq_refl eq_refl eq_refl)
      as [Hsave _].
    by destruct (Hsave _ ltac:(vm_compute; reflexivity)) as (H & _).
Defined.

(** X13. When the workflow succeeds, the commit it reports is at the
    head of the new branch and holds the files of the component with the
    contents that were generated: the source, the index, and the
    stylesheet when it is not empty, under
    [src/components/<name>/]; [main] is where it was. *)
Theorem success_commits_the_component (fault : nat → option string)
    (join : string → string → string)
    (component_template : string → FigmaFrame → string → string → float → float → string)
    (css_template : string → float → string)
    (context : WorkflowContext)
    (frameResult : Settled (ToolResult FigmaFrame))
    (tokensResult : Settled (ToolResult FigmaTokens.DesignTokens))
    (startTime endTime : Z) (repo : GitHub.Repo) (fs : gmap string Playwright.File) :
  let out :=
    executeDesignToCodeWorkflow fault join component_template css_template context
      frameResult tokensResult startTime endTime repo fs in
  let name := componentName context in
  let dir := "src/components/" ++ name in
  success out.1.1 = true →
  ∃ frame tokens d,
    data_or_null frameResult = Some frame ∧ data_or_null tokensResult = Some tokens ∧
    data out.1.1 = Some d ∧
    component d = generateReactComponent component_template css_template frame tokens name ∧
    designTokens d = tokens ∧ branch d = githubBranch context ∧
    GitHub.refs out.1.2 !! ("refs/heads/" ++ githubBranch context) = Some (commitSha d) ∧
    GitHub.refs out.1.2 !! "refs/heads/main" = GitHub.refs repo !! "refs/heads/main" ∧
    GitHub.head_file out.1.2 (githubBranch context) (dir ++ "/" ++ name ++ ".tsx")
    = Some (content (component d)) ∧
    GitHub.head_file out.1.2 (githubBranch context) (dir ++ "/index.ts")
    = Some (index_text name) ∧
    (cssContent (component d) ≠ "" →
     GitHub.head_file out.1.2 (githubBranch context) (dir ++ "/" ++ name ++ ".css")
     = Some (cssContent (component d))).
Proof.
  cbv zeta. intros Hok.
  assert (not_succeeded frameResult = false ∧ not_succeeded tokensResult = false ∧
          success (GitHub.createBranch fault (githubBranch context) "main" repo).1 = true
          ∧ is_Some (data_or_null frameResult) ∧ is_Some (data_or_null tokensResult))
    as (Hf & Ht & Hb & [frame Hframe] & [tokens Htokens]).
  { revert Hok. unfold executeDesignToCodeWorkflow.
    destruct (GitHub.createBranch fault (githubBranch context) "main" repo)
      as [branchValue repo1]. cbn [fst snd not_succeeded].
    destruct (not_succeeded frameResult); [done |].
    destruct (not_succeeded tokensResult); [done |].
    destruct (success branchValue); [| done]. cbn [negb].
    destruct (data_or_null frameResult); [| done].
    destruct (data_or_null tokensResult); [| done].
    intros _. split_and!; try done; by eexists. }
  destruct (saveComponentFiles join
              (generateReactComponent component_template css_template frame tokens
                 (componentName context)) (outputPath context) fs).1
    as [reason|files] eqn:Hsave.
  { destruct (design_to_code_save_fails fault join component_template css_template
                context frameResult tokensResult startTime endTime repo fs frame tokens
                reason Hf Hframe Ht Htokens Hb Hsave) as (Hout & _).
    by rewrite Hout in Hok. }
  destruct (design_to_code_commits fault join component_template css_template context
              frameResult tokensResult startTime endTime repo fs frame tokens files
              Hf Hframe Ht Htokens Hb Hsave) as (Hrepo & _ & Hs & _ & _ & Hdata).
  rewrite Hs in Hok. destruct (Hdata Hok) as (c & Hc & Hd). clear Hdata.
  exists frame, tokens. eexists. split_and!; [done | done | exact Hd | done ..| | | | |];
    cbn [component designTokens branch commitSha].
  all: rewrite Hrepo.
  all: destruct (GitHubMore.createBranch_success _ _ _ _ Hb) as (sha & Hmain & Hnew & Hins).
  all: set (component := generateReactComponent component_template css_template frame
                           tokens (componentName context)) in *.
  all: destruct (saveComponentFiles_paths join component (outputPath context) fs
                   files Hsave) as (Hnd & Htsx & Hindex & Hcss & _).
  all: change (filePath component) with ("src/components/" ++ componentName context) in *.
  all: change (gc_name component) with (componentName context) in *.
  - destruct (GitHubMore.commit_refs fault _ _ _ _ Hok) as (c' & Hc' & Hrefs).
    rewrite Hrefs, lookup_insert_eq. rewrite Hc in Hc'. by injection Hc' as ->.
  - destruct (GitHubMore.commit_refs fault _ _ _ _ Hok) as (c' & Hc' & Hrefs).
    assert ("refs/heads/" ++ githubBranch context ≠ "refs/heads/main") as Hne.
    { intros Heq. rewrite Heq in Hnew.
      change ("refs/heads/" ++ "main") with "refs/heads/main" in Hmain. congruence. }
    by rewrite Hrefs, lookup_insert_ne, Hins, lookup_insert_ne.
  - by apply (GitHubMore.createCommit_files fault _ _ _ _ Hok Hnd _ Htsx).
  - by apply (GitHubMore.createCommit_files fault _ _ _ _ Hok Hnd _ Hindex).
  - intros Hne. by apply (GitHubMore.createCommit_files fault _ _ _ _ Hok Hnd _ (Hcss Hne)).
Qed.

(** The run of the component [HeroButton] with every service up. *)
Lemma hero_run_succeeds :
  success
    (executeDesignToCodeWorkflow no_faults PlaywrightProps.slash_join
       (λ _ _ _ _ _ _, "tsx") (λ _ _, "css") hero
       (Fulfilled (ok plain_frame)) (Fulfilled (ok no_tokens)) 0 5 main_only ∅).1.1
  = true.
Proof. vm_compute. reflexivity. Qed.

Lemma success_commits_the_component_witness :
  GitHub.head_file
    (executeDesignToCodeWorkflow no_faults PlaywrightProps.slash_join
       (λ _ _ _ _ _ _, "tsx") (λ _ _, "css") hero
       (Fulfilled (ok plain_frame)) (Fulfilled (ok no_tokens)) 0 5 main_only ∅).1.2
    "feature/herobutton" "src/components/HeroButton/HeroButton.css" = Some "css".
Proof.
  destruct (success_commits_the_component no_faults PlaywrightProps.slash_join
              (λ _ _ _ _ _ _, "tsx") (λ _ _, "css") hero
              (Fulfilled (ok plain_frame)) (Fulfilled (ok no_tokens)) 0 5 main_only ∅
              hero_run_succeeds)
    as (frame & tokens & d & _ & _ & Hd & Hcomp & _ & _ & _ & _ & _ & _ & Hcss).
  rewrite Hcomp in Hcss. apply Hcss. discriminate.
Defined.

(** A positive number is neither zero nor NaN. *)
Lemma positive_is_truthy (v : float) :
  (0 <? v)%float = true → (v =? 0)%float = false ∧ (v =? v)%float = true.
Proof.
  rewrite FloatAxioms.ltb_spec, !FloatAxioms.eqb_spec.
  change (Prim2SF 0) with (S754_zero false).
  destruct (Prim2SF v) as [s|s| |s m e]; cbn; try discriminate.
  - destruct s; [discriminate | done].
  - destruct s; [discriminate |]. intros _. split; [reflexivity |].
    unfold SFeqb, SFcompare. by rewrite Z.compare_refl, Pos.compare_refl.
Qed.

Lemma number_or_truthy (x : option float) (fallback : float) :
  (fallback =? 0)%float = false → (fallback =? fallback)%float = true →
  (number_or x fallback =? 0)%float = false ∧
  (number_or x fallback =? number_or x fallback)%float = true.
Proof.
  intros H0 Hnan. unfold number_or. destruct x as [v|]; [| done].
  destruct (v =? 0)%float eqn:Hv; [done |].
  destruct (v =? v)%float eqn:Hvv; done.
Qed.

(** X14. The styling values that the generator hands to its templates
    are never degenerate, whatever the tokens and the frame: the
    background color and the font are not empty, the border radius is a
    number other than zero, and the spacing lies strictly between 0 and
    100; the stylesheet is rendered with the same spacing as the
    source. *)
Theorem styling_values_are_sound
    (component_template : string → FigmaFrame → string → string → float → float → string)
    (css_template : string → float → string)
    (frame : FigmaFrame) (tokens : FigmaTokens.DesignTokens) (name : string) :
  ∃ background font radius spacing,
    content (generateReactComponent component_template css_template frame tokens name)
    = component_template name frame background font radius spacing ∧
    cssContent (generateReactComponent component_template css_template frame tokens name)
    = css_template name spacing ∧
    background ≠ "" ∧ font ≠ "" ∧
    (radius =? 0)%float = false ∧ (radius =? radius)%float = true ∧
    (0 <? spacing)%float = true ∧ (spacing <? 100)%float = true.
Proof.
  unfold generateReactComponent. eexists _, _, _, _. cbn [content cssContent].
  split; [reflexivity |]. split; [reflexivity |]. split_and!.
  - destruct (FigmaTokens.colors tokens) as [|[|c s] ?]; try done;
      by destruct (backgroundColor frame).
  - by destruct (FigmaTokens.fonts tokens) as [|[|c s] ?].
  - by apply number_or_truthy.
  - by apply number_or_truthy.
  - destruct (head (filter _ (FigmaTokens.spacing tokens))) as [v|] eqn:Hhead; [| done].
    apply head_Some_elem_of, list_elem_of_filter in Hhead as [[Hpos _]%andb_prop _].
    unfold number_or. destruct (positive_is_truthy v Hpos) as [-> ->]. done.
  - destruct (head (filter _ (FigmaTokens.spacing tokens))) as [v|] eqn:Hhead; [| done].
    apply head_Some_elem_of, list_elem_of_filter in Hhead as [[Hpos Hlt]%andb_prop _].
    unfold number_or. destruct (positive_is_truthy v Hpos) as [-> ->]. done.
Qed.

Lemma visual_name_not_accessibility componentName :
  componentName ++ "-visual-test" ≠ "accessibility-test".
Proof.
  intros H.
  repeat (cbn in H; first [discriminate H | destruct componentName as [|? componentName]]).
Qed.

(** X15. The visual testing workflow never fails as a call, and a slot
    is not held back by the others: whatever becomes of the visual test,
    the responsive capture and the image fetch, a scan that completes
    is recorded as [accessibility-test], passed exactly when it found no
    problem and with the problems joined as its error; a visual test
    whose capture fails leaves its own slot empty and adds no entry. *)
Theorem visual_workflow_reports_each_slot
    (join : string → string → string)
    (pixelmatch : list Z → list Z → Z → Z → float → Z * list Z)
    (shoot : string → option string → Playwright.Shot)
    (respond : string → list Playwright.Viewport → Playwright.Responsive)
    (scan : string → Playwright.Scan)
    (context : WorkflowContext) (componentUrl : string)
    (imagesResult : Settled (ToolResult (list (string * string))))
    (startTime endTime : Z) (fs : gmap string Playwright.File) :
  let out :=
    executeVisualTestingWorkflow join pixelmatch shoot respond scan context
      componentUrl imagesResult startTime endTime fs in
  success out.1.1 = true ∧
  ∃ d results,
    data out.1.1 = Some d ∧ testResults out.1.2 = Some results ∧
    figmaImages d = data_or_null imagesResult ∧
    (∀ problems, scan componentUrl = Playwright.ScanDone problems →
       accessibilityTest d
       = Some (Playwright.mkAccessibility (bool_decide (length problems = 0%nat)) problems) ∧
       Playwright.mkTestResult "accessibility-test" (bool_decide (length problems = 0%nat))
         (match problems with [] => None | _ => Some (join_with ", " problems) end)
         None 0 ∈ results) ∧
    (∀ reason, shoot componentUrl None = Playwright.ShotFails reason →
       visualTest d = None ∧
       ∀ entry, entry ∈ results →
         Playwright.name entry ≠ componentName context ++ "-visual-test").
Proof.
  cbv zeta. unfold executeVisualTestingWorkflow.
  set (visual := Playwright.runVisualTest pixelmatch join shoot
                   (componentName context ++ "-visual-test") componentUrl None
                   (join (outputPath context) "visual-tests") startTime endTime fs).
  assert (∀ reason, shoot componentUrl None = Playwright.ShotFails reason →
            visual.1 = failed reason) as Hvisual.
  { intros reason Hshot. unfold visual, Playwright.runVisualTest,
      Playwright.captureScreenshot. by rewrite Hshot. }
  destruct visual as [visualValue fs1]. cbn [fst] in Hvisual.
  destruct (Playwright.testResponsiveDesign respond componentUrl viewports fs1)
    as [responsiveResult fs2].
  unfold Playwright.validateAccessibility.
  destruct (scan componentUrl) as [reason|reason|problems] eqn:Hscan; cbn.
  1,2: split; [done |]; eexists _, _; split_and!; try done;
    intros reason' Hshot; rewrite (Hvisual _ Hshot); cbn; split; [done |];
    intros entry Hin; destruct (succeeded responsiveResult); cbn in Hin;
    [apply list_elem_of_singleton in Hin as ->; cbn;
     apply not_eq_sym, visual_name_not_responsive
    | by apply elem_of_nil in Hin].
  split; [done |]. eexists _, _. split_and!; try done.
  - intros ? [= <-]. split; [done |].
    apply elem_of_app. right. apply elem_of_app. right. by left.
  - intros reason Hshot. rewrite (Hvisual _ Hshot). cbn. split; [done |].
    intros entry Hin.
    assert (Playwright.name entry = "responsive-design-test"
            ∨ Playwright.name entry = "accessibility-test") as [-> | ->].
    { destruct (succeeded responsiveResult); cbn in Hin.
      - apply elem_of_cons in Hin as [-> | ->%list_elem_of_singleton]; auto.
      - apply list_elem_of_singleton in Hin as ->. auto. }
    + apply not_eq_sym, visual_name_not_responsive.
    + apply not_eq_sym, visual_name_not_accessibility.
Qed.

Lemma visual_workflow_reports_each_slot_witness :
  ∃ d,
    data (executeVisualTestingWorkflow PlaywrightProps.slash_join
            PlaywrightProps.exact_match timed_out three_shots one_problem hero
            "http://localhost:3000" (RejectedWith "Network Error") 0 9 ∅).1.1 = Some d ∧
    visualTest d = None ∧
    accessibilityTest d
    = Some (Playwright.mkAccessibility false ["Image 1 is missing alt text"]).
Proof.
  destruct (visual_workflow_reports_each_slot PlaywrightProps.slash_join
              PlaywrightProps.exact_match timed_out three_shots one_problem hero
              "http://localhost:3000" (RejectedWith "Network Error") 0 9 ∅)
    as (_ & d & results & Hd & _ & _ & Hscan & Hshot).
  exists d. split; [exact Hd |]. split.
  - apply (Hshot "Timeout 30000ms exceeded"). reflexivity.
  - apply (Hscan ["Image 1 is missing alt text"]). reflexivity.
Defined.

End WorkflowMore.

(** ** The response cache, further *)

Module CacheMore.
Import Cache CacheProps.

(** X16. Keys do not interfere: writing or reading (and so possibly
    expiring) another key changes neither what a read of this key
    returns nor whether this key is stored. *)
Theorem other_keys_do_not_interfere {T} (cache : gmap string (CacheEntry T))
    (k k' : string) (v : T) (ttl_ms t now : Z) :
  k ≠ k' →
  (getCache now k (setCache t k' v ttl_ms cache)).1 = (getCache now k cache).1 ∧
  (getCache now k (getCache t k' cache).2).1 = (getCache now k cache).1 ∧
  (getCache t k' cache).2 !! k = cache !! k ∧
  (getCache now k' (getCache t k cache).2).1 = (getCache now k' cache).1.
Proof.
  intros Hne.
  assert (∀ c1 c2 : gmap string (CacheEntry T), c1 !! k = c2 !! k →
            (getCache now k c1).1 = (getCache now k c2).1) as Hsame.
  { intros c1 c2 H. unfold getCache. rewrite H.
    destruct (c2 !! k) as [e|]; [| done]. by destruct (ttl e <? now - timestamp e). }
  assert (∀ c1 c2 : gmap string (CacheEntry T), c1 !! k' = c2 !! k' →
            (getCache now k' c1).1 = (getCache now k' c2).1) as Hsame'.
  { intros c1 c2 H. unfold getCache. rewrite H.
    destruct (c2 !! k') as [e|]; [| done]. by destruct (ttl e <? now - timestamp e). }
  split_and!.
  - apply Hsame. by apply setCache_other.
  - apply Hsame. by apply getCache_other.
  - by apply getCache_other.
  - apply Hsame'. by apply getCache_other.
Qed.

Lemma other_keys_do_not_interfere_witness :
  (getCache 2000 "/files/a"
     (setCache 1500 "tokens:a" 1%nat 600000
        (setCache 1000 "/files/a" 7%nat 300000 ∅))).1 = Some 7%nat.
Proof.
  destruct (other_keys_do_not_interfere (setCache 1000 "/files/a" 7%nat 300000 ∅)
              "/files/a" "tokens:a" 1%nat 600000 1500 2000) as (H & _).
  - discriminate.
  - rewrite H. reflexivity.
Defined.

End CacheMore.

(** ** The Figma URL helper, further *)

Module FigmaUrlMore.
Import JsString FigmaUrlParser FigmaUrlProps.

Open Scope string_scope.

Lemma strip_dash c s :
  strip_prefix "-" (String c s) = if Ascii.eqb "-" c then Some s else None.
Proof. done. Qed.

Lemma digit_not_dash c : is_digit c = true → Ascii.eqb "-" c = false.
Proof. intros H. ascii_cases c. Qed.

Lemma replace_dash_digits s : all_digits s = true → replace_first "-" ":" s = s.
Proof.
  induction s as [|c s IH]; [done |]. cbn [all_digits].
  intros [Hc Hs]%andb_prop. cbn [replace_first].
  rewrite strip_dash, (digit_not_dash c Hc). by rewrite IH.
Qed.

(** The normal form of a string that matches [\d*[-:]\d+]. *)
Lemma replace_dash_separator s :
  match skip_digits s with
  | String sep rest =>
      (Ascii.eqb sep "-" || Ascii.eqb sep ":") && nonempty rest && all_digits rest
  | "" => false
  end = true →
  match skip_digits (replace_first "-" ":" s) with
  | String sep rest => Ascii.eqb sep ":" && nonempty rest && all_digits rest
  | "" => false
  end = true ∧
  ∀ c s', s = String c s' → is_digit c = true →
    ∃ s'', replace_first "-" ":" s = String c s''.
Proof.
  induction s as [|c s IH]; [done |]. cbn [skip_digits].
  destruct (is_digit c) eqn:Hc.
  - intros H. cbn [replace_first]. rewrite strip_dash, (digit_not_dash c Hc).
    cbn [skip_digits]. rewrite Hc. split; [by apply IH |].
    intros ? ? [= <- <-] _. by eexists.
  - intros [[Hsep Hne]%andb_prop Hrest]%andb_prop. split.
    + cbn [replace_first]. rewrite strip_dash.
      apply orb_prop in Hsep as [Hsep | Hsep]; apply Ascii.eqb_eq in Hsep as ->.
      * cbn. change (skip_digits (":" ++ s)) with (String ":" s).
        cbn. by rewrite Hne, Hrest.
      * cbn. rewrite replace_dash_digits by done.
        change (is_digit ":") with false. cbn. by rewrite Hne, Hrest.
    + intros ? ? [= <- <-] Hd. congruence.
Qed.

(** X17. A bare node id in either of its forms, digits, a dash or a
    colon, digits, is returned with the colon: what [extractNodeId]
    returns for it is a valid node id. *)
Theorem bare_node_id_is_normalised (input : string) :
  looks_like_node_id input = true →
  extractNodeId input = Some (replace_first "-" ":" input) ∧
  isValidNodeId (replace_first "-" ":" input) = true ∧
  (isValidNodeId input = true → replace_first "-" ":" input = input).
Proof.
  intros Hlooks. unfold extractNodeId. rewrite Hlooks. split; [done |].
  split.
  - unfold looks_like_node_id in Hlooks. destruct input as [|c s]; [done |].
    apply andb_prop in Hlooks as [Hc Hrest].
    destruct (replace_dash_separator (String c s) Hrest) as [Hvalid Hhead].
    destruct (Hhead c s eq_refl Hc) as [s'' Heq]. rewrite Heq in *.
    unfold isValidNodeId. by rewrite Hc.
  - intros Hvalid. apply valid_node_id_chars in Hvalid.
    clear Hlooks. induction input as [|c s IH]; [done |].
    cbn [all_chars] in Hvalid. apply andb_prop in Hvalid as [Hc Hs].
    cbn [replace_first]. rewrite strip_dash.
    assert (Ascii.eqb "-" c = false) as ->.
    { apply id_char_cases in Hc as [Hd | ->]; [by apply digit_not_dash | done]. }
    by rewrite IH.
Qed.

Lemma bare_node_id_is_normalised_witness :
  extractNodeId "12-345" = Some "12:345" ∧ isValidNodeId "12:345" = true.
Proof.
  destruct (bare_node_id_is_normalised "12-345" eq_refl) as (H1 & H2 & _).
  split; [exact H1 | exact H2].
Defined.

(** *** File ids *)

Lemma take_while_all p s : all_chars p (take_while p s) = true.
Proof.
  induction s as [|c s IH]; [done |]. cbn.
  destruct (p c) eqn:Hc; [| done]. cbn. by rewrite Hc.
Qed.

Lemma all_chars_forallb p s :
  all_chars p s = forallb p (list_ascii_of_string s).
Proof. induction s as [|c s IH]; [done |]. cbn. by rewrite IH. Qed.

Ltac url_step := cbn -[strip_prefix take_while drop_while]; try done.

Lemma figma_url_here_id s id name node :
  figma_url_here s = Some (id, name, node) →
  all_chars is_alnum id = true ∧ id ≠ "".
Proof.
  unfold figma_url_here.
  destruct (strip_prefix "https://" s) as [r1|]; url_step.
  destruct (strip_prefix "figma.com/" (default r1 (strip_prefix "www." r1)))
    as [r3|]; url_step.
  destruct (strip_prefix "file" r3) as [r4|];
    cbn -[strip_prefix take_while drop_while];
    [| destruct (strip_prefix "design" r3) as [r4|]; url_step].
  all: destruct (strip_prefix "/" r4) as [r5|]; url_step.
  all: destruct (strip_prefix "/" (drop_while is_alnum r5)) as [r6|]; url_step.
  all: destruct (nonempty (take_while is_alnum r5)) eqn:Hid; url_step.
  all: match goal with
       | |- context [nonempty ?t] => destruct (nonempty t)
       end; url_step.
  all: intros [= <- _ _]; split; [apply take_while_all |].
  all: by destruct (take_while is_alnum r5).
Qed.

Lemma figma_url_match_id s id name node :
  figma_url_match s = Some (id, name, node) →
  all_chars is_alnum id = true ∧ id ≠ "".
Proof.
  induction s as [|c s IH]; cbn [figma_url_match].
  - destruct (figma_url_here "") as [[[? ?] ?]|] eqn:H; [| done].
    intros [= -> -> ->]. by apply figma_url_here_id in H.
  - destruct (figma_url_here (String c s)) as [[[? ?] ?]|] eqn:H; [| done].
    intros [= -> -> ->]. by apply figma_url_here_id in H.
Qed.

(** X18. Every file id that [extractFileId] returns is a non-empty run
    of letters and digits, whether the input was taken for a file id
    as it is or the id was read from a Figma URL. *)
Theorem extracted_file_id_is_alphanumeric (input id : string) :
  extractFileId input = Some id →
  id ≠ "" ∧ forallb is_alnum (list_ascii_of_string id) = true.
Proof.
  unfold extractFileId.
  destruct (forallb is_alnum (list_ascii_of_string input) && nonempty input
            && (10 <? String.length input)%nat) eqn:Hraw.
  - intros [= <-]. apply andb_prop in Hraw as [[Hall Hne]%andb_prop _].
    split; [by destruct input | done].
  - unfold parseFigmaUrl.
    destruct (figma_url_match input) as [[[fid name] node]|] eqn:Hm; [| done].
    destruct (decodeURIComponent (replace_all_dash name)); [cbn | done].
    intros [= <-]. apply figma_url_match_id in Hm as [Hall Hne].
    split; [done |]. by rewrite <- all_chars_forallb.
Qed.

Lemma extracted_file_id_is_alphanumeric_witness :
  forallb is_alnum (list_ascii_of_string "abc123def456") = true.
Proof.
  apply (extracted_file_id_is_alphanumeric
           "see https://figma.com/design/abc123def456/My-Design?node-id=1-2"
           "abc123def456").
  reflexivity.
Defined.

(** *** A created URL read back *)

(** Characters of a file name that [createFigmaUrl] and [parseFigmaUrl]
    both leave as they are: all but the two that end the name in the
    URL, the dash, which is read as a space, and the escape. *)
Definition name_char (c : ascii) : bool :=
  negb (Ascii.eqb c "/" || Ascii.eqb c "?" || Ascii.eqb c "-" || Ascii.eqb c "%").

(** Characters of an encoded node id. *)
Definition enc_char (c : ascii) : bool :=
  is_digit c || Ascii.eqb c "%" || Ascii.eqb c "A".

Lemma app_cons c (a b : string) : String c a ++ b = String c (a ++ b).
Proof. done. Qed.

Lemma url_app_assoc (a b c : string) : (a ++ b) ++ c = a ++ b ++ c.
Proof. induction a as [|x a IH]; [done |]. by rewrite !app_cons, IH. Qed.

Lemma strip_prefix_app p s : strip_prefix p (p ++ s) = Some s.
Proof.
  induction p as [|c p IH]; [by destruct s |].
  rewrite app_cons. cbn [strip_prefix]. by rewrite Ascii.eqb_refl.
Qed.

Lemma all_chars_app p a b :
  all_chars p (a ++ b) = all_chars p a && all_chars p b.
Proof.
  induction a as [|c a IH]; [done |].
  rewrite app_cons. cbn [all_chars]. by rewrite IH, andb_assoc.
Qed.

Lemma all_chars_impl (p q : ascii → bool) s :
  (∀ c, p c = true → q c = true) → all_chars p s = true → all_chars q s = true.
Proof.
  intros Hpq. induction s as [|c s IH]; [done |]. cbn [all_chars].
  intros [Hc Hs]%andb_prop. by rewrite (Hpq c Hc), IH.
Qed.

Lemma take_while_stop p a c r :
  all_chars p a = true → p c = false → take_while p (a ++ String c r) = a.
Proof.
  intros Ha Hc. induction a as [|x a IH].
  - change ("" ++ String c r) with (String c r). cbn. by rewrite Hc.
  - cbn [all_chars] in Ha. apply andb_prop in Ha as [Hx Ha].
    rewrite app_cons. cbn [take_while]. by rewrite Hx, IH.
Qed.

Lemma drop_while_stop p a c r :
  all_chars p a = true → p c = false →
  drop_while p (a ++ String c r) = String c r.
Proof.
  intros Ha Hc. induction a as [|x a IH].
  - change ("" ++ String c r) with (String c r). cbn. by rewrite Hc.
  - cbn [all_chars] in Ha. apply andb_prop in Ha as [Hx Ha].
    rewrite app_cons. cbn [drop_while]. by rewrite Hx, IH.
Qed.

Lemma take_while_end p a : all_chars p a = true → take_while p a = a.
Proof.
  induction a as [|x a IH]; [done |]. cbn [all_chars].
  intros [Hx Ha]%andb_prop. cbn. by rewrite Hx, IH.
Qed.

Lemma drop_while_end p a : all_chars p a = true → drop_while p a = "".
Proof.
  induction a as [|x a IH]; [done |]. cbn [all_chars].
  intros [Hx Ha]%andb_prop. cbn. by rewrite Hx, IH.
Qed.

Lemma id_char_encoded s :
  all_chars id_char s = true → all_chars enc_char (encodeURIComponent s) = true.
Proof.
  induction s as [|c s IH]; [done |]. cbn [all_chars].
  intros [Hc Hs]%andb_prop. apply id_char_cases in Hc as [Hd | ->].
  - cbn [encodeURIComponent]. rewrite (digit_unreserved c Hd).
    cbn [all_chars]. unfold enc_char at 1. rewrite Hd. cbn. by apply IH.
  - change (encodeURIComponent (String ":" s))
      with (String "%" (String "3" (String "A" (encodeURIComponent s)))).
    cbn [all_chars]. rewrite (IH Hs). done.
Qed.

Lemma encoded_nonempty c s : encodeURIComponent (String c s) ≠ "".
Proof. cbn. by destruct (unreserved c). Qed.

Lemma enc_char_not_amp c : enc_char c = true → Ascii.eqb c "&" = false.
Proof. intros H. ascii_cases c. Qed.

Lemma take_until_amp_encoded s :
  all_chars enc_char s = true → take_until_amp s = s.
Proof.
  induction s as [|c s IH]; [done |]. cbn [all_chars].
  intros [Hc Hs]%andb_prop. cbn. by rewrite (enc_char_not_amp c Hc), IH.
Qed.

(** What follows the [n] of [node-id=] in a created URL. *)
Definition tail_char (c : ascii) : bool :=
  enc_char c || existsb (Ascii.eqb c) ["o"; "d"; "e"; "-"; "i"; "="]%char.

Lemma tail_char_not_n c : tail_char c = true → Ascii.eqb "n" c = false.
Proof. intros H. ascii_cases c. Qed.

Lemma tail_char_in_line c : tail_char c = true →
  Ascii.eqb c "010" = false ∧ Ascii.eqb c "013" = false ∧ Ascii.eqb c "226" = false.
Proof. intros H. ascii_cases c; done. Qed.

Lemma node_param_here_other c s :
  Ascii.eqb "n" c = false → node_param_here (String c s) = None.
Proof. intros H. unfold node_param_here. cbn [strip_prefix]. by rewrite H. Qed.

Lemma line_terminator_tail c s :
  tail_char c = true → line_terminator_here (String c s) = false.
Proof.
  intros (H1 & H2 & H3)%tail_char_in_line. cbn. rewrite H1, H2, H3.
  by destruct s as [|? [|? ?]].
Qed.

Lemma last_node_param_tail s :
  all_chars tail_char s = true → last_node_param s = None.
Proof.
  induction s as [|c s IH]; [done |]. cbn [all_chars].
  intros [Hc Hs]%andb_prop. cbn [last_node_param].
  rewrite (line_terminator_tail c s Hc), (IH Hs).
  by apply node_param_here_other, tail_char_not_n.
Qed.

Lemma node_param_here_encoded enc :
  all_chars enc_char enc = true → enc ≠ "" →
  node_param_here ("node-id=" ++ enc) = Some enc.
Proof.
  intros Henc Hne. unfold node_param_here.
  rewrite strip_prefix_app, (take_until_amp_encoded enc Henc).
  by destruct enc.
Qed.

Lemma last_node_param_encoded enc :
  all_chars enc_char enc = true → enc ≠ "" →
  last_node_param ("node-id=" ++ enc) = Some enc.
Proof.
  intros Henc Hne.
  change ("node-id=" ++ enc) with (String "n" ("ode-id=" ++ enc)).
  cbn [last_node_param].
  replace (line_terminator_here (String "n" ("ode-id=" ++ enc))) with false
    by (by destruct enc as [|? [|? ?]]).
  rewrite last_node_param_tail.
  - by apply (node_param_here_encoded enc).
  - rewrite all_chars_app. apply andb_true_intro. split; [done |].
    apply (all_chars_impl enc_char); [| done].
    intros c Hc. unfold tail_char. by rewrite Hc.
Qed.

(** A character other than [n] starts no parameter; a run of name
    characters holds no dash and so no parameter either. *)
Lemma node_regex_match_skip a s :
  all_chars (λ c, negb (Ascii.eqb "n" c)) a = true →
  node_regex_match (a ++ s) = node_regex_match s.
Proof.
  induction a as [|c a IH]; [done |]. cbn [all_chars].
  intros [Hc Ha]%andb_prop. rewrite app_cons. cbn [node_regex_match].
  rewrite node_param_here_other by (by destruct (Ascii.eqb "n" c)).
  by apply IH.
Qed.

Definition no_dash (c : ascii) : bool := negb (Ascii.eqb c "-").

Lemma strip_prefix_no_dash pre post a sep r :
  all_chars no_dash a = true → no_dash sep = true →
  all_chars (λ x, negb (Ascii.eqb x sep)) pre = true →
  strip_prefix (pre ++ String "-" post) (a ++ String sep r) = None.
Proof.
  intros Ha Hsep. revert a Ha. induction pre as [|x pre IH]; intros a Ha Hpre.
  - change ("" ++ String "-" post) with (String "-" post).
    destruct a as [|c a].
    + change ("" ++ String sep r) with (String sep r). cbn [strip_prefix].
      unfold no_dash in Hsep. rewrite Ascii.eqb_sym.
      by destruct (Ascii.eqb sep "-").
    + rewrite app_cons. cbn [strip_prefix]. cbn [all_chars] in Ha.
      apply andb_prop in Ha as [Hc _]. unfold no_dash in Hc.
      rewrite Ascii.eqb_sym. by destruct (Ascii.eqb c "-").
  - cbn [all_chars] in Hpre. apply andb_prop in Hpre as [Hx Hpre].
    rewrite app_cons. destruct a as [|c a].
    + change ("" ++ String sep r) with (String sep r). cbn [strip_prefix].
      by destruct (Ascii.eqb x sep).
    + rewrite app_cons. cbn [strip_prefix]. cbn [all_chars] in Ha.
      apply andb_prop in Ha as [_ Ha].
      destruct (Ascii.eqb x c); [by apply IH | done].
Qed.

Lemma node_regex_match_name a sep r :
  all_chars no_dash a = true → no_dash sep = true →
  all_chars (λ x, negb (Ascii.eqb x sep)) "node" = true →
  node_regex_match (a ++ String sep r) = node_regex_match (String sep r).
Proof.
  intros Ha Hsep Hnode. induction a as [|c a IH]; [done |].
  assert (node_param_here (String c a ++ String sep r) = None) as Hhere.
  { unfold node_param_here.
    change "node-id=" with ("node" ++ String "-" "id=").
    by rewrite (strip_prefix_no_dash "node" "id=" (String c a) sep r). }
  cbn [all_chars] in Ha. apply andb_prop in Ha as [_ Ha].
  rewrite app_cons in *. cbn [node_regex_match]. rewrite Hhere. by apply IH.
Qed.

Lemma name_char_cases c :
  name_char c = true →
  no_dash c = true ∧ Ascii.eqb c "%" = false ∧ Ascii.eqb c "-" = false ∧
  negb (Ascii.eqb c "/" || Ascii.eqb c "?") = true.
Proof.
  unfold name_char, no_dash.
  destruct (Ascii.eqb c "/"), (Ascii.eqb c "?"), (Ascii.eqb c "-"),
    (Ascii.eqb c "%"); done.
Qed.

Lemma alnum_no_dash c : is_alnum c = true → no_dash c = true.
Proof. intros H. ascii_cases c. Qed.

Lemma replace_all_dash_name s :
  all_chars name_char s = true → replace_all_dash s = s.
Proof.
  induction s as [|c s IH]; [done |]. cbn [all_chars].
  intros [(_ & _ & Hc & _)%name_char_cases Hs]%andb_prop.
  cbn. by rewrite Hc, IH.
Qed.

Lemma decode_name s :
  all_chars name_char s = true → decodeURIComponent s = Some s.
Proof.
  unfold decodeURIComponent.
  induction s as [|c s IH]; [done |]. cbn [all_chars].
  intros [(_ & Hc & _ & _)%name_char_cases Hs]%andb_prop.
  cbn [decode_from]. by rewrite Hc, (IH Hs).
Qed.

(** The text of a created URL, cut where the pattern reads it. *)
Lemma created_url f c n nm :
  nm ≠ "" →
  createFigmaUrl f (Some (String c n)) (Some nm) =
  "https://" ++ "www." ++ "figma.com/" ++ "file" ++ "/" ++ f ++
  String "/" (nm ++ String "?" ("node-id=" ++ encodeURIComponent (String c n))).
Proof.
  intros Hnm. unfold createFigmaUrl. destruct nm as [|x nm]; [done |].
  rewrite !url_app_assoc. done.
Qed.

Section created.
Variables (f nm n enc : string).
Hypothesis f_alnum : all_chars is_alnum f = true.
Hypothesis f_nonempty : f ≠ "".
Hypothesis nm_name : all_chars name_char nm = true.
Hypothesis nm_nonempty : nm ≠ "".
Hypothesis enc_chars : all_chars enc_char enc = true.
Hypothesis enc_nonempty : enc ≠ "".

Definition created : string :=
  "https://" ++ "www." ++ "figma.com/" ++ "file" ++ "/" ++ f ++
  String "/" (nm ++ String "?" ("node-id=" ++ enc)).

Lemma figma_url_here_created : figma_url_here created = Some (f, nm, Some enc).
Proof.
  unfold figma_url_here, created.
  rewrite strip_prefix_app. cbn [mbind option_bind].
  rewrite strip_prefix_app. unfold default, from_option, id.
  rewrite strip_prefix_app. cbn [mbind option_bind].
  rewrite strip_prefix_app. cbn [mbind option_bind].
  rewrite strip_prefix_app. cbn [mbind option_bind].
  rewrite take_while_stop, drop_while_stop by done.
  change (strip_prefix "/" (String "/" ?x)) with (Some x).
  cbn [mbind option_bind].
  assert (all_chars (λ c, negb (Ascii.eqb c "/" || Ascii.eqb c "?")) nm = true)
    as Hsep.
  { apply (all_chars_impl name_char); [| done].
    intros c Hc. by apply name_char_cases in Hc as (_ & _ & _ & ?). }
  rewrite take_while_stop, drop_while_stop by done.
  change (Ascii.eqb "?" "?") with true. cbn match.
  rewrite last_node_param_encoded by done.
  by destruct f, nm.
Qed.

Lemma node_regex_match_created : node_regex_match created = Some enc.
Proof.
  unfold created.
  change ("https://" ++ "www." ++ "figma.com/" ++ "file" ++ "/" ++ f ++ ?x)
    with ("https://www.figma.com/file/" ++ f ++ x).
  rewrite node_regex_match_skip by done.
  rewrite node_regex_match_name; [| | done | done].
  2: { apply (all_chars_impl is_alnum); [apply alnum_no_dash | done]. }
  cbn [node_regex_match].
  rewrite node_param_here_other by done.
  rewrite node_regex_match_name; [| | done | done].
  2: { apply (all_chars_impl name_char); [| done].
       intros c Hc. by apply name_char_cases in Hc as (? & _). }
  cbn [node_regex_match].
  rewrite node_param_here_other by done.
  destruct enc as [|e enc'] eqn:Henc; [done |].
  change ("node-id=" ++ String e enc')
    with (String "n" ("ode-id=" ++ String e enc')).
  cbn [node_regex_match].
  change (String "n" ("ode-id=" ++ String e enc'))
    with ("node-id=" ++ String e enc').
  by rewrite node_param_here_encoded.
Qed.

End created.

(** X19. A URL made by [createFigmaUrl] from an alphanumeric file id, a
    valid node id and a file name without slash, question mark, dash or
    percent sign is read back in full: [parseFigmaUrl] returns the three
    parts, [extractNodeId] the node id and [extractFileId] the file
    id. *)
Theorem created_url_is_read_back (f n nm : string) :
  all_chars is_alnum f = true → f ≠ "" →
  isValidNodeId n = true →
  all_chars name_char nm = true → nm ≠ "" →
  let url := createFigmaUrl f (Some n) (Some nm) in
  parseFigmaUrl url = Some (mkUrlInfo f (Some n) (Some nm)) ∧
  extractNodeId url = Some n ∧
  extractFileId url = Some f.
Proof.
  intros Hf Hfne Hn Hnm Hnmne url.
  pose proof (valid_node_id_chars n Hn) as Hchars.
  pose proof (id_char_encoded n Hchars) as Henc.
  assert (n ≠ "") as Hnne by (by destruct n).
  destruct n as [|c n'] eqn:Hneq; [done |].
  pose proof (encoded_nonempty c n') as Hencne.
  assert (url = created f nm (encodeURIComponent (String c n'))) as ->
    by (by apply created_url).
  assert (parseFigmaUrl (created f nm (encodeURIComponent (String c n')))
          = Some (mkUrlInfo f (Some (String c n')) (Some nm))) as Hparse.
  { unfold parseFigmaUrl.
    assert (figma_url_match (created f nm (encodeURIComponent (String c n')))
            = Some (f, nm, Some (encodeURIComponent (String c n')))) as ->.
    { unfold created.
      change ("https://" ++ ?x) with (String "h" ("ttps://" ++ x)).
      cbn [figma_url_match].
      change (String "h" ("ttps://" ++ ?x)) with ("https://" ++ x).
      fold (created f nm (encodeURIComponent (String c n'))).
      by rewrite figma_url_here_created. }
    rewrite replace_all_dash_name, decode_name by done.
    cbn [mbind option_bind fmap option_fmap option_map].
    by rewrite decodeNodeId_encode. }
  split; [done |]. split.
  - unfold extractNodeId.
    replace (looks_like_node_id _) with false by done.
    rewrite node_regex_match_created by done.
    by rewrite decodeNodeId_encode.
  - unfold extractFileId. rewrite Hparse.
    replace (forallb is_alnum _) with false; [done |].
    by rewrite <- all_chars_forallb.
Qed.

Lemma created_url_is_read_back_witness :
  parseFigmaUrl (createFigmaUrl "abc123def456" (Some "12:345") (Some "Landing Page"))
  = Some (mkUrlInfo "abc123def456" (Some "12:345") (Some "Landing Page")).
Proof.
  by destruct (created_url_is_read_back "abc123def456" "12:345" "Landing Page"
                 eq_refl ltac:(done) eq_refl eq_refl ltac:(done)) as (H & _).
Defined.

End FigmaUrlMore.

(** ** Design tokens: the traversal *)

Module FigmaTokensMore.
Import JsNumber FigmaTokens FigmaTokensProps.

Open Scope string_scope.

(** The nodes of a document: a node and, child by child, the nodes below
    it. *)
Fixpoint all_nodes (node : Node) : list Node :=
  node :: (children node ≫= all_nodes).

Lemma all_nodes_unfold node :
  all_nodes node = node :: (children node ≫= all_nodes).
Proof. by destruct node. Qed.

Lemma bind_rev_nodes (l : list Node) : (rev l ≫= all_nodes) ≡ₚ (l ≫= all_nodes).
Proof.
  induction l as [|n l IH]; [done |]. cbn [rev].
  rewrite bind_app, bind_cons, IH. cbn. rewrite app_nil_r.
  apply Permutation_app_comm.
Qed.

Lemma set_keys_elem {V} key (value : V) m x :
  x ∈ JsMap.keys (JsMap.set key value m) ↔ x = key ∨ x ∈ JsMap.keys m.
Proof.
  split; [apply set_keys |].
  unfold JsMap.keys. induction m as [|[k v] m IH]; cbn.
  - intros [-> | H]; [by left | by apply elem_of_nil in H].
  - destruct (String.eqb k key) eqn:Hk; cbn.
    + apply String.eqb_eq in Hk as ->. intros [-> | H]; [by left | done].
    + intros [-> | [-> | H]%elem_of_cons]; [| by left |].
      * right. apply IH. by left.
      * right. apply IH. by right.
Qed.

Lemma set_elem {V} key (value : V) m :
  (key, value) ∈ JsMap.set key value m.
Proof.
  induction m as [|[k v] m IH]; cbn; [by left |].
  destruct (String.eqb k key) eqn:Hk.
  - apply String.eqb_eq in Hk as ->. by left.
  - by right.
Qed.

Section tokens.
Variable number_to_string : float → string.
Notation "# x" := (number_to_string x) (at level 9, format "# x").
Notation "'visit'" :=
  (λ acc node, processNodeForTokens number_to_string node acc) (only parsing).

(** The aggregate made of a token cache. *)
Definition tokens_of (tc : DesignTokenCache) : DesignTokens :=
  mkTokens (JsMap.values (tc_colors tc)) (JsMap.values (tc_fonts tc))
    (sort_numbers (JsMap.values (tc_spacing tc)))
    (sort_numbers (JsMap.values (tc_borderRadius tc))).

Lemma process_loop_visits fuel stack tc tc' :
  process_loop number_to_string fuel stack tc = Some tc' →
  ∃ order, order ≡ₚ stack ≫= all_nodes ∧ tc' = foldl visit tc order.
Proof.
  revert stack tc. induction fuel as [|fuel IH]; intros [|node stack] tc; cbn;
    try done; try (intros [= <-]; by exists []).
  intros (order & Hperm & ->)%IH. exists (node :: order). split; [| done].
  rewrite all_nodes_unfold. cbn. constructor.
  rewrite Hperm, bind_app. by rewrite bind_rev_nodes.
Qed.

(** X20. The worklist loop of [extractDesignTokensOptimized] ends for
    every document and hands each node of the tree to
    [processNodeForTokens] exactly once: the tokens are those of a fold
    over a rearrangement of the nodes. *)
Theorem every_node_is_processed_once (document : Node) :
  ∃ order,
    order ≡ₚ all_nodes document ∧
    extractDesignTokensOptimized number_to_string document
    = Some (tokens_of (foldl visit empty_cache order)).
Proof.
  unfold extractDesignTokensOptimized.
  destruct (process_loop_total number_to_string (node_count document)
              [document] empty_cache) as [tc Hloop].
  { rewrite stack_count_cons. change (stack_count []) with 0%nat. lia. }
  rewrite Hloop. apply process_loop_visits in Hloop as (order & Hperm & ->).
  exists order. split; [| done].
  rewrite Hperm. cbn. by rewrite app_nil_r.
Qed.

(** *** Fonts *)

Lemma process_fills_fonts node tc :
  tc_fonts (process_fills number_to_string node tc) = tc_fonts tc.
Proof.
  unfold process_fills. destruct (fills node) as [fs|]; [| done].
  revert tc. induction fs as [|fill fs IH]; intros tc; [done |].
  cbn. rewrite IH. unfold process_fill.
  destruct (color fill); [| done]. by destruct (String.eqb _ _).
Qed.

Lemma visit_fonts node tc :
  tc_fonts (processNodeForTokens number_to_string node tc) =
  match fontFamily node with
  | Some (String c f) => JsMap.set (String c f) (String c f) (tc_fonts tc)
  | _ => tc_fonts tc
  end.
Proof.
  unfold processNodeForTokens, process_radius, process_box, set_spacing.
  destruct (cornerRadius node), (absoluteBoundingBox node) as [box|]; cbn;
    repeat match goal with |- context [(0 <? ?x)%float] => destruct (0 <? x)%float end;
    cbn; unfold process_font;
    destruct (fontFamily node) as [[|? ?]|]; cbn; by rewrite process_fills_fonts.
Qed.

Definition named (nodes : list Node) (x : string) : Prop :=
  x ≠ "" ∧ ∃ node, node ∈ nodes ∧ fontFamily node = Some x.

Lemma fonts_fold order tc :
  let tc' := foldl visit tc order in
  (Forall (λ e, e.1 = e.2) (tc_fonts tc) → Forall (λ e, e.1 = e.2) (tc_fonts tc')) ∧
  (NoDup (JsMap.keys (tc_fonts tc)) → NoDup (JsMap.keys (tc_fonts tc'))) ∧
  ∀ x, x ∈ JsMap.keys (tc_fonts tc') ↔
       x ∈ JsMap.keys (tc_fonts tc) ∨ named order x.
Proof.
  revert tc. induction order as [|node order IH]; intros tc; cbn zeta.
  - split_and!; try done. intros x. split; [by left |].
    intros [H | (_ & n & Hn & _)]; [done | by apply elem_of_nil in Hn].
  - cbn [foldl]. destruct (IH (processNodeForTokens number_to_string node tc))
      as (Hsame & Hnd & Hkeys).
    rewrite visit_fonts in Hsame, Hnd, Hkeys.
    split_and!.
    + intros H. apply Hsame. destruct (fontFamily node) as [[|c f]|]; try done.
      by apply set_Forall.
    + intros H. apply Hnd. destruct (fontFamily node) as [[|c f]|]; try done.
      by apply set_NoDup.
    + intros x. rewrite Hkeys. unfold named. split.
      * intros [H | (Hx & n & Hn & Hfam)].
        -- destruct (fontFamily node) as [[|c f]|] eqn:Hfam; try by left.
           apply set_keys_elem in H as [-> | H]; [| by left].
           right. split; [done |]. exists node. split; [by left | done].
        -- right. split; [done |]. exists n. split; [by right | done].
      * intros [H | (Hx & n & [-> | Hn]%elem_of_cons & Hfam)].
        -- left. destruct (fontFamily node) as [[|c f]|]; try done.
           apply set_keys_elem. by right.
        -- left. rewrite Hfam. destruct x as [|c f]; [done |].
           apply set_keys_elem. by left.
        -- right. split; [done |]. by exists n.
Qed.

Lemma same_keys_values (m : list (string * string)) :
  Forall (λ e, e.1 = e.2) m → JsMap.values m = JsMap.keys m.
Proof.
  unfold JsMap.values, JsMap.keys.
  induction 1 as [|[k v] m Hkv Hm IH]; [done |]. cbn in *. by rewrite IH, Hkv.
Qed.

(** X21. The font list holds every non-empty font family that some node
    of the document carries, each once, and nothing else. *)
Theorem fonts_are_the_families_in_use (document : Node) :
  ∃ tokens,
    extractDesignTokensOptimized number_to_string document = Some tokens ∧
    NoDup (fonts tokens) ∧
    ∀ x, x ∈ fonts tokens ↔
         x ≠ "" ∧ ∃ node, node ∈ all_nodes document ∧ fontFamily node = Some x.
Proof.
  unfold extractDesignTokensOptimized.
  destruct (process_loop_total number_to_string (node_count document)
              [document] empty_cache) as [tc Hloop].
  { rewrite stack_count_cons. change (stack_count []) with 0%nat. lia. }
  rewrite Hloop. apply process_loop_visits in Hloop as (order & Hperm & ->).
  eexists. split; [done |]. cbn [fonts].
  destruct (fonts_fold order empty_cache) as (Hsame & Hnd & Hkeys).
  rewrite same_keys_values by (apply Hsame; constructor).
  split; [apply Hnd; constructor |].
  intros x. rewrite Hkeys. unfold named.
  assert (∀ n, n ∈ order ↔ n ∈ all_nodes document) as Hin.
  { intros n. rewrite Hperm. cbn. by rewrite app_nil_r. }
  split.
  - intros [H | (Hx & n & Hn & Hfam)]; [by apply elem_of_nil in H |].
    split; [done |]. exists n. by rewrite <- Hin.
  - intros (Hx & n & Hn & Hfam). right. split; [done |]. exists n.
    by rewrite Hin.
Qed.

(** *** Spacing *)

Lemma visit_spacing node tc :
  tc_spacing (processNodeForTokens number_to_string node tc) =
  match absoluteBoundingBox node with
  | Some box =>
      let w := Math_round (width box) in
      let h := Math_round (height box) in
      let m := if (0 <? w)%float then JsMap.set ("w-" ++ #w) w (tc_spacing tc)
               else tc_spacing tc in
      if (0 <? h)%float then JsMap.set ("h-" ++ #h) h m else m
  | None => tc_spacing tc
  end.
Proof.
  assert (tc_spacing (process_font node (process_fills number_to_string node tc))
          = tc_spacing tc) as Hbefore.
  { unfold process_font.
    destruct (fontFamily node) as [[|c f]|]; cbn; by rewrite process_fills_spacing. }
  unfold processNodeForTokens, process_radius, process_box, set_spacing.
  destruct (cornerRadius node), (absoluteBoundingBox node) as [box|]; cbn;
    repeat match goal with |- context [(0 <? ?x)%float] => destruct (0 <? x)%float end;
    cbn; by rewrite Hbefore.
Qed.

(** A node of [nodes] measures [x]: [x] is its rounded width or its
    rounded height. *)
Definition measured (nodes : list Node) (x : float) : Prop :=
  ∃ node box, node ∈ nodes ∧ absoluteBoundingBox node = Some box ∧
    (x = Math_round (width box) ∨ x = Math_round (height box)).

Lemma spacing_fold_Forall (Q : string * float → Prop) order tc :
  (∀ node box, node ∈ order → absoluteBoundingBox node = Some box →
     let w := Math_round (width box) in
     (0 <? w)%float = true → Q ("w-" ++ #w, w)) →
  (∀ node box, node ∈ order → absoluteBoundingBox node = Some box →
     let h := Math_round (height box) in
     (0 <? h)%float = true → Q ("h-" ++ #h, h)) →
  Forall Q (tc_spacing tc) → Forall Q (tc_spacing (foldl visit tc order)).
Proof.
  revert tc. induction order as [|node order IH]; intros tc Hw Hh Htc; [done |].
  cbn [foldl]. apply IH.
  - intros n box Hn. apply Hw. by right.
  - intros n box Hn. apply Hh. by right.
  - rewrite visit_spacing. destruct (absoluteBoundingBox node) as [box|] eqn:Hbox;
      [| done]. cbv zeta.
    pose proof (Hw node box ltac:(by left) Hbox) as Hw'.
    pose proof (Hh node box ltac:(by left) Hbox) as Hh'. cbv zeta in Hw', Hh'.
    destruct (0 <? Math_round (width box))%float,
      (0 <? Math_round (height box))%float;
      repeat (apply set_Forall; [by auto |]); done.
Qed.

Lemma spacing_keys_kept order tc k :
  k ∈ JsMap.keys (tc_spacing tc) →
  k ∈ JsMap.keys (tc_spacing (foldl visit tc order)).
Proof.
  revert tc. induction order as [|node order IH]; intros tc Hk; [done |].
  cbn [foldl]. apply IH. rewrite visit_spacing.
  destruct (absoluteBoundingBox node) as [box|]; [| done]. cbv zeta.
  destruct (0 <? Math_round (width box))%float,
    (0 <? Math_round (height box))%float;
    repeat (apply set_keys_elem; right); done.
Qed.

Lemma spacing_keys_added order tc node box :
  node ∈ order → absoluteBoundingBox node = Some box →
  let w := Math_round (width box) in
  let h := Math_round (height box) in
  ((0 <? w)%float = true →
   "w-" ++ #w ∈ JsMap.keys (tc_spacing (foldl visit tc order))) ∧
  ((0 <? h)%float = true →
   "h-" ++ #h ∈ JsMap.keys (tc_spacing (foldl visit tc order))).
Proof.
  revert tc. induction order as [|n order IH]; intros tc Hin Hbox;
    [by apply elem_of_nil in Hin |].
  apply elem_of_cons in Hin as [<- | Hin]; [| by apply IH].
  cbv zeta. cbn [foldl].
  split; intros Hpos; apply spacing_keys_kept; rewrite visit_spacing, Hbox;
    cbv zeta; rewrite ?Hpos.
  - destruct (0 <? Math_round (height box))%float;
      repeat (apply set_keys_elem; (by left) || right); done.
  - apply set_keys_elem. by left.
Qed.

Lemma key_entry {V} (m : list (string * V)) k :
  k ∈ JsMap.keys m → ∃ v, (k, v) ∈ m.
Proof.
  unfold JsMap.keys. intros ([k' v] & -> & H)%list_elem_of_fmap. by exists v.
Qed.

(** X22. Every number of the spacing list is the positive rounded width
    or height of some node of the document, and the positive rounded
    width and height of every node are in the list, as a number with the
    same text. *)
Theorem spacing_is_the_measures (document : Node) :
  ∃ tokens,
    extractDesignTokensOptimized number_to_string document = Some tokens ∧
    (∀ x, x ∈ spacing tokens →
       (0 <? x)%float = true ∧ measured (all_nodes document) x) ∧
    (∀ node box, node ∈ all_nodes document →
       absoluteBoundingBox node = Some box →
       ∀ x, (x = Math_round (width box) ∨ x = Math_round (height box)) →
            (0 <? x)%float = true →
            ∃ v, v ∈ spacing tokens ∧ #v = #x).
Proof.
  unfold extractDesignTokensOptimized.
  destruct (process_loop_total number_to_string (node_count document)
              [document] empty_cache) as [tc Hloop].
  { rewrite stack_count_cons. change (stack_count []) with 0%nat. lia. }
  rewrite Hloop. apply process_loop_visits in Hloop as (order & Hperm & ->).
  eexists. split; [done |]. cbn [spacing].
  assert (∀ n, n ∈ order ↔ n ∈ all_nodes document) as Hin.
  { intros n. rewrite Hperm. cbn. by rewrite app_nil_r. }
  set (tc := foldl visit empty_cache order).
  assert (∀ x, x ∈ sort_numbers (JsMap.values (tc_spacing tc))
               ↔ ∃ k, (k, x) ∈ tc_spacing tc) as Hvalues.
  { intros x. rewrite sort_numbers_perm. unfold JsMap.values.
    rewrite list_elem_of_fmap. split.
    - intros ([k v] & -> & H). by exists k.
    - intros (k & H). by exists (k, x). }
  split.
  - intros x (k & Hx)%Hvalues.
    assert (Forall (λ e, (0 <? e.2)%float = true
                         ∧ measured (all_nodes document) e.2) (tc_spacing tc))
      as Hall.
    { apply spacing_fold_Forall; [| | constructor].
      - intros n box Hn Hbox w Hw. split; [done |].
        exists n, box. rewrite <- Hin. by auto.
      - intros n box Hn Hbox h Hh. split; [done |].
        exists n, box. rewrite <- Hin. by auto. }
    rewrite Forall_forall in Hall. by apply Hall in Hx.
  - intros node box Hnode Hbox x Hx Hpos.
    apply Hin in Hnode.
    destruct (spacing_keys_added order empty_cache node box Hnode Hbox) as [Hw Hh].
    assert (Forall (spacing_entry number_to_string) (tc_spacing tc)) as Hentries.
    { apply spacing_fold_Forall; [| | constructor];
        intros n b _ _ y Hy; split; cbn; by auto. }
    rewrite Forall_forall in Hentries.
    assert (∃ k v, (k, v) ∈ tc_spacing tc ∧ (k = "w-" ++ #x ∨ k = "h-" ++ #x))
      as (k & v & Hkv & Hk).
    { destruct Hx as [-> | ->].
      - destruct (key_entry _ _ (Hw Hpos)) as [v Hv].
        eexists _, v. split; [exact Hv | by left].
      - destruct (key_entry _ _ (Hh Hpos)) as [v Hv].
        eexists _, v. split; [exact Hv | by right]. }
    exists v. split; [apply Hvalues; by exists k |].
    destruct (Hentries _ Hkv) as [_ Hkey]. cbn in Hkey.
    destruct Hk as [-> | ->], Hkey as [Hkey | Hkey]; try done.
    all: symmetry; by apply (WorkflowMore.string_app_inv_head _ _ _ Hkey).
Qed.

End tokens.

End FigmaTokensMore.

(** ** The Figma adapter *)

Module FigmaMore.
Import JsString Cache CacheProps Figma.

Open Scope string_scope.

(** The nodes of a document, in document order. *)
Fixpoint doc_nodes (node : DocNode) : list DocNode :=
  node :: match node_children node with
          | Some cs => cs ≫= doc_nodes
          | None => []
          end.

Lemma doc_nodes_unfold node :
  doc_nodes node = node :: (doc_children node ≫= doc_nodes).
Proof. by destruct node as [? ? ? ? ? ? ? ? ? [cs|]]. Qed.

Definition docs_count (stack : list DocNode) : nat :=
  list_sum (map doc_count stack).

Lemma docs_count_cons n s : docs_count (n :: s) = (doc_count n + docs_count s)%nat.
Proof. done. Qed.

Lemma doc_count_unfold node :
  doc_count node = S (docs_count (doc_children node)).
Proof. by destruct node as [? ? ? ? ? ? ? ? ? [cs|]]. Qed.

Lemma doc_count_child node child :
  child ∈ doc_children node → (doc_count child < doc_count node)%nat.
Proof.
  rewrite (doc_count_unfold node). induction (doc_children node) as [|c cs IH].
  - by intros ?%elem_of_nil.
  - rewrite docs_count_cons.
    intros [-> | H]%elem_of_cons; [lia |]. apply IH in H. lia.
Qed.

(** Induction on a document: a property that holds of a node when it
    holds of its children holds of every node. *)
Lemma doc_ind (P : DocNode → Prop) :
  (∀ node, Forall P (doc_children node) → P node) → ∀ node, P node.
Proof.
  intros step.
  assert (∀ n node, (doc_count node < n)%nat → P node) as Hall.
  { induction n as [|n IH]; intros node Hn; [lia |].
    apply step, Forall_forall. intros child Hchild. apply IH.
    pose proof (doc_count_child node child Hchild). lia. }
  intros node. apply (Hall (S (doc_count node))). lia.
Qed.

(** *** [findNodeById] *)

Lemma first_some_head id cs :
  Forall (λ c, findNodeById c id
               = head (filter (λ n, node_id n = id) (doc_nodes c))) cs →
  first_some (λ child, findNodeById child id) cs
  = head (filter (λ n, node_id n = id) (cs ≫= doc_nodes)).
Proof.
  induction 1 as [|c cs Hc Hcs IH]; [done |].
  cbn [first_some]. rewrite bind_cons, filter_app, Hc, IH.
  by destruct (filter _ (doc_nodes c)).
Qed.

Lemma findNodeById_head node id :
  findNodeById node id = head (filter (λ n, node_id n = id) (doc_nodes node)).
Proof.
  induction node as [node IH] using doc_ind.
  rewrite doc_nodes_unfold. apply first_some_head in IH.
  destruct node as [nid ? ? ? ? ? ? ? ? [cs|]]; cbn [findNodeById node_id node_children].
  - destruct (String.eqb_spec nid id) as [Heq | Hne].
    + by rewrite filter_cons_True.
    + rewrite filter_cons_False by done. exact IH.
  - destruct (String.eqb_spec nid id) as [Heq | Hne].
    + by rewrite filter_cons_True.
    + by rewrite filter_cons_False.
Qed.

Lemma findNodeById_Some document id found :
  findNodeById document id = Some found →
  node_id found = id ∧ found ∈ doc_nodes document.
Proof.
  rewrite findNodeById_head. intros Hhead.
  assert (found ∈ filter (λ n, node_id n = id) (doc_nodes document)) as Hin.
  { destruct (filter _ _) as [|x l]; [done |].
    injection Hhead as ->. by left. }
  apply list_elem_of_filter in Hin. by destruct Hin.
Qed.

Lemma findNodeById_None document id :
  findNodeById document id = None ↔
  ∀ n, n ∈ doc_nodes document → node_id n ≠ id.
Proof.
  rewrite findNodeById_head. split.
  - intros Hnone n Hn Hid.
    assert (n ∈ filter (λ n, node_id n = id) (doc_nodes document)) as Hin
      by (by apply list_elem_of_filter).
    destruct (filter _ _); [by apply elem_of_nil in Hin | done].
  - intros Hall.
    destruct (filter (λ n, node_id n = id) (doc_nodes document))
      as [|x l] eqn:Hfilter; [done |].
    assert (x ∈ filter (λ n, node_id n = id) (doc_nodes document)) as Hin
      by (rewrite Hfilter; by left).
    apply list_elem_of_filter in Hin as [Hid Hx]. by destruct (Hall x Hx).
Qed.

(** X23. [findNodeById] returns the first node, in document order, that
    carries the id: the node it returns has the id and is a node of the
    document, and it returns [null] exactly when no node has the id. *)
Theorem node_is_found_first (document : DocNode) (id : string) :
  findNodeById document id
  = head (filter (λ n, node_id n = id) (doc_nodes document)) ∧
  (∀ found, findNodeById document id = Some found →
     node_id found = id ∧ found ∈ doc_nodes document) ∧
  (findNodeById document id = None ↔
   ∀ n, n ∈ doc_nodes document → node_id n ≠ id).
Proof.
  split; [apply findNodeById_head |]. split.
  - apply findNodeById_Some.
  - apply findNodeById_None.
Qed.

(** *** [findComponentsOptimized] *)

Lemma docs_count_app s1 s2 :
  docs_count (s1 ++ s2) = (docs_count s1 + docs_count s2)%nat.
Proof. unfold docs_count. by rewrite map_app, list_sum_app. Qed.

Lemma docs_count_rev s : docs_count (rev s) = docs_count s.
Proof.
  induction s as [|n s IH]; [done |]. cbn [rev].
  rewrite docs_count_app, IH, !docs_count_cons.
  change (docs_count []) with 0%nat. lia.
Qed.

Lemma components_loop_total fuel stack components :
  (docs_count stack ≤ fuel)%nat →
  is_Some (components_loop fuel stack components).
Proof.
  revert stack components.
  induction fuel as [|fuel IH]; intros [|node stack] components Hfuel;
    try (by eexists).
  - rewrite docs_count_cons, doc_count_unfold in Hfuel. lia.
  - cbn [components_loop]. apply IH.
    rewrite docs_count_app, docs_count_rev.
    rewrite docs_count_cons, doc_count_unfold in Hfuel. lia.
Qed.

Lemma bind_rev_docs (l : list DocNode) : (rev l ≫= doc_nodes) ≡ₚ (l ≫= doc_nodes).
Proof.
  induction l as [|n l IH]; [done |]. cbn [rev].
  rewrite bind_app, bind_cons, IH. cbn. rewrite app_nil_r.
  apply Permutation_app_comm.
Qed.

Lemma components_loop_visits fuel stack components result :
  components_loop fuel stack components = Some result →
  ∃ order,
    order ≡ₚ stack ≫= doc_nodes ∧
    result = (components
              ++ (convertToFigmaNode <$> filter (λ n, is_component n = true) order))%list.
Proof.
  revert stack components.
  induction fuel as [|fuel IH]; intros [|node stack] components; cbn;
    try done; try (intros [= <-]; exists []; by rewrite app_nil_r).
  intros (order & Hperm & ->)%IH. exists (node :: order). split.
  - rewrite doc_nodes_unfold. cbn. constructor.
    rewrite Hperm, bind_app. by rewrite bind_rev_docs.
  - destruct (is_component node) eqn:Hnode.
    + rewrite filter_cons_True by done. by rewrite <- app_assoc.
    + rewrite filter_cons_False by congruence. done.
Qed.

Lemma findComponentsOptimized_total document :
  is_Some (findComponentsOptimized document).
Proof.
  apply components_loop_total.
  rewrite docs_count_cons. change (docs_count []) with 0%nat. lia.
Qed.

(** X24. [findComponentsOptimized] ends for every document and returns
    the converted nodes of type [COMPONENT] or [COMPONENT_SET], each
    once, wherever they are in the tree. *)
Theorem components_are_all_found (document : DocNode) :
  ∃ components,
    findComponentsOptimized document = Some components ∧
    components ≡ₚ
      convertToFigmaNode <$> filter (λ n, is_component n = true) (doc_nodes document).
Proof.
  unfold findComponentsOptimized.
  destruct (components_loop_total (doc_count document) [document] [])
    as [result Hloop].
  { rewrite docs_count_cons. change (docs_count []) with 0%nat. lia. }
  exists result. split; [done |].
  apply components_loop_visits in Hloop as (order & Hperm & ->).
  cbn in Hperm. rewrite app_nil_r in Hperm. cbn [app].
  by rewrite Hperm.
Qed.

(** *** The cache in front of the service *)

Lemma file_key_not_tokens a b : "/files/" ++ a ≠ "tokens:" ++ b.
Proof. done. Qed.

Lemma file_key_not_components a b : "/files/" ++ a ≠ "components:" ++ b.
Proof. done. Qed.

Lemma tokens_key_not_components a b : "tokens:" ++ a ≠ "components:" ++ b.
Proof. done. Qed.

Lemma tokens_file_key a b : "tokens:" ++ a ≠ "/files/" ++ b.
Proof. done. Qed.

Lemma components_file_key a b : "components:" ++ a ≠ "/files/" ++ b.
Proof. done. Qed.

Lemma components_tokens_key a b : "components:" ++ a ≠ "tokens:" ++ b.
Proof. done. Qed.

Section adapter.
Variable files : nat → string → string + FileData.
Variable number_to_string : float → string.
Variable type_error : string → string.

(** The design [getFile] builds from the body of a response. *)
Definition design_of (fileId : string) (fileData : FileData) : FigmaDesign :=
  mkDesign fileId (file_name fileData) (lastModified fileData)
    (default "" (thumbnailUrl fileData)) (version fileData).

(** A [getFile] that finds no live entry asks the service. *)
Lemma getFile_miss now_read now_store fileId st :
  (getCache now_read ("/files/" ++ fileId) (cache st)).1 = None →
  getFile files now_read now_store fileId st =
  let cache1 := (getCache now_read ("/files/" ++ fileId) (cache st)).2 in
  match files (sent st) ("/files/" ++ fileId) with
  | inr fileData =>
      (ok (Fresh (design_of fileId fileData) (document fileData)),
       mkAdapter (setCache now_store ("/files/" ++ fileId) (File fileData)
                    cacheTTL cache1) (S (sent st)))
  | inl msg => (failed msg, mkAdapter cache1 (S (sent st)))
  end.
Proof.
  intros Hmiss. unfold Figma.getFile, api_get.
  destruct (getCache now_read ("/files/" ++ fileId) (cache st)) as [cached cache1].
  cbn in Hmiss. subst cached. cbn.
  destruct (files (sent st) ("/files/" ++ fileId)) as [msg | fileData]; [done |].
  unfold design_of. by destruct (thumbnailUrl fileData) as [[|c u]|].
Qed.

(** A [getFile] that finds a live entry returns it and asks nothing. *)
Lemma getFile_hit now_read now_store fileId st payload :
  (getCache now_read ("/files/" ++ fileId) (cache st)).1 = Some payload →
  getFile files now_read now_store fileId st = (ok (FromCache payload), st).
Proof.
  intros Hhit. unfold Figma.getFile.
  destruct (getCache now_read ("/files/" ++ fileId) (cache st))
    as [cached cache1] eqn:Hget.
  cbn in Hhit. subst cached. f_equal.
  unfold getCache in Hget. destruct (cache st !! _) as [e|]; [| done].
  destruct (ttl e <? now_read - timestamp e)%Z; [done |].
  injection Hget as _ <-. by destruct st.
Qed.

(** X25. When the service fails, [getFrame] returns its failure; when it
    answers, [getFrame] returns a frame with the requested id if some
    node of the document has it, and the failure [Frame with ID ... not
    found] if none has. *)
Theorem frame_is_found_or_reported (now_read now_store : Z)
    (fileId nodeId : string) (st : Adapter) :
  (getCache now_read ("/files/" ++ fileId) (cache st)).1 = None →
  let result :=
    (getFrame files number_to_string type_error now_read now_store
       fileId nodeId st).1 in
  match files (sent st) ("/files/" ++ fileId) with
  | inl msg => result = failed msg
  | inr fileData =>
      ((∃ n, n ∈ doc_nodes (document fileData) ∧ node_id n = nodeId) →
       ∃ frame, result = ok frame ∧ frame_id frame = nodeId) ∧
      ((∀ n, n ∈ doc_nodes (document fileData) → node_id n ≠ nodeId) →
       result = failed ("Frame with ID " ++ nodeId ++ " not found"))
  end.
Proof.
  intros Hmiss. unfold Figma.getFrame. rewrite getFile_miss by done. cbv zeta.
  destruct (files (sent st) ("/files/" ++ fileId)) as [msg | fileData]; [done |].
  cbn. split.
  - intros (n & Hn & Hid).
    destruct (findNodeById (document fileData) nodeId) as [frameNode|] eqn:Hfind.
    + eexists. split; [done |]. cbn.
      by apply (findNodeById_Some (document fileData)).
    + destruct (proj1 (findNodeById_None _ _) Hfind n Hn Hid).
  - intros Hall. by rewrite (proj2 (findNodeById_None _ _) Hall).
Qed.

(** X26. A file that was fetched is served from the cache for five
    minutes: within them a second [getFile] sends no request, changes
    nothing and returns the stored body, whose document is that of the
    first result; after them it asks the service again. *)
Theorem file_is_fetched_once (t1 t2 t3 t4 : Z) (fileId : string) (st : Adapter)
    (fileData : FileData) :
  (getCache t1 ("/files/" ++ fileId) (cache st)).1 = None →
  files (sent st) ("/files/" ++ fileId) = inr fileData →
  let first := getFile files t1 t2 fileId st in
  let second := getFile files t3 t4 fileId first.2 in
  first.1 = ok (Fresh (design_of fileId fileData) (document fileData)) ∧
  sent first.2 = S (sent st) ∧
  ((t3 - t2 ≤ cacheTTL)%Z →
     second = (ok (FromCache (File fileData)), first.2) ∧
     data second.1 ≫= document_of = data first.1 ≫= document_of) ∧
  ((cacheTTL < t3 - t2)%Z → sent second.2 = S (S (sent st))).
Proof.
  intros Hmiss Hfile. cbv zeta. rewrite getFile_miss by done.
  cbv zeta. rewrite Hfile. cbn [fst snd sent].
  split; [done |]. split; [done |]. split.
  - intros Hlive. rewrite (getFile_hit _ _ _ _ (File fileData)).
    + done.
    + cbn [cache]. by rewrite getCache_set_live.
  - intros Hexpired. rewrite getFile_miss.
    + cbv zeta. cbn [sent]. by destruct (files (S (sent st)) _).
    + cbn [cache]. by rewrite getCache_set_expired.
Qed.

(** X27. A failure is not cached: after a [getFile] that failed, the
    next one asks the service again, whenever it is made, and returns
    what the service then answers. *)
Theorem failed_fetch_is_retried (t1 t2 t3 t4 : Z) (fileId : string) (st : Adapter)
    (msg : string) :
  (getCache t1 ("/files/" ++ fileId) (cache st)).1 = None →
  files (sent st) ("/files/" ++ fileId) = inl msg →
  let first := getFile files t1 t2 fileId st in
  let second := getFile files t3 t4 fileId first.2 in
  first.1 = failed msg ∧
  sent second.2 = S (S (sent st)) ∧
  second.1 = match files (S (sent st)) ("/files/" ++ fileId) with
             | inr fileData =>
                 ok (Fresh (design_of fileId fileData) (document fileData))
             | inl msg' => failed msg'
             end.
Proof.
  intros Hmiss Hfile. cbv zeta. rewrite getFile_miss by done.
  cbv zeta. rewrite Hfile. cbn [fst snd].
  assert ((getCache t3 ("/files/" ++ fileId)
             (getCache t1 ("/files/" ++ fileId) (cache st)).2).1 = None) as Hagain.
  { unfold getCache in *. destruct (cache st !! ("/files/" ++ fileId)) as [e|] eqn:He.
    - destruct (ttl e <? t1 - timestamp e)%Z; [| done]. cbn.
      by rewrite lookup_delete_eq.
    - cbn. by rewrite He. }
  rewrite getFile_miss by done. cbv zeta. cbn [sent cache].
  by destruct (files (S (sent st)) ("/files/" ++ fileId)).
Qed.

(** X28. Design tokens are kept for ten minutes, twice as long as the
    file they come from: once [analyzeDesignTokens] has succeeded, a call
    made within ten minutes returns the same tokens without asking the
    service and without reading the file again, whether or not the file
    is still cached. *)
Theorem tokens_outlive_the_file (t1 t2 t3 t4 : Z) (fileId : string) (st : Adapter)
    (fileData : FileData) :
  cache st !! ("tokens:" ++ fileId) = None →
  cache st !! ("/files/" ++ fileId) = None →
  files (sent st) ("/files/" ++ fileId) = inr fileData →
  ∃ designTokens st1,
    FigmaTokens.extractDesignTokensOptimized number_to_string
      (token_view (document fileData)) = Some designTokens ∧
    analyzeDesignTokens files number_to_string type_error t1 t2 t3 t4 fileId st
    = (ok (Tokens designTokens), st1) ∧
    sent st1 = S (sent st) ∧
    ∀ t5 t6 t7 t8, (t5 - t4 ≤ 2 * cacheTTL)%Z →
      analyzeDesignTokens files number_to_string type_error t5 t6 t7 t8 fileId st1
      = (ok (Tokens designTokens), st1).
Proof.
  intros Htokens Hfile Hserver.
  destruct (FigmaTokensProps.extractDesignTokensOptimized_total number_to_string
              (token_view (document fileData))) as [designTokens Hextract].
  eexists designTokens, _. split; [done |].
  unfold Figma.analyzeDesignTokens at 1.
  rewrite getCache_unseen by done.
  rewrite getFile_miss by (cbn; by rewrite getCache_unseen).
  cbv zeta. cbn [sent cache]. rewrite Hserver.
  cbn [success ok negb data mbind option_bind document_of].
  rewrite Hextract. split; [done |]. split; [done |].
  intros t5 t6 t7 t8 Hlive. unfold Figma.analyzeDesignTokens. cbn [cache sent].
  rewrite getCache_set_live by lia. done.
Qed.

End adapter.

(** A file of one frame that holds one component. *)
Definition button : DocNode :=
  mkDoc "1:3" "Button" "COMPONENT" (Some (mkRect 0 0 120 40)) None None None
    (Some 8%float) (Some "Inter") None.

Definition hero_frame : DocNode :=
  mkDoc "1:2" "Hero" "FRAME" (Some (mkRect 0 0 1440 900)) None None None
    None None (Some [button]).

Definition landing : FileData :=
  mkFileData "Landing" "2024-01-01T00:00:00Z" None "1"
    (mkDoc "0:0" "Document" "DOCUMENT" None None None None None None
       (Some [hero_frame])).

(** A service that answers every request with that file, and one that
    is down. *)
Definition serving : nat → string → string + FileData := λ _ _, inr landing.
Definition down : nat → string → string + FileData :=
  λ _ _, inl "Request failed with status code 503".

Definition idle : Adapter := mkAdapter ∅ 0.

Lemma frame_is_found_or_reported_witness :
  ∃ frame,
    (Figma.getFrame serving (λ _, "0") (λ _, "TypeError") 0 10 "abc" "1:2" idle).1
    = ok frame ∧ frame_id frame = "1:2".
Proof.
  apply (frame_is_found_or_reported serving (λ _, "0") (λ _, "TypeError")
           0 10 "abc" "1:2" idle eq_refl).
  exists hero_frame. split; [| done]. right. by left.
Defined.

Lemma file_is_fetched_once_witness :
  Figma.getFile serving 200 210 "abc" (Figma.getFile serving 0 10 "abc" idle).2
  = (ok (FromCache (File landing)), (Figma.getFile serving 0 10 "abc" idle).2).
Proof.
  destruct (file_is_fetched_once serving 0 10 200 210 "abc" idle landing
              eq_refl eq_refl) as (_ & _ & Hlive & _).
  apply Hlive. unfold cacheTTL. lia.
Defined.

Lemma failed_fetch_is_retried_witness :
  sent (Figma.getFile down 20 30 "abc" (Figma.getFile down 0 10 "abc" idle).2).2
  = 2%nat.
Proof.
  by destruct (failed_fetch_is_retried down 0 10 20 30 "abc" idle
                 "Request failed with status code 503" eq_refl eq_refl)
    as (_ & H & _).
Defined.

Lemma tokens_outlive_the_file_witness :
  ∃ designTokens st1,
    Figma.analyzeDesignTokens serving (λ _, "0") (λ _, "TypeError")
      0 1 10 11 "abc" idle = (ok (Tokens designTokens), st1) ∧
    Figma.analyzeDesignTokens serving (λ _, "0") (λ _, "TypeError")
      500000 500001 500010 500011 "abc" st1 = (ok (Tokens designTokens), st1).
Proof.
  destruct (tokens_outlive_the_file serving (λ _, "0") (λ _, "TypeError")
              0 1 10 11 "abc" idle landing eq_refl eq_refl eq_refl)
    as (designTokens & st1 & _ & Hfirst & _ & Hagain).
  exists designTokens, st1. split; [exact Hfirst |].
  apply Hagain. unfold cacheTTL. lia.
Defined.

End FigmaMore.

(** ** The tool handlers *)

Module ServerMore.
Import JsString Cache CacheProps FigmaUrlParser FigmaUrlProps FigmaUrlMore Figma
  FigmaMore Server.

Open Scope string_scope.

Lemma skip_digits_chars p s : all_chars p s = true → all_chars p (skip_digits s) = true.
Proof.
  induction s as [|c s IH]; [done |]. cbn [all_chars skip_digits].
  intros [Hc Hs]%andb_prop. destruct (is_digit c); [by apply IH |].
  cbn [all_chars]. by rewrite Hc, Hs.
Qed.

Lemma alnum_not_separator c :
  is_alnum c = true → Ascii.eqb c "-" || Ascii.eqb c ":" = false.
Proof. intros H. ascii_cases c. Qed.

(** Letters and digits alone make no node id. *)
Lemma alnum_not_node_id s : all_chars is_alnum s = true → looks_like_node_id s = false.
Proof.
  intros Hs. unfold looks_like_node_id. destruct s as [|c s]; [done |].
  apply skip_digits_chars in Hs.
  destruct (skip_digits (String c s)) as [|sep rest]; [by rewrite andb_false_r |].
  cbn [all_chars] in Hs. apply andb_prop in Hs as [Hsep _].
  rewrite (alnum_not_separator sep Hsep). by rewrite andb_false_r.
Qed.

Lemma strip_prefix_Some p s rest : strip_prefix p s = Some rest → s = p ++ rest.
Proof.
  revert s. induction p as [|a p IH]; intros [|b s]; cbn; try done.
  - by intros [= <-].
  - by intros [= <-].
  - destruct (Ascii.eqb_spec a b) as [-> |]; [| done].
    intros H%IH. by rewrite H.
Qed.

Lemma no_dash_no_param s : all_chars no_dash s = true → node_regex_match s = None.
Proof.
  induction s as [|c s IH]; [done |]. intros Hs.
  assert (node_param_here (String c s) = None) as Hhere.
  { unfold node_param_here.
    destruct (strip_prefix "node-id=" (String c s)) as [rest|] eqn:Hstrip; [| done].
    apply strip_prefix_Some in Hstrip. rewrite Hstrip, all_chars_app in Hs.
    done. }
  cbn [node_regex_match]. rewrite Hhere.
  cbn [all_chars] in Hs. apply andb_prop in Hs as [_ Hs]. by apply IH.
Qed.

Lemma bare_char_not_h c : bare_char c = true → Ascii.eqb "h" c = false.
Proof. intros H. ascii_cases c. Qed.

Lemma bare_chars_no_url s : all_chars bare_char s = true → figma_url_match s = None.
Proof.
  induction s as [|c s IH]; [done |]. cbn [all_chars].
  intros [Hc Hs]%andb_prop. cbn [figma_url_match].
  assert (figma_url_here (String c s) = None) as ->.
  { unfold figma_url_here. cbn [strip_prefix].
    by rewrite (bare_char_not_h c Hc). }
  by apply IH.
Qed.

(** X29. A bare file id, more than ten letters and digits, is taken as
    it is and gives no node id; a bare node id, which [extractNodeId]
    accepts, is refused by [parseFigmaInput], for no file id can be read
    from it. *)
Theorem bare_inputs (input : string) :
  (all_chars is_alnum input = true → (10 < String.length input)%nat →
   parseFigmaInput input = Some (input, None)) ∧
  (looks_like_node_id input = true →
   extractNodeId input ≠ None ∧ parseFigmaInput input = None).
Proof.
  split.
  - intros Halnum Hlen. unfold parseFigmaInput, extractFileId, extractNodeId.
    rewrite <- all_chars_forallb, Halnum.
    assert (nonempty input = true) as -> by (destruct input; [cbn in Hlen; lia | done]).
    apply Nat.ltb_lt in Hlen. rewrite Hlen. cbn.
    rewrite (alnum_not_node_id input Halnum).
    rewrite no_dash_no_param; [done |].
    apply (all_chars_impl is_alnum); [apply alnum_no_dash | done].
  - intros Hlooks. split.
    + unfold extractNodeId. by rewrite Hlooks.
    + unfold parseFigmaInput, extractFileId.
      assert (all_chars is_alnum input = false) as Hnot.
      { destruct (all_chars is_alnum input) eqn:Halnum; [| done].
        apply alnum_not_node_id in Halnum. congruence. }
      rewrite <- all_chars_forallb, Hnot. cbn.
      unfold parseFigmaUrl.
      by rewrite (bare_chars_no_url input (bare_node_id_chars input Hlooks)).
Qed.

Lemma bare_inputs_witness :
  parseFigmaInput "abc123def456" = Some ("abc123def456", None) ∧
  parseFigmaInput "12-345" = None.
Proof.
  split.
  - apply (bare_inputs "abc123def456"); [reflexivity | cbn; lia].
  - apply (bare_inputs "12-345"). reflexivity.
Defined.

(** *** [handleAnalyzeFigmaDesign] *)

Lemma getCache_live {T} now k (cache : gmap string (CacheEntry T)) e :
  cache !! k = Some e → (now - timestamp e ≤ ttl e)%Z →
  getCache now k cache = (Some (entry_data e), cache).
Proof.
  intros He Hlive. unfold getCache. rewrite He.
  destruct (Z.ltb_spec (ttl e) (now - timestamp e)); [lia | done].
Qed.

Section server.
Variable files : nat → string → string + FileData.
Variable number_to_string : float → string.
Variable type_error : string → string.

(** X30. One request serves the whole analysis: when nothing is cached
    for the file and the service answers, [handleAnalyzeFigmaDesign]
    sends a single request, provided the tokens and the components read
    the file within five minutes of its arrival; the three parts of the
    analysis are the file, its design tokens and its components. *)
Theorem one_fetch_serves_the_analysis (input fileId : string) (node : option string)
    (file_read file_store t1 t2 t3 t4 c1 c2 c3 c4 : Z) (st : Adapter)
    (fileData : FileData) :
  parseFigmaInput input = Some (fileId, node) →
  cache st !! ("/files/" ++ fileId) = None →
  cache st !! ("tokens:" ++ fileId) = None →
  cache st !! ("components:" ++ fileId) = None →
  files (sent st) ("/files/" ++ fileId) = inr fileData →
  (t2 - file_store ≤ cacheTTL)%Z → (c2 - file_store ≤ cacheTTL)%Z →
  ∃ designTokens components st',
    FigmaTokens.extractDesignTokensOptimized number_to_string
      (token_view (document fileData)) = Some designTokens ∧
    findComponentsOptimized (document fileData) = Some components ∧
    handleAnalyzeFigmaDesign files number_to_string type_error input
      (file_read, file_store) (t1, t2, t3, t4) (c1, c2, c3, c4) st
    = (Some (mkAnalysis
               (inr (Some (Fresh (design_of fileId fileData) (document fileData))))
               (inr (Some (Tokens designTokens)))
               (inr (Some (Components components)))), st') ∧
    sent st' = S (sent st).
Proof.
  intros Hparse Hfile Htokens Hcomponents Hserver Ht Hc.
  destruct (FigmaTokensProps.extractDesignTokensOptimized_total number_to_string
              (token_view (document fileData))) as [designTokens Hextract].
  destruct (findComponentsOptimized_total (document fileData))
    as [components Hfind].
  exists designTokens, components. eexists. split; [done |]. split; [done |].
  unfold handleAnalyzeFigmaDesign. rewrite Hparse. cbn [fst snd].
  rewrite getFile_miss by (by rewrite getCache_unseen).
  cbv zeta. rewrite Hserver, getCache_unseen by done. cbn [snd].
  set (entry := mkEntry (File fileData) file_store cacheTTL).
  set (cache1 := setCache file_store ("/files/" ++ fileId) (File fileData)
                   cacheTTL (cache st)).
  assert (cache1 !! ("/files/" ++ fileId) = Some entry) as Hfile1
    by apply lookup_insert_eq.
  (* the tokens *)
  unfold Figma.analyzeDesignTokens. cbn [cache sent].
  rewrite (getCache_unseen t1 ("tokens:" ++ fileId) cache1)
    by (unfold cache1; rewrite setCache_other; [done | apply tokens_file_key]).
  rewrite (getFile_hit files t2 t3 fileId _ (File fileData))
    by (cbn [cache]; by rewrite (getCache_live t2 _ cache1 entry)).
  cbn [success ok negb data mbind option_bind document_of].
  rewrite Hextract.
  set (cache2 := setCache t4 ("tokens:" ++ fileId) (Tokens designTokens)
                   (cacheTTL * 2) cache1).
  assert (cache2 !! ("/files/" ++ fileId) = Some entry) as Hfile2.
  { unfold cache2. rewrite setCache_other; [done | apply file_key_not_tokens]. }
  (* the components *)
  unfold Figma.extractComponents. cbn [cache sent]. fold cache2.
  rewrite (getCache_unseen c1 ("components:" ++ fileId) cache2).
  2: { unfold cache2, cache1.
       rewrite !setCache_other; [done | apply components_file_key
                                | apply components_tokens_key]. }
  rewrite (getFile_hit files c2 c3 fileId _ (File fileData))
    by (cbn [cache]; by rewrite (getCache_live c2 _ cache2 entry)).
  cbn [success ok negb data mbind option_bind document_of].
  rewrite Hfind. done.
Qed.

End server.

Lemma one_fetch_serves_the_analysis_witness :
  sent (handleAnalyzeFigmaDesign serving (λ _, "0") (λ _, "TypeError")
          "https://www.figma.com/design/abc123def456/Landing?node-id=1-2"
          (0, 10) (20, 21, 22, 23) (30, 31, 32, 33) idle).2 = 1%nat.
Proof.
  destruct (one_fetch_serves_the_analysis serving (λ _, "0") (λ _, "TypeError")
              "https://www.figma.com/design/abc123def456/Landing?node-id=1-2"
              "abc123def456" (Some "1-2") 0 10 20 21 22 23 30 31 32 33 idle landing
              eq_refl eq_refl eq_refl eq_refl eq_refl)
    as (designTokens & components & st' & _ & _ & Hrun & Hsent).
  - unfold cacheTTL. lia.
  - unfold cacheTTL. lia.
  - by rewrite Hrun.
Defined.

End ServerMore.
